(** * MicroBeast font editor: the font document and the selection/edit engine

    A shallow embedding of [App.jsx] (the React component that owns the
    font, the selection and the clipboard) and the properties of its
    handlers.

    Conventions of the embedding.
    - JavaScript numbers are integers, modelled by [Z]: the indices, the
      offsets and the segment bitmasks of the editor are integers.
      [to_string] prints them as [Number::toString] does: in full up to
      2^53, and from there with the fewest digits that still read back as
      the same Number, in exponent form from 10^21.
    - A [Set] is an insertion-ordered list without repetitions.
    - An [Array] is its list of elements together with its extra
      (non-index) properties: [a[i] = v] extends the array when [i] is past
      the end and stores a named property when [i] is not an array index.
    - The three [useState] cells are one [State] record.  A handler is a
      function on [State]: the values it closes over ([selection],
      [font], [clipboard]) are those of the state it is applied to, which is
      what the dependency lists of the [useCallback]s give when every event
      is handled before the next one is dispatched. *)

From Stdlib Require Import ZArith Ascii String DecimalString Bool List
  Permutation Sorted Lia.
Import ListNotations.

Local Open Scope Z_scope.

(** ** JavaScript values *)

(** The values that can come out of [JSON.parse], and [undefined]. *)
#[warnings="-register-all"]
Inductive value : Type :=
| VUndefined
| VNull
| VBool (b : bool)
| VNum (n : Z)
| VStr (s : string)
| VArr (items : list value)
| VObj (fields : list (string * value)).

(** [ToBoolean]: what [!v], [v || d] and [v ? a : b] test. *)
Definition truthy (v : value) : bool :=
  match v with
  | VUndefined | VNull => false
  | VBool b => b
  | VNum n => negb (n =? 0)
  | VStr s => negb (s =? "")%string
  | VArr _ | VObj _ => true
  end.

(** [v || d] *)
Definition or_else (v d : value) : value := if truthy v then v else d.

(** [typeof v === 'number'] *)
Definition is_number (v : value) : bool :=
  match v with VNum _ => true | _ => false end.

(** [v === 0] *)
Definition is_zero (v : value) : bool :=
  match v with VNum n => n =? 0 | _ => false end.

(** ** Printing a Number *)

(** The decimal digits of a non-negative integer. *)
Definition decimal (n : Z) : string := NilZero.string_of_int (Z.to_int n).

(** The Number nearest to the non-negative integer [n]: [n] itself below
    2^53, and from there the nearest multiple of the spacing [2^e] of the
    Numbers around [n], a tie going to the even significand. *)
Definition nearest_double (n : Z) : Z :=
  if n <? 2 ^ 53 then n
  else
    let e := Z.log2 n - 52 in
    let q := n / 2 ^ e in
    let r := n mod 2 ^ e in
    let half := 2 ^ (e - 1) in
    let q := if r <? half then q
             else if half <? r then q + 1
             else if Z.even q then q else q + 1 in
    q * 2 ^ e.

(** Whether the real number [v2 / 2] rounds to the Number [x], for [x] from
    2^53: [x] is [m * 2^e] with a significand [m] of 53 bits, the real
    numbers that round to it lie within half the spacing on either side
    (a quarter below a power of two), and the two ends round to [x] when
    [m] is even. *)
Definition rounds_to (x v2 : Z) : bool :=
  let e := Z.log2 x - 52 in
  let m := x / 2 ^ e in
  let lo2 := 2 * x - (if m =? 2 ^ 52 then 2 ^ (e - 1) else 2 ^ e) in
  let hi2 := 2 * x + 2 ^ e in
  if Z.even m then (lo2 <=? v2) && (v2 <=? hi2)
  else (lo2 <? v2) && (v2 <? hi2).

(** Step 5 of [Number::toString]: the integer with the fewest significant
    digits that rounds to [x], and of these the nearest to [x].  The round
    with [fuel = S f] tries the two multiples of [10^f] around [x]; the last
    round finds [x] itself. *)
Fixpoint shortest (x : Z) (fuel : nat) : Z :=
  match fuel with
  | O => x
  | S f =>
      let P := 10 ^ Z.of_nat f in
      let lo := x / P * P in
      let hi := lo + P in
      match rounds_to x (2 * lo), rounds_to x (2 * hi) with
      | true, true =>
          if x - lo <? hi - x then lo
          else if hi - x <? x - lo then hi
          else if Z.even (x / P) then lo else hi
      | true, false => lo
      | false, true => hi
      | false, false => shortest x f
      end
  end.

Fixpoint strip_zeros (fuel : nat) (v : Z) : Z :=
  match fuel with
  | O => v
  | S f => if v mod 10 =? 0 then strip_zeros f (v / 10) else v
  end.

(** The form [d.ddde+n] that numbers from 10^21 are printed in. *)
Definition exponent_form (v : Z) : string :=
  let n := String.length (decimal v) in
  let exponent := ("e+" ++ decimal (Z.of_nat n - 1))%string in
  match decimal (strip_zeros n v) with
  | String d EmptyString => String d exponent
  | String d rest => String d ("." ++ rest ++ exponent)
  | EmptyString => EmptyString
  end.

(** [Number::toString(n)] in radix 10, for the Number nearest to [n]. *)
Definition number_to_string (n : Z) : string :=
  let x := nearest_double (Z.abs n) in
  let sign := if n <? 0 then "-"%string else ""%string in
  let digits :=
    if x <? 2 ^ 53 then decimal x
    else if 2 ^ 1024 <=? x then "Infinity"%string
    else
      let v := shortest x (String.length (decimal x)) in
      if v <? 10 ^ 21 then decimal v else exponent_form v in
  (sign ++ digits)%string.

(** [ToString], as a template literal applies it. *)
Fixpoint to_string (v : value) : string :=
  match v with
  | VUndefined => "undefined"%string
  | VNull => "null"%string
  | VBool true => "true"%string
  | VBool false => "false"%string
  | VNum n => number_to_string n
  | VStr s => s
  | VArr items =>
      String.concat ","
        (map (fun x => match x with
                       | VUndefined | VNull => ""%string
                       | _ => to_string x
                       end) items)
  | VObj _ => "[object Object]"%string
  end.

Fixpoint lookup_field (k : string) (fields : list (string * value)) : value :=
  match fields with
  | [] => VUndefined
  | (k', v) :: rest => if (k =? k')%string then v else lookup_field k rest
  end.

(** [v.k] for a key [k] that no built-in prototype defines ([characters],
    [segments] and [name] are such keys).  [None] is the [TypeError] of a
    property read on [null] or [undefined]. *)
Definition get_field (k : string) (v : value) : option value :=
  match v with
  | VUndefined | VNull => None
  | VObj fields => Some (lookup_field k fields)
  | VBool _ | VNum _ | VStr _ | VArr _ => Some VUndefined
  end.

(** ** Characters, slots and arrays *)

(** A character object.  A missing [name] key is [name = VUndefined]. *)
Record Character : Type := mkChar { segments : value; name : value }.

(** What an element of [font.characters] can be. *)
Inductive slot : Type :=
| Undefined
| Null
| Char (c : Character).

Definition slot_truthy (x : slot) : bool :=
  match x with Char _ => true | _ => false end.

(** [x === null] *)
Definition slot_is_null (x : slot) : bool :=
  match x with Null => true | _ => false end.

Record jsarray : Type := mkArray {
  elems : list slot;
  props : list (Z * slot)
}.

(** An array index is an integer in [0, 2^32 - 2]. *)
Definition is_array_index (i : Z) : bool := (0 <=? i) && (i <? 4294967295).

Fixpoint lookup_prop (i : Z) (ps : list (Z * slot)) : slot :=
  match ps with
  | [] => Undefined
  | (j, x) :: rest => if i =? j then x else lookup_prop i rest
  end.

(** [a[i]] *)
Definition get (a : jsarray) (i : Z) : slot :=
  if is_array_index i then nth (Z.to_nat i) (elems a) Undefined
  else lookup_prop i (props a).

(** Writing element [n]: in place when it exists, otherwise the array grows
    and the elements in between are holes, which read as [undefined]. *)
Fixpoint list_set (n : nat) (x : slot) (l : list slot) : list slot :=
  match n, l with
  | O, [] => [x]
  | O, _ :: rest => x :: rest
  | S n', [] => Undefined :: list_set n' x []
  | S n', y :: rest => y :: list_set n' x rest
  end.

(** [a[i] = x] *)
Definition set (a : jsarray) (i : Z) (x : slot) : jsarray :=
  if is_array_index i
  then mkArray (list_set (Z.to_nat i) x (elems a)) (props a)
  else mkArray (elems a) ((i, x) :: props a).

(** [[...a]]: a fresh array with the elements of [a] only. *)
Definition spread (a : jsarray) : jsarray := mkArray (elems a) [].

(** [Array(n).fill(x)] *)
Definition array_fill (n : nat) (x : slot) : jsarray := mkArray (repeat x n) [].

(** [a.length] *)
Definition array_length (a : jsarray) : Z := Z.of_nat (length (elems a)).

(** ** Sets of indices *)

(** [s.has(i)] *)
Definition has (s : list Z) (i : Z) : bool := existsb (Z.eqb i) s.

(** [s.add(i)] *)
Definition add (s : list Z) (i : Z) : list Z := if has s i then s else s ++ [i].

(** [s.delete(i)] *)
Definition delete (s : list Z) (i : Z) : list Z :=
  filter (fun j => negb (j =? i)) s.

(** [new Set(l)] *)
Definition set_of_list (l : list Z) : list Z := fold_left add l [].

Fixpoint insert_sorted (x : Z) (l : list Z) : list Z :=
  match l with
  | [] => [x]
  | y :: rest => if x <=? y then x :: l else y :: insert_sorted x rest
  end.

(** [Array.from(s).sort((a, b) => a - b)] *)
Definition sort_num (s : list Z) : list Z := fold_right insert_sorted [] s.

(** ** The state of the component *)

Record Font : Type := mkFont { font_name : value; characters : jsarray }.

Record Selection : Type := mkSelection { anchor : Z; selected : list Z }.

(** An entry of [clipboard.characters]. *)
Record ClipItem : Type := mkClipItem { offset : Z; char : slot }.

Record State : Type := mkState {
  font : Font;
  selection : Selection;
  clipboard : option (list ClipItem)
}.

(** The result of a handler that can throw. *)
Inductive outcome : Type :=
| Ok (s : State)
| TypeError.

Definition blank : Character := mkChar (VNum 0) VNull.

(** [createEmptyFont(name = 'Untitled Font')]; the default is taken when the
    argument is [undefined], as in the call [createEmptyFont()]. *)
Definition createEmptyFont (name : value) : Font :=
  let name := match name with
              | VUndefined => VStr "Untitled Font"
              | _ => name
              end in
  let characters := array_fill 256 Null in
  let characters := set characters 0 (Char blank) in
  mkFont name characters.

Definition range_from (start : Z) (count : nat) : list Z :=
  map (fun k => start + Z.of_nat k) (seq 0 count).

(** [createSelectionRange(anchor, focus)] *)
Definition createSelectionRange (anchor focus : Z) : list Z :=
  let start := Z.min anchor focus in
  let end_ := Z.max anchor focus in
  range_from start (Z.to_nat (end_ - start + 1)).

Definition initial_selection : Selection := mkSelection 0 [0].

(** The state of [App] when it is mounted. *)
Definition initial_state : State :=
  mkState (createEmptyFont VUndefined) initial_selection None.

(** ** Font lifecycle *)

(** [handleFontNameChange] *)
Definition handleFontNameChange (name : value) (s : State) : State :=
  mkState (mkFont name (characters (font s))) (selection s) (clipboard s).

(** [handleNewFont]; [confirmed] is the answer of the [confirm] dialog. *)
Definition handleNewFont (confirmed : bool) (s : State) : State :=
  if confirmed
  then mkState (createEmptyFont VUndefined) initial_selection (clipboard s)
  else s.

(** [char !== null] on a raw entry. *)
Definition is_not_null (v : value) : bool :=
  match v with VNull => false | _ => true end.

(** The body of the callback of [data.characters.forEach]; [None] when a
    property read throws. *)
Definition load_entry (characters : jsarray) (idx : nat) (char : value)
  : option jsarray :=
  if (Z.of_nat idx <? 256) && is_not_null char then
    match get_field "segments" char, get_field "name" char with
    | Some s, Some n =>
        Some (set characters (Z.of_nat idx)
                (Char (mkChar (or_else s (VNum 0)) (or_else n VNull))))
    | _, _ => None
    end
  else Some characters.

Fixpoint forEach_load (items : list value) (idx : nat) (characters : jsarray)
  : option jsarray :=
  match items with
  | [] => Some characters
  | char :: rest =>
      match load_entry characters idx char with
      | Some characters' => forEach_load rest (S idx) characters'
      | None => None
      end
  end.

(** The font that [handleLoadFont] builds; [None] when it throws before
    [setFont] is reached (a property read on [null] or [undefined], or a
    truthy [data.characters] that has no [forEach] method).  [data.name] is
    read after the loop; it is looked up here with [data.characters] because
    the two reads throw together, when [data] is [null] or [undefined]. *)
Definition load_font (data : value) : option Font :=
  let characters := array_fill 256 Null in
  match get_field "characters" data, get_field "name" data with
  | Some cs, Some n =>
      let filled :=
        if truthy cs then
          match cs with
          | VArr items => forEach_load items 0 characters
          | _ => None
          end
        else Some characters in
      match filled with
      | Some characters =>
          let characters :=
            if slot_is_null (get characters 0)
            then set characters 0 (Char blank)
            else characters in
          Some (mkFont (or_else n (VStr "Loaded Font")) characters)
      | None => None
      end
  | _, _ => None
  end.

(** [handleLoadFont] *)
Definition handleLoadFont (data : value) (s : State) : outcome :=
  match load_font data with
  | Some f => Ok (mkState f initial_selection (clipboard s))
  | None => TypeError
  end.

(** ** Selection *)

(** [char.segments === 0 && !char.name] *)
Definition is_empty_content (c : Character) : bool :=
  is_zero (segments c) && negb (truthy (name c)).

(** One round of the loop over the previous selection in [handleSelect]. *)
Definition revert_empty (index : Z) (acc : jsarray * bool) (prevIndex : Z)
  : jsarray * bool :=
  if negb (prevIndex =? index) then
    match get (fst acc) prevIndex with
    | Char c =>
        if is_empty_content c
        then (set (fst acc) prevIndex Null, true)
        else acc
    | _ => acc
    end
  else acc.

(** The auto-create step of [handleSelect]. *)
Definition auto_create (index : Z) (shift : bool) (acc : jsarray * bool)
  : jsarray * bool :=
  if negb shift && slot_is_null (get (fst acc) index)
  then (set (fst acc) index (Char blank), true)
  else acc.

(** The updater that [handleSelect] gives to [setFont]. *)
Definition select_font (index : Z) (shift : bool) (prevSelected : list Z)
    (prevFont : Font) : Font :=
  let newCharacters := spread (characters prevFont) in
  let acc := fold_left (revert_empty index) prevSelected (newCharacters, false) in
  let acc := auto_create index shift acc in
  if snd acc then mkFont (font_name prevFont) (fst acc) else prevFont.

(** The updater that [handleSelect] gives to [setSelection]. *)
Definition select_selection (index : Z) (shift ctrl : bool) (prev : Selection)
  : Selection :=
  if shift then
    mkSelection (anchor prev) (createSelectionRange (anchor prev) index)
  else if ctrl then
    let newSelected := selected prev in
    if has newSelected index then
      let newSelected := delete newSelected index in
      if index =? anchor prev then
        match newSelected with
        | first :: _ => mkSelection first newSelected
        | [] => mkSelection index [index]
        end
      else mkSelection index newSelected
    else mkSelection index (add newSelected index)
  else mkSelection index [index].

(** [handleSelect(index, { shift, ctrl })] *)
Definition handleSelect (index : Z) (shift ctrl : bool) (s : State) : State :=
  mkState (select_font index shift (selected (selection s)) (font s))
          (select_selection index shift ctrl (selection s))
          (clipboard s).

(** ** Editing the character at the anchor *)

(** [handleUpdateCharacter(character)] *)
Definition handleUpdateCharacter (character : Character) (s : State) : State :=
  let prev := font s in
  let newCharacters := spread (characters prev) in
  let newCharacters := set newCharacters (anchor (selection s)) (Char character) in
  mkState (mkFont (font_name prev) newCharacters) (selection s) (clipboard s).

(** [{ ...x, segments: seg }] *)
Definition with_segments (x : slot) (seg : value) : Character :=
  match x with
  | Char c => mkChar seg (name c)
  | Null | Undefined => mkChar seg VUndefined
  end.

(** [handleCopyFrom(fromIndex)] *)
Definition handleCopyFrom (fromIndex : Z) (s : State) : State :=
  let prev := font s in
  match get (characters prev) fromIndex with
  | Char sourceChar =>
      let newCharacters := spread (characters prev) in
      let a := anchor (selection s) in
      let newCharacters :=
        set newCharacters a
          (Char (with_segments (get newCharacters a) (segments sourceChar))) in
      mkState (mkFont (font_name prev) newCharacters) (selection s) (clipboard s)
  | Null | Undefined => s
  end.

(** ** Moving and copying by drag and drop *)

Record Move : Type := mkMove { src : Z; dst : Z }.

(** [d < 0 || d >= 256] *)
Definition out_of_bounds (d : Z) : bool := (d <? 0) || (d >=? 256).

(** [Math.max(0, Math.min(255, a))] *)
Definition clamp (a : Z) : Z := Z.max 0 (Z.min 255 a).

(** [selectedIndices.map((srcIdx) => ({ src: srcIdx, dst: srcIdx + offset }))] *)
Definition plan (selectedIndices : list Z) (offset : Z) : list Move :=
  map (fun srcIdx => mkMove srcIdx (srcIdx + offset)) selectedIndices.

(** The first loop of the updater of [handleReorder]: clear the sources. *)
Definition clearSources (moves : list Move) (newCharacters : jsarray) : jsarray :=
  let dstSet := set_of_list (map dst moves) in
  fold_left
    (fun nc m => if negb (has dstSet (src m)) then set nc (src m) Null else nc)
    moves newCharacters.

(** The second loop: place the moved characters. *)
Definition placeMoved (movedChars : list (Z * slot)) (newCharacters : jsarray)
  : jsarray :=
  fold_left (fun nc mc => set nc (fst mc) (snd mc)) movedChars newCharacters.

(** The updater that [handleReorder] gives to [setFont]. *)
Definition reorder_font (moves : list Move) (prev : Font) : Font :=
  let newCharacters := spread (characters prev) in
  let movedChars := map (fun m => (dst m, get (characters prev) (src m))) moves in
  let newCharacters := clearSources moves newCharacters in
  let newCharacters := placeMoved movedChars newCharacters in
  mkFont (font_name prev) newCharacters.

(** [handleReorder(fromIndex, toIndex)] *)
Definition handleReorder (fromIndex toIndex : Z) (s : State) : State :=
  if fromIndex =? toIndex then s
  else if out_of_bounds toIndex then s
  else
    let selectedIndices := sort_num (selected (selection s)) in
    let offset := toIndex - fromIndex in
    let moves := plan selectedIndices offset in
    if existsb (fun m => out_of_bounds (dst m)) moves then s
    else
      let newSelected := set_of_list (map dst moves) in
      let newAnchor := anchor (selection s) + offset in
      mkState (reorder_font moves (font s))
              (mkSelection (clamp newAnchor) newSelected)
              (clipboard s).

(** The character that a copy or a paste creates from [c]:
    [{ segments: c.segments, name: c.name ? `${c.name}_copy` : null }] *)
Definition copy_of (c : Character) : Character :=
  mkChar (segments c)
         (if truthy (name c)
          then VStr (to_string (name c) ++ "_copy")
          else VNull).

(** The updater that [handleCopyCharacter] gives to [setFont]. *)
Definition copy_font (copies : list Move) (prev : Font) : Font :=
  let newCharacters := spread (characters prev) in
  let newCharacters :=
    fold_left
      (fun nc m =>
         match get (characters prev) (src m) with
         | Char sourceChar => set nc (dst m) (Char (copy_of sourceChar))
         | Null | Undefined => nc
         end)
      copies newCharacters in
  mkFont (font_name prev) newCharacters.

(** [handleCopyCharacter(fromIndex, toIndex)] *)
Definition handleCopyCharacter (fromIndex toIndex : Z) (s : State) : State :=
  if fromIndex =? toIndex then s
  else if out_of_bounds toIndex then s
  else
    let selectedIndices := sort_num (selected (selection s)) in
    let offset := toIndex - fromIndex in
    let copies := plan selectedIndices offset in
    if existsb (fun c => out_of_bounds (dst c)) copies then s
    else
      let newSelected := set_of_list (map dst copies) in
      let newAnchor := anchor (selection s) + offset in
      mkState (copy_font copies (font s))
              (mkSelection (clamp newAnchor) newSelected)
              (clipboard s).

(** ** Clipboard *)

(** The [characters] list that [handleCopySelection] computes. *)
Definition snapshot (s : State) : list ClipItem :=
  let selectedIndices := sort_num (selected (selection s)) in
  filter (fun item => negb (slot_is_null (char item)))
    (map (fun idx => mkClipItem (idx - anchor (selection s))
                                (get (characters (font s)) idx))
         selectedIndices).

(** [handleCopySelection()] *)
Definition handleCopySelection (s : State) : State :=
  let characters := snapshot s in
  if (0 <? Z.of_nat (length characters))
  then mkState (font s) (selection s) (Some characters)
  else s.

(** [clipboard.characters.map((item) => ({ dst: anchor + item.offset, char: item.char }))] *)
Definition pastes_of (a : Z) (items : list ClipItem) : list (Z * slot) :=
  map (fun item => (a + offset item, char item)) items.

(** The loop of the updater of [handlePaste]; reading [char.segments] throws
    when [char] is [null] or [undefined]. *)
Fixpoint paste_loop (pastes : list (Z * slot)) (newCharacters : jsarray)
  : option jsarray :=
  match pastes with
  | [] => Some newCharacters
  | (d, Char c) :: rest => paste_loop rest (set newCharacters d (Char (copy_of c)))
  | (_, Null) :: _ | (_, Undefined) :: _ => None
  end.

(** [handlePaste()] *)
Definition handlePaste (s : State) : outcome :=
  match clipboard s with
  | None => Ok s
  | Some items =>
      if Z.of_nat (length items) =? 0 then Ok s
      else
        let a := anchor (selection s) in
        let pastes := pastes_of a items in
        if existsb (fun p => out_of_bounds (fst p)) pastes then Ok s
        else
          match paste_loop pastes (spread (characters (font s))) with
          | Some newCharacters =>
              let newSelected := set_of_list (map fst pastes) in
              Ok (mkState (mkFont (font_name (font s)) newCharacters)
                          (mkSelection a newSelected)
                          (clipboard s))
          | None => TypeError
          end
  end.

(** The updater of [handleResetSelection]. *)
Definition reset_font (sel : list Z) (prev : Font) : Font :=
  let newCharacters := spread (characters prev) in
  let newCharacters :=
    fold_left
      (fun nc idx =>
         match get nc idx with
         | Char c => set nc idx (Char (mkChar (VNum 0) (name c)))
         | Null | Undefined => nc
         end)
      sel newCharacters in
  mkFont (font_name prev) newCharacters.

(** [handleResetSelection()] *)
Definition handleResetSelection (s : State) : State :=
  mkState (reset_font (selected (selection s)) (font s)) (selection s) (clipboard s).

(** ** Keyboard *)

Record KeyEvent : Type := mkKey {
  ctrlKey : bool;
  metaKey : bool;
  shiftKey : bool;
  key : string
}.

Definition is_arrow (k : string) : bool :=
  existsb (String.eqb k) ["ArrowUp"; "ArrowDown"; "ArrowLeft"; "ArrowRight"]%string.

(** The [switch] of [handleKeyDown]: the candidate next anchor. *)
Definition next_index (k : string) (current : Z) : Z :=
  if (k =? "ArrowUp")%string then
    if current >=? 16 then current - 16 else current
  else if (k =? "ArrowDown")%string then
    if current <? 240 then current + 16 else current
  else if (k =? "ArrowLeft")%string then
    if current >? 0 then current - 1 else current
  else if (k =? "ArrowRight")%string then
    if current <? 255 then current + 1 else current
  else current.

(** [handleKeyDown(e)] *)
Definition handleKeyDown (e : KeyEvent) (s : State) : outcome :=
  if (ctrlKey e || metaKey e) && (key e =? "c")%string then
    Ok (handleCopySelection s)
  else if (ctrlKey e || metaKey e) && (key e =? "v")%string then
    handlePaste s
  else if (key e =? "Delete")%string || (key e =? "Backspace")%string then
    Ok (handleResetSelection s)
  else if is_arrow (key e) then
    let current := anchor (selection s) in
    let next := next_index (key e) current in
    if negb (next =? current)
    then Ok (handleSelect next (shiftKey e) false s)
    else Ok s
  else Ok s.

(** ** Events *)

(** What the grid, the editor panel and the toolbar can ask of [App]. *)
Inductive Event : Type :=
| Click (index : Z) (shift ctrl : bool)
| KeyDown (e : KeyEvent)
| Reorder (fromIndex toIndex : Z)
| CopyCharacter (fromIndex toIndex : Z)
| UpdateCharacter (character : Character)
| CopyFrom (fromIndex : Z)
| FontNameChange (name : value)
| NewFont (confirmed : bool)
| LoadFont (data : value).

(** The call of the handler of an event, and no more: [TypeError] is a
    throw inside the handler or the updaters it queues.  The render that
    follows the state change is another step, which can throw where the
    handler did not: [rendered_segments] below is the read of the editor
    panel that fails when the slot of the anchor holds no character. *)
Definition dispatch (ev : Event) (s : State) : outcome :=
  match ev with
  | Click index shift ctrl => Ok (handleSelect index shift ctrl s)
  | KeyDown e => handleKeyDown e s
  | Reorder fromIndex toIndex => Ok (handleReorder fromIndex toIndex s)
  | CopyCharacter fromIndex toIndex => Ok (handleCopyCharacter fromIndex toIndex s)
  | UpdateCharacter character => Ok (handleUpdateCharacter character s)
  | CopyFrom fromIndex => Ok (handleCopyFrom fromIndex s)
  | FontNameChange name => Ok (handleFontNameChange name s)
  | NewFont confirmed => Ok (handleNewFont confirmed s)
  | LoadFont data => handleLoadFont data s
  end.


(** The indices that an event carries lie in the grid. *)
Definition in_grid (i : Z) : Prop := 0 <= i < 256.

Definition event_in_grid (ev : Event) : Prop :=
  match ev with
  | Click index _ _ => in_grid index
  | Reorder fromIndex toIndex | CopyCharacter fromIndex toIndex =>
      in_grid fromIndex /\ in_grid toIndex
  | CopyFrom fromIndex => in_grid fromIndex
  | _ => True
  end.

(** The states that the editor reaches from its initial state. *)
Inductive reachable : State -> Prop :=
| reachable_init : reachable initial_state
| reachable_step s ev s' :
    reachable s -> event_in_grid ev -> dispatch ev s = Ok s' -> reachable s'.

(** ** Vocabulary of the properties *)

(** The three operations that compute destinations and reject the gesture
    when one of them leaves the grid. *)
Inductive Gesture : Type :=
| MoveDrag (fromIndex toIndex : Z)
| CopyDrag (fromIndex toIndex : Z)
| PasteClipboard.

Definition perform (g : Gesture) (s : State) : outcome :=
  match g with
  | MoveDrag fromIndex toIndex => Ok (handleReorder fromIndex toIndex s)
  | CopyDrag fromIndex toIndex => Ok (handleCopyCharacter fromIndex toIndex s)
  | PasteClipboard => handlePaste s
  end.

(** The destinations that the handler of [g] computes in state [s]. *)
Definition destinations (g : Gesture) (s : State) : list Z :=
  match g with
  | MoveDrag fromIndex toIndex | CopyDrag fromIndex toIndex =>
      map dst (plan (sort_num (selected (selection s))) (toIndex - fromIndex))
  | PasteClipboard =>
      match clipboard s with
      | Some items => map fst (pastes_of (anchor (selection s)) items)
      | None => []
      end
  end.

(** The slot that the description of select-with-document-coupling gives
    to index [i]: an empty-content slot of the previous selection other than
    the clicked one becomes absent; then, without shift, an absent clicked
    slot becomes a blank character; every other slot is kept. *)
Definition coupled_slot (index : Z) (shift : bool) (prevSelected : list Z)
    (table : jsarray) (i : Z) : slot :=
  let cleaned :=
    match get table i with
    | Char c =>
        if negb (i =? index) && has prevSelected i && is_empty_content c
        then Null else Char c
    | x => x
    end in
  if (i =? index) && negb shift && slot_is_null cleaned
  then Char blank
  else cleaned.


(** The reading of arrow-key navigation under which it selects without
    touching the document: whatever state an arrow key leads to has the
    table it started from. *)
Definition arrow_keys_keep_table : Prop :=
  forall (e : KeyEvent) (s s' : State),
    is_arrow (key e) = true ->
    handleKeyDown e s = Ok s' ->
    characters (font s') = characters (font s).


(** The entry of [data.characters] at position [idx] is kept by the load. *)
Definition kept_entry (data : value) (idx : nat) (entry : value) : Prop :=
  exists items,
    get_field "characters" data = Some (VArr items)
    /\ nth_error items idx = Some entry
    /\ (idx < 256)%nat
    /\ entry <> VNull.

(** The reading of the load under which segments are validated: a kept
    entry whose [segments] field is missing or is not a number gets
    segments 0, a missing [name] becomes [null], and so the segments of
    every loaded character are a number. *)
Definition load_validates_segments : Prop :=
  forall (data : value) (f : Font) (idx : nat) (entry sg nm : value),
    load_font data = Some f ->
    kept_entry data idx entry ->
    get_field "segments" entry = Some sg ->
    get_field "name" entry = Some nm ->
    exists c,
      get (characters f) (Z.of_nat idx) = Char c
      /\ (is_number sg = false -> segments c = VNum 0)
      /\ (nm = VUndefined -> name c = VNull)
      /\ is_number (segments c) = true.


(** A state with two named characters, in slots 2 and 3, both selected, and
    the clicks and edits that lead to it. *)
Definition glyph_A : Character := mkChar (VNum 5) (VStr "A").
Definition glyph_B : Character := mkChar (VNum 9) (VStr "B").

Definition two_glyphs : State :=
  handleSelect 3 true false
    (handleSelect 2 false false
       (handleUpdateCharacter glyph_B
          (handleSelect 3 false false
             (handleUpdateCharacter glyph_A
                (handleSelect 2 false false initial_state))))).

(** The reading of the clearing step of a move by the destination of each
    source: the loop makes absent exactly the selected slots whose own
    destination (source + offset) is not a selected slot, and leaves every
    other slot as it was. *)
Definition move_clears_by_destination : Prop :=
  forall (s : State) (fromIndex toIndex : Z),
    selected (selection s) <> [] ->
    fromIndex <> toIndex ->
    (forall d, In d (destinations (MoveDrag fromIndex toIndex) s) -> in_grid d) ->
    let off := toIndex - fromIndex in
    let sel := selected (selection s) in
    forall i,
      get (clearSources (plan (sort_num sel) off) (spread (characters (font s)))) i
      = if has sel i && negb (has sel (i + off))
        then Null
        else get (spread (characters (font s))) i.


(** What the paste loop writes for a clipboard character. *)
Definition pasted (x : slot) : slot :=
  match x with
  | Char c => Char (copy_of c)
  | Null => Null
  | Undefined => Undefined
  end.

(** Characters in slots 4 and 6, selected with anchor 4: a click at 6, an
    edit, a ctrl-click at 4 and an edit. *)
Definition glyphs_4_6 : State :=
  handleUpdateCharacter glyph_A
    (handleSelect 4 false true
       (handleUpdateCharacter glyph_B
          (handleSelect 6 false false initial_state))).


(** What every reachable state satisfies: the table has 256 elements, and
    the anchor and the selected indices lie in the grid. *)
Definition grid_state (s : State) : Prop :=
  array_length (characters (font s)) = 256
  /\ in_grid (anchor (selection s))
  /\ (forall x, In x (selected (selection s)) -> in_grid x).


(** The anchor is one of the selected indices. *)
Definition anchor_selected (sel : Selection) : Prop :=
  In (anchor sel) (selected sel).

(** Slots 3 and 5 selected one after the other, with the anchor on 5: a
    click at 3 and a ctrl-click at 5. *)
Definition picked_3_then_5 : State :=
  handleSelect 5 false true (handleSelect 3 false false initial_state).

Definition ctrl_c : KeyEvent := mkKey true false false "c".
Definition ctrl_v : KeyEvent := mkKey true false false "v".

(** Characters in slots 6 and 7 and none in slot 5, the three selected with
    the anchor on 5: two clicks with an edit each, a click at 5 and a
    shift-click at 7, which reverts the blank character of slot 5. *)
Definition range_5_7 : State :=
  handleSelect 7 true false
    (handleSelect 5 false false
       (handleUpdateCharacter glyph_B
          (handleSelect 7 false false
             (handleUpdateCharacter glyph_A
                (handleSelect 6 false false initial_state))))).


(** Characters in slots 0 and 1, both selected, with the anchor on 0: an
    edit of slot 0, a click at 1 with an edit, and a ctrl-click at 0. *)
Definition glyphs_0_1 : State :=
  handleSelect 0 false true
    (handleUpdateCharacter glyph_B
       (handleSelect 1 false false
          (handleUpdateCharacter glyph_A initial_state))).

(** The round trip with no more than its proviso: whenever no destination
    of the first move is a slot of the grid outside the selection, the move
    followed by the reverse move restores every slot that was selected. *)
Definition round_trip_under_proviso : Prop :=
  forall (s : State) (fromIndex toIndex : Z),
    in_grid fromIndex -> in_grid toIndex ->
    selected (selection s) <> [] ->
    (forall x, In x (selected (selection s)) -> in_grid x) ->
    (forall d, In d (destinations (MoveDrag fromIndex toIndex) s) ->
               in_grid d -> In d (selected (selection s))) ->
    forall i, In i (selected (selection s)) ->
      get (characters (font (handleReorder toIndex fromIndex
                               (handleReorder fromIndex toIndex s)))) i
      = get (characters (font s)) i.

(** The clipboard of [glyphs_4_6] with the anchor moved to 254 by a click:
    the stored offsets 0 and 2 lead to 254 and 256. *)
Definition clipboard_at_254 : State :=
  handleSelect 254 false false (handleCopySelection glyphs_4_6).

(** The paste with no condition on the anchor: whatever the state, a paste
    of a clipboard of characters selects exactly the destinations
    [anchor + offset], keeps the anchor and leaves at each destination a
    character with the stored segments. *)
Definition paste_writes_wherever_the_anchor_is : Prop :=
  forall (s : State) (items : list ClipItem),
    clipboard s = Some items -> items <> [] ->
    (forall item, In item items -> slot_truthy (char item) = true) ->
    exists s',
      handlePaste s = Ok s'
      /\ anchor (selection s') = anchor (selection s)
      /\ (forall d, In d (selected (selection s'))
                    <-> exists item, In item items
                                     /\ d = anchor (selection s) + offset item)
      /\ (forall item c, In item items -> char item = Char c ->
            exists c',
              get (characters (font s')) (anchor (selection s) + offset item)
              = Char c'
              /\ segments c' = segments c).


(** ** Vocabulary of the further properties *)

(** No entry of [data.characters] is kept for slot [i]: the array, if there
    is one, is too short or holds [null] there. *)
Definition no_kept_entry (data : value) (i : Z) : Prop :=
  forall items entry,
    get_field "characters" data = Some (VArr items) ->
    nth_error items (Z.to_nat i) = Some entry ->
    entry = VNull.

(** The table is a plain array of 256 slots, each [null] or a character,
    the selection lies in the grid, and the clipboard holds characters. *)
Definition well_formed (s : State) : Prop :=
  grid_state s
  /\ props (characters (font s)) = []
  /\ (forall i, in_grid i -> get (characters (font s)) i <> Undefined)
  /\ (forall items item,
        clipboard s = Some items -> In item items ->
        slot_truthy (char item) = true).


(** A plain array whose slots in the grid are [null] or characters. *)
Definition table_ok (a : jsarray) : Prop :=
  props a = [] /\ forall i, in_grid i -> get a i <> Undefined.


(** ** The grid component ([FontGrid]) *)

Module FontGrid.

(** The state of the component: [dragIndex], [dropIndex], [isCopying]. *)
Record Grid : Type := mkGrid {
  dragIndex : option Z;
  dropIndex : option Z;
  isCopying : bool
}.

Definition initial : Grid := mkGrid None None false.

(** [handleDragStart(e, index)], with [copyKey] for [e.ctrlKey || e.metaKey].
    The first component tells whether the drag starts: it is [false] after
    [e.preventDefault()].  [onSelect(index)] is [handleSelect] with both
    modifiers at their default, [false]. *)
Definition handleDragStart (copyKey : bool) (index : Z) (gs : Grid * State)
  : bool * (Grid * State) :=
  let g := fst gs in
  let s := snd gs in
  if slot_is_null (get (characters (font s)) index) then (false, gs)
  else
    let s := if negb (has (selected (selection s)) index)
             then handleSelect index false false s
             else s in
    (true, (mkGrid (Some index) (dropIndex g) copyKey, s)).

(** [handleDragOver(e, index)] *)
Definition handleDragOver (index : Z) (g : Grid) : Grid :=
  match dragIndex g with
  | Some d => if negb (index =? d)
              then mkGrid (dragIndex g) (Some index) (isCopying g)
              else g
  | None => g
  end.

(** [handleDragLeave()] *)
Definition handleDragLeave (g : Grid) : Grid :=
  mkGrid (dragIndex g) None (isCopying g).

(** [handleDrop(e, index)], with [copyKey] for [e.ctrlKey || e.metaKey]. *)
Definition handleDrop (copyKey : bool) (index : Z) (gs : Grid * State)
  : Grid * State :=
  let g := fst gs in
  let s := snd gs in
  let s :=
    match dragIndex g with
    | Some d =>
        if negb (d =? index) then
          if isCopying g || copyKey
          then handleCopyCharacter d index s
          else handleReorder d index s
        else s
    | None => s
    end in
  (mkGrid None None false, s).

(** [handleDragEnd()] *)
Definition handleDragEnd (g : Grid) : Grid := mkGrid None None false.

(** [handleKeyDown(e)]: the grid notes the copy key and forwards the event
    to the handler of [App]. *)
Definition handleKeyDown (e : KeyEvent) (gs : Grid * State) : Grid * outcome :=
  let g := fst gs in
  let g := if (key e =? "Control")%string || (key e =? "Meta")%string
           then mkGrid (dragIndex g) (dropIndex g) true
           else g in
  (g, handleKeyDown e (snd gs)).

(** [handleKeyUp(e)] *)
Definition handleKeyUp (e : KeyEvent) (g : Grid) : Grid :=
  if (key e =? "Control")%string || (key e =? "Meta")%string
  then mkGrid (dragIndex g) (dropIndex g) false
  else g.

End FontGrid.


(** The state [glyphs_4_6] after a plain click at 4: slot 6 holds a
    character and is not selected. *)
Definition glyphs_4_6_deselected : State := handleSelect 4 false false glyphs_4_6.


(** ** Segments ([SegmentDisplay]) and the editor panel ([CharacterEditor]) *)

(** [ToInt32] of an integer. *)
Definition wrap_int32 (n : Z) : Z := (n + 2147483648) mod 4294967296 - 2147483648.

Section Bitwise.

(** [ToInt32] of the number that a string converts to.  The conversion of
    strings to numbers is not modelled; the definitions below take it as
    this function. *)
Variable string_to_int32 : string -> Z.

(** [ToInt32(v)], the conversion that [^] and [&] apply to an operand. *)
Definition to_int32 (v : value) : Z :=
  match v with
  | VNum n => wrap_int32 n
  | VBool true => 1
  | VBool false => 0
  | VUndefined | VNull => 0
  | VStr s => string_to_int32 s
  | VArr _ | VObj _ => string_to_int32 (to_string v)
  end.

End Bitwise.

Module SegmentDisplay.

(** [SEGMENTS] *)
Definition SEGMENTS : list (string * value) :=
  [ ("a", VNum 1); ("b", VNum 2); ("c", VNum 4); ("d", VNum 8);
    ("e", VNum 16); ("f", VNum 32); ("g1", VNum 64); ("g2", VNum 128);
    ("h", VNum 256); ("j", VNum 512); ("k", VNum 1024); ("l", VNum 2048);
    ("m", VNum 4096); ("n", VNum 8192); ("dp", VNum 16384) ]%string.

(** [SEGMENT_NAMES = Object.keys(SEGMENTS)] *)
Definition SEGMENT_NAMES : list string := map fst SEGMENTS.

(** [SEGMENTS[segment]], for a name that is not a member of
    [Object.prototype]. *)
Definition segment_bit (segment : string) : value := lookup_field segment SEGMENTS.

(** [isLit(segment)] for the [value] that the component is given:
    [(value & SEGMENTS[segment]) !== 0]. *)
Definition isLit (string_to_int32 : string -> Z) (value : value)
    (segment : string) : bool :=
  negb (Z.land (to_int32 string_to_int32 value)
               (to_int32 string_to_int32 (segment_bit segment)) =? 0).

End SegmentDisplay.

Module CharacterEditor.

(** [handleSegmentClick(segment)]; [character] is
    [font.characters[selection.anchor]] and [onUpdate] is
    [handleUpdateCharacter]. *)
Definition handleSegmentClick (string_to_int32 : string -> Z)
    (segment : string) (s : State) : State :=
  match get (characters (font s)) (anchor (selection s)) with
  | Char character =>
      let newSegments :=
        Z.lxor (to_int32 string_to_int32 (segments character))
               (to_int32 string_to_int32 (SegmentDisplay.segment_bit segment)) in
      handleUpdateCharacter (mkChar (VNum newSegments) (name character)) s
  | Null | Undefined => s
  end.

(** [handleNameChange(e)], with [text] for [e.target.value]. *)
Definition handleNameChange (text : string) (s : State) : State :=
  match get (characters (font s)) (anchor (selection s)) with
  | Char character =>
      handleUpdateCharacter
        (mkChar (segments character) (or_else (VStr text) VNull)) s
  | Null | Undefined => s
  end.

End CharacterEditor.


(** ** Text helpers of the export dialog, the editor and the toolbar *)

Fixpoint map_string (f : ascii -> ascii) (s : string) : string :=
  match s with
  | EmptyString => EmptyString
  | String c rest => String (f c) (map_string f rest)
  end.

Fixpoint forallb_string (p : ascii -> bool) (s : string) : bool :=
  match s with
  | EmptyString => true
  | String c rest => p c && forallb_string p rest
  end.

Definition is_digit (c : ascii) : bool :=
  let n := nat_of_ascii c in (48 <=? n)%nat && (n <=? 57)%nat.

Definition is_lower (c : ascii) : bool :=
  let n := nat_of_ascii c in (97 <=? n)%nat && (n <=? 122)%nat.

Definition is_upper (c : ascii) : bool :=
  let n := nat_of_ascii c in (65 <=? n)%nat && (n <=? 90)%nat.

(** [s.toUpperCase()] and [s.toLowerCase()] on the ASCII letters; the code
    applies them to hexadecimal numerals and to sanitized names, which hold
    ASCII characters only. *)
Definition toUpperCase (s : string) : string :=
  map_string (fun c => if is_lower c then ascii_of_nat (nat_of_ascii c - 32) else c) s.

Definition toLowerCase (s : string) : string :=
  map_string (fun c => if is_upper c then ascii_of_nat (nat_of_ascii c + 32) else c) s.

Fixpoint repeat_char (c : ascii) (n : nat) : string :=
  match n with
  | O => EmptyString
  | S n' => String c (repeat_char c n')
  end.

(** [s.padStart(width, pad)] for a pad of one character. *)
Definition padStart (width : nat) (pad : ascii) (s : string) : string :=
  (repeat_char pad (width - String.length s) ++ s)%string.

(** The character of a digit, as [Number.prototype.toString] writes it. *)
Definition digit_char (d : Z) : ascii :=
  match String.get (Z.to_nat d) "0123456789abcdefghijklmnopqrstuvwxyz" with
  | Some c => c
  | None => "0"%char
  end.

(** The digits of [n] in base [radix], most significant first, before
    [acc]; [fuel] bounds their number. *)
Fixpoint digits_of (radix : Z) (fuel : nat) (n : Z) (acc : string) : string :=
  match fuel with
  | O => acc
  | S fuel' =>
      let acc' := String (digit_char (n mod radix)) acc in
      if n <? radix then acc' else digits_of radix fuel' (n / radix) acc'
  end.

(** [n.toString(radix)] for an integer [n]: a minus sign for a negative
    number, then the digits of its magnitude, which has at most
    [log2 |n| + 1] of them. *)
Definition toStringRadix (radix n : Z) : string :=
  let m := Z.abs n in
  let ds := digits_of radix (S (Z.to_nat (Z.log2 m))) m EmptyString in
  if n <? 0 then String "-" ds else ds.

(** [n.toString(2)] and [n.toString(16)] *)
Definition toString2 (n : Z) : string := toStringRadix 2 n.
Definition toString16 (n : Z) : string := toStringRadix 16 n.

(** [font.name.replace(/[^a-z0-9]/gi, '_')], the name that the saved and the
    exported file get and that the export context derives its names from;
    [None] when [font.name] is not a string and has no [replace] method. *)
Definition safe_name (name : value) : option string :=
  match name with
  | VStr s =>
      Some (map_string
              (fun c => if is_lower c || is_upper c || is_digit c then c else "_"%char)
              s)
  | _ => None
  end.

Module CharacterEditorText.

(** [formatBinary(value)] for a number. *)
Definition formatBinary (value : Z) : string := padStart 15 "0" (toString2 value).

(** [formatHex(value)] for a number. *)
Definition formatHex (value : Z) : string :=
  ("0x" ++ padStart 4 "0" (toUpperCase (toString16 value)))%string.

End CharacterEditorText.

Module ExportDialog.

(** The [bin] helper, for a number or a missing value ([value ?? 0]). *)
Definition bin (value : option Z) : string :=
  let num := match value with Some n => n | None => 0 end in
  padStart 15 "0" (toString2 num).

(** The [hex] helper, for a number or a missing value. *)
Definition hex (value : option Z) : string :=
  let num := match value with Some n => n | None => 0 end in
  padStart 4 "0" (toUpperCase (toString16 num)).

(** [`CHAR_${index.toString(16).toUpperCase().padStart(2, '0')}`] *)
Definition default_name (index : Z) : string :=
  ("CHAR_" ++ padStart 2 "0" (toUpperCase (toString16 index)))%string.

(** An element of [context.characters]. *)
Record Entry : Type := mkEntry {
  entry_index : Z;
  defined : bool;
  entry_segments : value;
  entry_name : value
}.

(** [v ?? d] *)
Definition nullish_else (v d : value) : value :=
  match v with
  | VUndefined | VNull => d
  | _ => v
  end.

(** The callback of [font.characters.map] in the export context:
    [{ index, defined: char !== null, segments: char?.segments ?? 0,
       name: char?.name || `CHAR_..` }]. *)
Definition entry (char : slot) (index : Z) : Entry :=
  let field (get_field : Character -> value) : value :=
    match char with
    | Char c => get_field c
    | Null | Undefined => VUndefined
    end in
  mkEntry index
          (negb (slot_is_null char))
          (nullish_else (field segments) (VNum 0))
          (or_else (field name) (VStr (default_name index))).

End ExportDialog.


(** Reading a numeral back: the value of a digit, in either case, and of a
    string of digits in base [radix] after the value [acc]. *)
Definition digit_value (c : ascii) : option Z :=
  let n := Z.of_nat (nat_of_ascii c) in
  if is_digit c then Some (n - 48)
  else if is_lower c then Some (n - 87)
  else if is_upper c then Some (n - 55)
  else None.

Fixpoint value_from (radix acc : Z) (s : string) : option Z :=
  match s with
  | EmptyString => Some acc
  | String c rest =>
      match digit_value c with
      | Some d => if d <? radix then value_from radix (radix * acc + d) rest else None
      | None => None
      end
  end.

Definition parse_radix (radix : Z) (s : string) : option Z := value_from radix 0 s.


(** The map of [toUpperCase] on one character, and the shape of an
    upper-case hexadecimal digit. *)
Definition upper_char (c : ascii) : ascii :=
  if is_lower c then ascii_of_nat (nat_of_ascii c - 32) else c.

Definition is_upper_hex (c : ascii) : bool := is_digit c || is_upper c.

(** The characters that a sanitized name is made of. *)
Definition is_name_char (c : ascii) : bool :=
  is_lower c || is_upper c || is_digit c || (c =? "_")%char.

(** ** Saving *)

(** [JSON.parse(JSON.stringify(v))] for a value that is not [undefined]:
    a property whose value is [undefined] is left out of its object, and an
    element that is [undefined] becomes [null] in its array. *)
#[warnings="-register-all"]
Fixpoint json_copy (v : value) : value :=
  match v with
  | VArr items =>
      VArr (map (fun x => match x with
                          | VUndefined => VNull
                          | _ => json_copy x
                          end) items)
  | VObj fields =>
      VObj ((fix copy_fields (fs : list (string * value)) :=
               match fs with
               | [] => []
               | (k, VUndefined) :: rest => copy_fields rest
               | (k, x) :: rest => (k, json_copy x) :: copy_fields rest
               end) fields)
  | _ => v
  end.

(** The font as a value: the object that [JSON.stringify] is given.  A hole
    of the table reads [undefined]; the properties of the array that are not
    elements are not written. *)
Definition slot_value (x : slot) : value :=
  match x with
  | Char c => VObj [("segments"%string, segments c); ("name"%string, name c)]
  | Null => VNull
  | Undefined => VUndefined
  end.

Definition font_value (f : Font) : value :=
  VObj [("name"%string, font_name f);
        ("characters"%string, VArr (map slot_value (elems (characters f))))].

(** The value that [JSON.parse] gives back for the text
    [JSON.stringify(font, null, 2)] that [handleSaveFont] writes: what the
    toolbar hands to [handleLoadFont] when the saved file is loaded. *)
Definition saved_data (f : Font) : value := json_copy (font_value f).

(** What a slot of [font.characters] is in the saved data. *)
Definition saved_slot (x : slot) : value :=
  match x with
  | Char c => json_copy (slot_value x)
  | Null | Undefined => VNull
  end.

(** The name of the saved file: [`${font.name.replace(..)}.json`]. *)
Definition saved_file_name (f : Font) : option string :=
  match safe_name (font_name f) with
  | Some n => Some (n ++ ".json")%string
  | None => None
  end.

(** What loading a saved file makes of a slot: the fields of a character
    after the round trip through JSON and the defaults of the load. *)
Definition reloaded_slot (i : Z) (x : slot) : slot :=
  match x with
  | Char c =>
      Char (mkChar (or_else (json_copy (segments c)) (VNum 0))
                   (or_else (json_copy (name c)) VNull))
  | Null | Undefined => if i =? 0 then Char blank else Null
  end.

(** An ordinary character: its segments are a number and its name is
    [null] or a non-empty string. *)
Definition ordinary (c : Character) : Prop :=
  (exists n, segments c = VNum n)
  /\ (name c = VNull \/ exists s, name c = VStr s /\ s <> ""%string).

(** The state after slot 0 of [two_glyphs] is clicked and given a shape. *)
Definition three_glyphs : State :=
  handleUpdateCharacter (mkChar (VNum 64) VNull)
    (handleSelect 0 false false two_glyphs).

(** * Properties *)

(** ** Numbers in names *)

(** A number is printed in full below 2^53. *)
Lemma to_string_small (n : Z) :
  0 <= n < 2 ^ 53 -> to_string (VNum n) = decimal n.
Proof.
  intros Hn. cbn [to_string]. unfold number_to_string, nearest_double.
  rewrite Z.abs_eq by lia.
  destruct (Z.ltb_spec n (2 ^ 53)) as [_|H]; [|lia].
  destruct (Z.ltb_spec n 0) as [H|_]; [lia|].
  destruct (Z.ltb_spec n (2 ^ 53)) as [_|H]; [reflexivity | lia].
Qed.

(** From there it is printed with the digits that [Number::toString]
    gives: 2^60, 10^21, 10^21 + 1 (which is not a Number: the nearest one
    is 10^21), 2^70 and 10^23. *)
Example to_string_large :
  to_string (VNum (2 ^ 60)) = "1152921504606847000"%string
  /\ to_string (VNum (10 ^ 21)) = "1e+21"%string
  /\ to_string (VNum (10 ^ 21 + 1)) = "1e+21"%string
  /\ to_string (VNum (2 ^ 70)) = "1.1805916207174113e+21"%string
  /\ to_string (VNum (10 ^ 23)) = "1e+23"%string
  /\ to_string (VNum (- (2 ^ 64))) = "-18446744073709552000"%string.
Proof. vm_compute. repeat split. Qed.

(** ** Arrays *)

Lemma nth_list_set (n m : nat) (x : slot) (l : list slot) :
  nth m (list_set n x l) Undefined
  = if (n =? m)%nat then x else nth m l Undefined.
Proof.
  revert m l. induction n as [|n IH]; intros m l.
  - destruct l, m; simpl; try reflexivity; now destruct m.
  - destruct l as [|y l], m as [|m]; simpl; try reflexivity.
    + rewrite IH. destruct (n =? m)%nat; [reflexivity | now destruct m].
    + apply IH.
Qed.

Lemma length_list_set (n : nat) (x : slot) (l : list slot) :
  length (list_set n x l) = Nat.max (length l) (S n).
Proof.
  revert l. induction n as [|n IH]; intros [|y l]; simpl; try reflexivity.
  - now rewrite Nat.max_comm.
  - now rewrite IH.
  - now rewrite IH.
Qed.

Lemma lookup_prop_cons (i j : Z) (x : slot) (ps : list (Z * slot)) :
  lookup_prop j ((i, x) :: ps) = if i =? j then x else lookup_prop j ps.
Proof. simpl. now rewrite (Z.eqb_sym j i). Qed.

(** Reading after a write, at any two integers. *)
Lemma get_set (a : jsarray) (i j : Z) (x : slot) :
  get (set a i x) j = if i =? j then x else get a j.
Proof.
  unfold get, set.
  destruct (is_array_index i) eqn:Hi, (is_array_index j) eqn:Hj;
    cbn [elems props].
  - rewrite nth_list_set.
    unfold is_array_index in Hi, Hj.
    destruct (Z.eqb_spec i j) as [->|Hne].
    + now rewrite Nat.eqb_refl.
    + destruct (Nat.eqb_spec (Z.to_nat i) (Z.to_nat j)) as [E|_]; [|reflexivity].
      exfalso; apply Hne; lia.
  - destruct (Z.eqb_spec i j) as [->|_]; [congruence | reflexivity].
  - destruct (Z.eqb_spec i j) as [->|_]; [congruence | reflexivity].
  - now rewrite lookup_prop_cons.
Qed.

Lemma get_set_same (a : jsarray) (i : Z) (x : slot) : get (set a i x) i = x.
Proof. now rewrite get_set, Z.eqb_refl. Qed.

Lemma get_set_other (a : jsarray) (i j : Z) (x : slot) :
  i <> j -> get (set a i x) j = get a j.
Proof. intros H. rewrite get_set. now destruct (Z.eqb_spec i j). Qed.

Lemma get_spread (a : jsarray) (i : Z) :
  get (spread a) i = if is_array_index i then get a i else Undefined.
Proof. unfold get, spread. simpl. now destruct (is_array_index i). Qed.

Lemma get_spread_plain (a : jsarray) (i : Z) :
  props a = [] -> get (spread a) i = get a i.
Proof. intros H. unfold get, spread. simpl. now rewrite H. Qed.

Lemma in_grid_is_array_index (i : Z) : in_grid i -> is_array_index i = true.
Proof. unfold in_grid, is_array_index. lia. Qed.

Lemma out_of_bounds_false (d : Z) : out_of_bounds d = false <-> in_grid d.
Proof. unfold out_of_bounds, in_grid. lia. Qed.

Lemma out_of_bounds_true (d : Z) : out_of_bounds d = true <-> ~ in_grid d.
Proof. unfold out_of_bounds, in_grid. lia. Qed.

(** A write inside the array keeps its length and its properties. *)
Lemma length_set_inside (a : jsarray) (i : Z) (x : slot) :
  0 <= i < array_length a -> array_length (set a i x) = array_length a.
Proof.
  unfold array_length, set. intros H.
  destruct (is_array_index i); simpl; [|reflexivity].
  rewrite length_list_set. lia.
Qed.

Lemma length_set_inside_index (a : jsarray) (i : Z) (x : slot) :
  is_array_index i = true -> 0 <= i < array_length a ->
  array_length (mkArray (list_set (Z.to_nat i) x (elems a)) (props a))
  = array_length a.
Proof.
  unfold array_length. intros _ H. simpl. rewrite length_list_set. lia.
Qed.

Lemma props_set_index (a : jsarray) (i : Z) (x : slot) :
  is_array_index i = true -> props (set a i x) = props a.
Proof. unfold set. now intros ->. Qed.

Lemma length_spread (a : jsarray) : array_length (spread a) = array_length a.
Proof. reflexivity. Qed.

Lemma length_array_fill (n : nat) (x : slot) :
  array_length (array_fill n x) = Z.of_nat n.
Proof. unfold array_length, array_fill. simpl. now rewrite repeat_length. Qed.

(** ** Sets and sorting *)

Lemma has_In (s : list Z) (i : Z) : has s i = true <-> In i s.
Proof.
  unfold has. rewrite existsb_exists. split.
  - intros (x & Hx & E). apply Z.eqb_eq in E. now subst.
  - intros H. exists i. split; [assumption | apply Z.eqb_refl].
Qed.

Lemma has_false (s : list Z) (i : Z) : has s i = false <-> ~ In i s.
Proof.
  rewrite <- has_In. destruct (has s i); split; intros H; easy.
Qed.

Lemma In_add (s : list Z) (i x : Z) : In x (add s i) <-> In x s \/ x = i.
Proof.
  unfold add. destruct (has s i) eqn:E.
  - apply has_In in E. split; [now left | intros [H| ->]; assumption].
  - rewrite in_app_iff. simpl. intuition.
Qed.

Lemma NoDup_add (s : list Z) (i : Z) : NoDup s -> NoDup (add s i).
Proof.
  intros H. unfold add. destruct (has s i) eqn:E; [assumption|].
  apply has_false in E.
  apply NoDup_app; [assumption | repeat constructor; intros [] | ].
  intros x Hx [<-|[]]. now apply E.
Qed.

Lemma In_fold_add (l acc : list Z) (x : Z) :
  In x (fold_left add l acc) <-> In x acc \/ In x l.
Proof.
  revert acc. induction l as [|y l IH]; intros acc; simpl.
  - intuition.
  - rewrite IH, In_add. intuition.
Qed.

Lemma In_set_of_list (l : list Z) (x : Z) : In x (set_of_list l) <-> In x l.
Proof. unfold set_of_list. rewrite In_fold_add. simpl. intuition. Qed.

Lemma fold_add_NoDup (l acc : list Z) :
  NoDup (acc ++ l) -> fold_left add l acc = acc ++ l.
Proof.
  revert acc. induction l as [|y l IH]; intros acc H; simpl.
  - now rewrite app_nil_r.
  - assert (Hy : has acc y = false).
    { apply has_false. intros Hin.
      apply NoDup_remove_2 in H. apply H. apply in_or_app. now left. }
    unfold add at 2. rewrite Hy.
    rewrite IH; rewrite <- app_assoc; [reflexivity | exact H].
Qed.

(** Building a set from a list without repetitions keeps the list. *)
Lemma set_of_list_NoDup (l : list Z) : NoDup l -> set_of_list l = l.
Proof. intros H. unfold set_of_list. now rewrite fold_add_NoDup. Qed.

Lemma NoDup_fold_add (l acc : list Z) : NoDup acc -> NoDup (fold_left add l acc).
Proof.
  revert acc. induction l as [|y l IH]; intros acc H; simpl; [assumption|].
  apply IH. now apply NoDup_add.
Qed.

Lemma NoDup_set_of_list (l : list Z) : NoDup (set_of_list l).
Proof. apply NoDup_fold_add. constructor. Qed.

Lemma In_delete (s : list Z) (i x : Z) : In x (delete s i) <-> In x s /\ x <> i.
Proof.
  unfold delete. rewrite filter_In.
  destruct (Z.eqb_spec x i); simpl; intuition congruence.
Qed.

Lemma insert_sorted_perm (x : Z) (l : list Z) :
  Permutation (insert_sorted x l) (x :: l).
Proof.
  induction l as [|y l IH]; simpl; [reflexivity|].
  destruct (x <=? y); [reflexivity|].
  rewrite IH. apply perm_swap.
Qed.

(** Sorting rearranges the indices. *)
Lemma sort_num_perm (s : list Z) : Permutation (sort_num s) s.
Proof.
  induction s as [|x s IH]; simpl; [reflexivity|].
  rewrite insert_sorted_perm. now constructor.
Qed.

Lemma insert_sorted_sorted (x : Z) (l : list Z) :
  Sorted Z.le l -> Sorted Z.le (insert_sorted x l).
Proof.
  induction l as [|y l IH]; intros H; simpl.
  - repeat constructor.
  - destruct (Z.leb_spec x y) as [Hle|Hgt].
    + constructor; [assumption | now constructor].
    + inversion H as [|? ? Hl Hhd]; subst.
      constructor; [now apply IH|].
      destruct l as [|z l]; simpl.
      * constructor. lia.
      * destruct (x <=? z); constructor; [lia|].
        now inversion Hhd.
Qed.

(** and puts them in ascending order. *)
Lemma sort_num_sorted (s : list Z) : Sorted Z.le (sort_num s).
Proof.
  induction s as [|x s IH]; simpl; [constructor|].
  now apply insert_sorted_sorted.
Qed.

Lemma In_sort_num (s : list Z) (x : Z) : In x (sort_num s) <-> In x s.
Proof.
  split; apply Permutation_in;
    [apply sort_num_perm | symmetry; apply sort_num_perm].
Qed.

Lemma NoDup_sort_num (s : list Z) : NoDup s -> NoDup (sort_num s).
Proof.
  apply Permutation_NoDup. symmetry. apply sort_num_perm.
Qed.

Lemma In_range_from (start : Z) (count : nat) (x : Z) :
  In x (range_from start count) <-> start <= x < start + Z.of_nat count.
Proof.
  unfold range_from. rewrite in_map_iff. split.
  - intros (k & <- & Hk). apply in_seq in Hk. lia.
  - intros H. exists (Z.to_nat (x - start)). split; [lia|].
    apply in_seq. lia.
Qed.

(** The range of a shift-click is the interval between the anchor and the
    clicked index. *)
Lemma In_createSelectionRange (a f x : Z) :
  In x (createSelectionRange a f) <-> Z.min a f <= x <= Z.max a f.
Proof. unfold createSelectionRange. rewrite In_range_from. lia. Qed.

Lemma In_plan_dst (sel : list Z) (off d : Z) :
  In d (map dst (plan sel off)) <-> In (d - off) sel.
Proof.
  unfold plan. rewrite map_map. simpl. rewrite in_map_iff. split.
  - intros (x & <- & Hx). now replace (x + off - off) with x by lia.
  - intros H. exists (d - off). split; [lia | assumption].
Qed.

Lemma In_plan (sel : list Z) (off : Z) (m : Move) :
  In m (plan sel off) <-> In (src m) sel /\ dst m = src m + off.
Proof.
  unfold plan. rewrite in_map_iff. split.
  - intros (x & <- & Hx). simpl. auto.
  - intros [H E]. exists (src m). split; [|assumption].
    destruct m; simpl in *. now subst.
Qed.

(** ** Loops over the table *)

Lemma fold_left_invariant {A B : Type} (P : A -> Prop) (f : A -> B -> A)
    (l : list B) (a : A) :
  (forall x b, In b l -> P x -> P (f x b)) -> P a -> P (fold_left f l a).
Proof.
  revert a. induction l as [|b l IH]; intros a Hf Ha; simpl; [assumption|].
  apply IH.
  - intros x b' Hb'. apply Hf. now right.
  - apply Hf; [now left | assumption].
Qed.

(** A write to a slot that reads as something keeps the length. *)
Lemma length_set_defined (a : jsarray) (i : Z) (x : slot) :
  get a i <> Undefined -> array_length (set a i x) = array_length a.
Proof.
  intros H. unfold set. destruct (is_array_index i) eqn:Hi; [|reflexivity].
  apply length_set_inside_index; [assumption|].
  unfold get in H. rewrite Hi in H.
  unfold array_length. unfold is_array_index in Hi.
  destruct (Nat.ltb_spec (Z.to_nat i) (length (elems a))) as [Hlt|Hge]; [lia|].
  now rewrite nth_overflow in H.
Qed.

(** ** Rejected gestures *)

(** C3. Move, copy-drag and paste are all-or-nothing: when one of the
    destinations that the handler computes lies outside [0, 255], the handler
    returns the state it was given, so the document (every slot and the
    name), the selection (anchor and selected set) and the clipboard are
    unchanged. *)
Theorem rejected_gesture_changes_nothing (g : Gesture) (s : State) :
  (exists d, In d (destinations g s) /\ ~ in_grid d) ->
  perform g s = Ok s.
Proof.
  intros (d & Hd & Hout). apply out_of_bounds_true in Hout.
  assert (Hmoves : forall sel off,
             In d (map dst (plan sel off)) ->
             existsb (fun m => out_of_bounds (dst m)) (plan sel off) = true).
  { intros sel off H. apply in_map_iff in H as (m & <- & Hm).
    apply existsb_exists. now exists m. }
  destruct g as [fromIndex toIndex | fromIndex toIndex | ]; simpl in *.
  - unfold handleReorder.
    destruct (fromIndex =? toIndex); [reflexivity|].
    destruct (out_of_bounds toIndex); [reflexivity|].
    now rewrite (Hmoves _ _ Hd).
  - unfold handleCopyCharacter.
    destruct (fromIndex =? toIndex); [reflexivity|].
    destruct (out_of_bounds toIndex); [reflexivity|].
    now rewrite (Hmoves _ _ Hd).
  - unfold handlePaste.
    destruct (clipboard s) as [items|]; [|reflexivity].
    destruct (Z.of_nat (length items) =? 0); [reflexivity|].
    assert (E : existsb (fun p => out_of_bounds (fst p))
                  (pastes_of (anchor (selection s)) items) = true).
    { apply in_map_iff in Hd as (p & <- & Hp).
      apply existsb_exists. now exists p. }
    now rewrite E.
Qed.

(** With slots 2 and 3 selected, dragging slot 3 onto slot 0 would send slot
    2 to -1: the drag is rejected although its target is in the grid. *)
Lemma rejected_gesture_witness :
  perform (MoveDrag 3 0) two_glyphs = Ok two_glyphs.
Proof.
  apply rejected_gesture_changes_nothing.
  exists (-1). split.
  - vm_compute. left. reflexivity.
  - unfold in_grid. lia.
Defined.

(** ** Clicks and the document *)

Lemma revert_empty_get (index : Z) (acc : jsarray * bool) (p i : Z) :
  get (fst (revert_empty index acc p)) i
  = match get (fst acc) i with
    | Char c =>
        if negb (i =? index) && (i =? p) && is_empty_content c
        then Null else Char c
    | x => x
    end.
Proof.
  unfold revert_empty.
  destruct (Z.eqb_spec i p) as [->|Hne].
  - destruct (p =? index); simpl.
    + now destruct (get (fst acc) p).
    + destruct (get (fst acc) p) as [| |c] eqn:E; simpl; rewrite ?E; try reflexivity.
      destruct (is_empty_content c); simpl; [apply get_set_same | now rewrite E].
  - rewrite andb_false_r. simpl.
    destruct (negb (p =? index)).
    + destruct (get (fst acc) p) as [| |c]; simpl.
      1,2: now destruct (get (fst acc) i).
      destruct (is_empty_content c); simpl.
      * rewrite get_set_other by congruence. now destruct (get (fst acc) i).
      * now destruct (get (fst acc) i).
    + now destruct (get (fst acc) i).
Qed.

Lemma revert_loop_get (index : Z) (sel : list Z) (acc : jsarray * bool) (i : Z) :
  get (fst (fold_left (revert_empty index) sel acc)) i
  = match get (fst acc) i with
    | Char c =>
        if negb (i =? index) && has sel i && is_empty_content c
        then Null else Char c
    | x => x
    end.
Proof.
  revert acc. induction sel as [|p sel IH]; intros acc; simpl.
  - rewrite andb_false_r. now destruct (get (fst acc) i).
  - rewrite IH, revert_empty_get. unfold has. simpl.
    destruct (get (fst acc) i) as [| |c]; try reflexivity.
    destruct (negb (i =? index)), (i =? p), (existsb (Z.eqb i) sel),
      (is_empty_content c) eqn:Ec; simpl; rewrite ?Ec; reflexivity.
Qed.

Lemma revert_empty_changed (index : Z) (acc : jsarray * bool) (p : Z) :
  (snd acc = true -> snd (revert_empty index acc p) = true)
  /\ (snd (revert_empty index acc p) = false -> revert_empty index acc p = acc).
Proof.
  unfold revert_empty. destruct (negb (p =? index)); [|auto].
  destruct (get (fst acc) p) as [| |c]; auto.
  destruct (is_empty_content c); simpl; auto. split; [auto | discriminate].
Qed.

(** When the loop reports no change it has left the array as it was. *)
Lemma revert_loop_unchanged (index : Z) (sel : list Z) (acc : jsarray * bool) :
  snd (fold_left (revert_empty index) sel acc) = false ->
  fold_left (revert_empty index) sel acc = acc.
Proof.
  revert acc. induction sel as [|p sel IH]; intros acc H; simpl in *; [reflexivity|].
  rewrite (IH _ H) in H |- *.
  now apply revert_empty_changed.
Qed.

Lemma auto_create_get (index : Z) (shift : bool) (acc : jsarray * bool) (i : Z) :
  get (fst (auto_create index shift acc)) i
  = if (i =? index) && negb shift && slot_is_null (get (fst acc) i)
    then Char blank else get (fst acc) i.
Proof.
  unfold auto_create.
  destruct (Z.eqb_spec i index) as [->|Hne]; simpl.
  - destruct (negb shift && slot_is_null (get (fst acc) index)); simpl;
      [apply get_set_same | reflexivity].
  - destruct (negb shift && slot_is_null (get (fst acc) index)); simpl;
      [apply get_set_other; congruence | reflexivity].
Qed.

Lemma auto_create_unchanged (index : Z) (shift : bool) (acc : jsarray * bool) :
  snd (auto_create index shift acc) = false -> auto_create index shift acc = acc.
Proof.
  unfold auto_create.
  destruct (negb shift && slot_is_null (get (fst acc) index)); simpl;
    [discriminate | reflexivity].
Qed.

(** The table after [handleSelect], slot by slot. *)
Lemma select_font_get (index : Z) (shift : bool) (sel : list Z) (f : Font) (i : Z) :
  is_array_index i = true ->
  get (characters (select_font index shift sel f)) i
  = coupled_slot index shift sel (characters f) i.
Proof.
  intros Hi. unfold select_font, coupled_slot.
  set (acc1 := fold_left (revert_empty index) sel (spread (characters f), false)).
  assert (H1 : forall j, is_array_index j = true ->
             get (fst acc1) j
             = match get (characters f) j with
               | Char c =>
                   if negb (j =? index) && has sel j && is_empty_content c
                   then Null else Char c
               | x => x
               end).
  { intros j Hj. unfold acc1. rewrite revert_loop_get. simpl.
    now rewrite get_spread, Hj. }
  destruct (snd (auto_create index shift acc1)) eqn:Hch; simpl.
  - now rewrite auto_create_get, H1.
  - pose proof (auto_create_unchanged _ _ _ Hch) as E2.
    rewrite E2 in Hch.
    pose proof (revert_loop_unchanged _ _ _ Hch) as E1. fold acc1 in E1.
    rewrite <- (H1 i Hi).
    pose proof (auto_create_get index shift acc1 i) as G.
    rewrite E2 in G. rewrite <- G.
    rewrite E1. simpl. now rewrite get_spread, Hi.
Qed.

(** C9. A click at [index] leaves every slot [i] of the table as the
    document coupling describes: an empty-content character (segments 0 and
    no name) at an index of the previous selection other than [index]
    becomes absent, and then, unless shift is held, an absent clicked slot
    becomes [{segments: 0, name: null}]; the other slots are kept.  On the
    empty font, a plain click at 5 leaves a blank character in slot 5 and
    makes slot 0 absent. *)
Theorem click_couples_document (index : Z) (shift ctrl : bool) (s : State) :
  (forall i, is_array_index i = true ->
     get (characters (font (handleSelect index shift ctrl s))) i
     = coupled_slot index shift (selected (selection s)) (characters (font s)) i)
  /\ (get (characters (font (handleSelect 5 false false initial_state))) 5
      = Char (mkChar (VNum 0) VNull)
      /\ get (characters (font (handleSelect 5 false false initial_state))) 0
         = Null).
Proof.
  split.
  - intros i Hi. apply select_font_get. exact Hi.
  - split; reflexivity.
Qed.

(** Slot 0 of the empty font after a plain click at 5, through the general
    description. *)
Lemma click_couples_document_witness :
  get (characters (font (handleSelect 5 false false initial_state))) 0 = Null.
Proof.
  rewrite (proj1 (click_couples_document 5 false false initial_state) 0).
  - reflexivity.
  - reflexivity.
Defined.

(** ** Copying segments from another character *)

(** C10. [handleCopyFrom(fromIndex)] with a defined source leaves a defined
    character at the anchor whose segments are the source's; when the
    anchor slot held no character the new character has the source's
    segments and no name, and when it held one its name is kept; every other
    slot of the table is unchanged.  With an absent source the state is
    unchanged. *)
Theorem copy_from_sets_anchor_segments (fromIndex : Z) (s : State) :
  let a := anchor (selection s) in
  let t := characters (font s) in
  let t' := characters (font (handleCopyFrom fromIndex s)) in
  (forall source, get t fromIndex = Char source ->
     (exists c, get t' a = Char c /\ segments c = segments source)
     /\ (slot_truthy (get t a) = false ->
         get t' a = Char (mkChar (segments source) VUndefined))
     /\ (forall c, is_array_index a = true -> get t a = Char c ->
         get t' a = Char (mkChar (segments source) (name c)))
     /\ (forall i, is_array_index i = true -> i <> a -> get t' i = get t i))
  /\ (slot_truthy (get t fromIndex) = false -> handleCopyFrom fromIndex s = s).
Proof.
  intros a t t'. split.
  - intros source Hsrc.
    assert (Ht' : t' = set (spread t) a
                         (Char (with_segments (get (spread t) a) (segments source)))).
    { unfold t', handleCopyFrom. fold t. now rewrite Hsrc. }
    rewrite Ht'. repeat split.
    + rewrite get_set_same. eexists. split; [reflexivity|].
      now destruct (get (spread t) a).
    + intros Habs. rewrite get_set_same, get_spread.
      destruct (is_array_index a); [|reflexivity].
      now destruct (get t a).
    + intros c Ha Hc. now rewrite get_set_same, get_spread, Ha, Hc.
    + intros i Hi Hne. rewrite get_set_other by congruence.
      now rewrite get_spread, Hi.
  - intros Habs. unfold handleCopyFrom. fold t.
    now destruct (get t fromIndex).
Qed.

(** On the empty font the anchor is slot 0; copying its own segments keeps
    its name. *)
Lemma copy_from_sets_anchor_segments_witness :
  get (characters (font (handleCopyFrom 0 initial_state))) 0
  = Char (mkChar (VNum 0) VNull).
Proof.
  exact (proj1 (proj2 (proj2
           (proj1 (copy_from_sets_anchor_segments 0 initial_state)
                  blank eq_refl)))
           blank eq_refl eq_refl).
Defined.

(** ** Arrow keys *)

Lemma is_arrow_cases (k : string) :
  is_arrow k = true ->
  k = "ArrowUp"%string \/ k = "ArrowDown"%string
  \/ k = "ArrowLeft"%string \/ k = "ArrowRight"%string.
Proof.
  unfold is_arrow. simpl. rewrite !orb_true_iff, !String.eqb_eq.
  intuition discriminate.
Qed.

(** An arrow key reaches the arrow branch of [handleKeyDown]. *)
Lemma handleKeyDown_arrow (e : KeyEvent) (s : State) :
  is_arrow (key e) = true ->
  handleKeyDown e s
  = if next_index (key e) (anchor (selection s)) =? anchor (selection s)
    then Ok s
    else Ok (handleSelect (next_index (key e) (anchor (selection s)))
                          (shiftKey e) false s).
Proof.
  intros H. unfold handleKeyDown. rewrite H.
  apply is_arrow_cases in H.
  destruct H as [E|[E|[E|E]]]; rewrite E; cbn [String.eqb Ascii.eqb Bool.eqb];
    rewrite ?andb_false_r; cbn [orb];
    now destruct (_ =? anchor (selection s)).
Qed.

(** C4, as the code has it. An arrow key whose step is not clamped at the
    edge of the grid calls [handleSelect(next, {shift})], the handler of a
    click: the state after the key is the state after that click, so the
    table gets the same auto-revert of empty-content slots of the previous
    selection and, when shift is not held, the same auto-create of the target
    slot.  The state, and so the table, is unchanged when the step is
    clamped. *)
Theorem arrow_key_selects_like_a_click (e : KeyEvent) (s : State) :
  is_arrow (key e) = true ->
  let current := anchor (selection s) in
  let next := next_index (key e) current in
  (next <> current ->
     handleKeyDown e s = Ok (handleSelect next (shiftKey e) false s)
     /\ forall i, is_array_index i = true ->
          get (characters (font (handleSelect next (shiftKey e) false s))) i
          = coupled_slot next (shiftKey e) (selected (selection s))
              (characters (font s)) i)
  /\ (next = current -> handleKeyDown e s = Ok s).
Proof.
  intros H current next. rewrite (handleKeyDown_arrow _ _ H).
  fold current next. split.
  - intros Hne. destruct (Z.eqb_spec next current) as [E|_]; [contradiction|].
    split; [reflexivity|].
    intros i Hi. apply select_font_get. exact Hi.
  - intros ->. now rewrite Z.eqb_refl.
Qed.

Lemma arrow_key_selects_like_a_click_witness :
  handleKeyDown (mkKey false false false "ArrowRight") initial_state
  = Ok (handleSelect 1 false false initial_state).
Proof.
  apply (proj1 (arrow_key_selects_like_a_click
                  (mkKey false false false "ArrowRight") initial_state eq_refl)).
  vm_compute. discriminate.
Defined.

(** On the empty font the right arrow makes slot 1 a blank character (and
    slot 0 absent): the table has changed. *)
Lemma arrow_keys_change_table : ~ arrow_keys_keep_table.
Proof.
  intros H.
  specialize (H (mkKey false false false "ArrowRight") initial_state
                (handleSelect 1 false false initial_state) eq_refl eq_refl).
  apply (f_equal (fun a => get a 1)) in H.
  vm_compute in H. discriminate H.
Qed.

(** ** Loading *)

Lemma load_entry_get (a a' : jsarray) (idx : nat) (entry : value) (j : Z) :
  load_entry a idx entry = Some a' ->
  j <> Z.of_nat idx -> get a' j = get a j.
Proof.
  unfold load_entry. intros H Hj.
  destruct ((Z.of_nat idx <? 256) && is_not_null entry).
  - destruct (get_field "segments" entry), (get_field "name" entry);
      try discriminate.
    injection H as <-. apply get_set_other. congruence.
  - now injection H as <-.
Qed.

Lemma load_entry_kept (a a' : jsarray) (idx : nat) (entry : value) :
  load_entry a idx entry = Some a' ->
  (idx < 256)%nat -> entry <> VNull ->
  exists sg nm,
    get_field "segments" entry = Some sg
    /\ get_field "name" entry = Some nm
    /\ get a' (Z.of_nat idx)
       = Char (mkChar (or_else sg (VNum 0)) (or_else nm VNull)).
Proof.
  unfold load_entry. intros H Hidx Hnn.
  assert (E : (Z.of_nat idx <? 256) && is_not_null entry = true).
  { apply andb_true_iff. split; [lia | now destruct entry]. }
  rewrite E in H.
  destruct (get_field "segments" entry) as [sg|], (get_field "name" entry) as [nm|];
    try discriminate.
  injection H as <-. exists sg, nm. repeat split. apply get_set_same.
Qed.

(** The entries after position [idx] do not touch the slots before it. *)
Lemma forEach_load_before (items : list value) (idx : nat) (a a' : jsarray) (j : Z) :
  forEach_load items idx a = Some a' ->
  j < Z.of_nat idx -> get a' j = get a j.
Proof.
  revert idx a. induction items as [|entry items IH]; intros idx a H Hj; simpl in H.
  - now injection H as <-.
  - destruct (load_entry a idx entry) as [a1|] eqn:E; [|discriminate].
    rewrite (IH _ _ H) by lia.
    apply (load_entry_get _ _ _ _ _ E). lia.
Qed.

Lemma forEach_load_kept (items : list value) (idx : nat) (a a' : jsarray)
    (k : nat) (entry : value) :
  forEach_load items idx a = Some a' ->
  nth_error items k = Some entry ->
  (idx + k < 256)%nat -> entry <> VNull ->
  exists sg nm,
    get_field "segments" entry = Some sg
    /\ get_field "name" entry = Some nm
    /\ get a' (Z.of_nat (idx + k))
       = Char (mkChar (or_else sg (VNum 0)) (or_else nm VNull)).
Proof.
  revert idx a k. induction items as [|e items IH]; intros idx a k H Hk Hlt Hnn.
  - now destruct k.
  - simpl in H. destruct (load_entry a idx e) as [a1|] eqn:E; [|discriminate].
    destruct k as [|k]; simpl in Hk.
    + injection Hk as ->. rewrite Nat.add_0_r.
      destruct (load_entry_kept _ _ _ _ E) as (sg & nm & Hs & Hn & Hg);
        [lia | assumption |].
      exists sg, nm. repeat split; try assumption.
      rewrite (forEach_load_before _ _ _ _ _ H) by lia. exact Hg.
    + replace (idx + S k)%nat with (S idx + k)%nat by lia.
      apply (IH _ _ _ H Hk); [lia | assumption].
Qed.

(** C5, as the code has it. A kept entry is loaded with [segments || 0]
    and [name || null]: a [segments] field that is missing or falsy
    ([undefined], [null], [false], 0, the empty string) becomes 0 and a
    truthy one is kept as it is, whether it is a number or not; a [name]
    that is missing or falsy becomes [null] and a truthy one is kept.  The
    loaded segments are a number exactly when the raw field is a number or
    is falsy. *)
Theorem load_defaults_falsy_fields (data : value) (f : Font) (idx : nat)
    (entry : value) :
  load_font data = Some f ->
  kept_entry data idx entry ->
  exists sg nm c,
    get_field "segments" entry = Some sg
    /\ get_field "name" entry = Some nm
    /\ get (characters f) (Z.of_nat idx) = Char c
    /\ segments c = (if truthy sg then sg else VNum 0)
    /\ name c = (if truthy nm then nm else VNull)
    /\ (sg = VUndefined -> segments c = VNum 0)
    /\ (nm = VUndefined -> name c = VNull)
    /\ is_number (segments c) = is_number sg || negb (truthy sg).
Proof.
  intros Hload (items & Hcs & Hnth & Hidx & Hnn).
  unfold load_font in Hload. rewrite Hcs in Hload.
  destruct (get_field "name" data) as [n|]; [|discriminate].
  simpl in Hload.
  destruct (forEach_load items 0 (array_fill 256 Null)) as [a|] eqn:Hfe;
    [|discriminate].
  injection Hload as <-. simpl.
  destruct (forEach_load_kept _ _ _ _ _ _ Hfe Hnth Hidx Hnn)
    as (sg & nm & Hs & Hn & Hg).
  simpl in Hg.
  exists sg, nm, (mkChar (or_else sg (VNum 0)) (or_else nm VNull)).
  repeat split; try assumption.
  - destruct (slot_is_null (get a 0)) eqn:E0; [|exact Hg].
    destruct idx as [|idx].
    + simpl in Hg. now rewrite Hg in E0.
    + rewrite get_set_other by lia. exact Hg.
  - now intros ->.
  - now intros ->.
  - simpl. unfold or_else. now destruct (truthy sg) eqn:E; destruct sg.
Qed.

Lemma load_defaults_falsy_fields_witness :
  exists sg nm c,
    get_field "segments" (VObj [("name"%string, VStr "A")]) = Some sg
    /\ get_field "name" (VObj [("name"%string, VStr "A")]) = Some nm
    /\ get (characters
              (mkFont (VStr "Loaded Font")
                 (set (array_fill 256 Null) 0
                    (Char (mkChar (VNum 0) (VStr "A")))))) (Z.of_nat 0)
       = Char c
    /\ segments c = (if truthy sg then sg else VNum 0)
    /\ name c = (if truthy nm then nm else VNull)
    /\ (sg = VUndefined -> segments c = VNum 0)
    /\ (nm = VUndefined -> name c = VNull)
    /\ is_number (segments c) = is_number sg || negb (truthy sg).
Proof.
  apply (load_defaults_falsy_fields
           (VObj [("characters"%string,
                   VArr [VObj [("name"%string, VStr "A")]])])).
  - reflexivity.
  - exists [VObj [("name"%string, VStr "A")]].
    repeat split; [lia | discriminate].
Defined.

(** An entry whose segments are the string "abc" is loaded with these
    segments: they are neither 0 nor a number. *)
Lemma load_keeps_non_numeric_segments : ~ load_validates_segments.
Proof.
  intros H.
  destruct (H (VObj [("characters"%string,
                      VArr [VObj [("segments"%string, VStr "abc")]])])
              (mkFont (VStr "Loaded Font")
                 (set (array_fill 256 Null) 0
                    (Char (mkChar (VStr "abc") VNull))))
              0%nat
              (VObj [("segments"%string, VStr "abc")])
              (VStr "abc") VUndefined)
    as (c & Hc & Hseg & _ & _).
  - reflexivity.
  - exists [VObj [("segments"%string, VStr "abc")]].
    repeat split; [lia | discriminate].
  - reflexivity.
  - reflexivity.
  - vm_compute in Hc. injection Hc as <-.
    specialize (Hseg eq_refl). discriminate Hseg.
Qed.

(** ** Moving *)

Lemma bool_eq_iff (b1 b2 : bool) : (b1 = true <-> b2 = true) -> b1 = b2.
Proof. destruct b1, b2; intuition congruence. Qed.

Lemma has_set_of_list (l : list Z) (i : Z) : has (set_of_list l) i = has l i.
Proof. apply bool_eq_iff. now rewrite !has_In, In_set_of_list. Qed.

Lemma has_sort_num (s : list Z) (i : Z) : has (sort_num s) i = has s i.
Proof. apply bool_eq_iff. now rewrite !has_In, In_sort_num. Qed.

Lemma has_plan_dst (sel : list Z) (off i : Z) :
  has (map dst (plan sel off)) i = has sel (i - off).
Proof. apply bool_eq_iff. now rewrite !has_In, In_plan_dst. Qed.

Lemma has_plan_src (sel : list Z) (off i : Z) :
  existsb (fun m => src m =? i) (plan sel off) = has sel i.
Proof.
  apply bool_eq_iff. rewrite has_In, existsb_exists. split.
  - intros (m & Hm & E). apply In_plan in Hm as [Hm _].
    apply Z.eqb_eq in E. now subst.
  - intros H. exists (mkMove i (i + off)). split; [|apply Z.eqb_refl].
    apply In_plan. simpl. auto.
Qed.

(** The clearing loop makes [null] the sources that are not in [dstSet] and
    leaves the rest of the array as it is. *)
Lemma clear_loop_get (dstSet : list Z) (moves : list Move) (nc : jsarray) (i : Z) :
  get (fold_left
         (fun nc m => if negb (has dstSet (src m)) then set nc (src m) Null else nc)
         moves nc) i
  = if existsb (fun m => src m =? i) moves && negb (has dstSet i)
    then Null else get nc i.
Proof.
  revert nc. induction moves as [|m moves IH]; intros nc; simpl; [reflexivity|].
  rewrite IH.
  destruct (Z.eqb_spec (src m) i) as [->|Hne]; simpl.
  - destruct (has dstSet i) eqn:E; simpl.
    + now rewrite andb_false_r.
    + rewrite get_set_same. now destruct (existsb _ moves).
  - destruct (negb (has dstSet (src m))); [|reflexivity].
    now rewrite get_set_other.
Qed.

Lemma clearSources_get (sel : list Z) (off : Z) (nc : jsarray) (i : Z) :
  get (clearSources (plan sel off) nc) i
  = if has sel i && negb (has sel (i - off)) then Null else get nc i.
Proof.
  unfold clearSources.
  now rewrite clear_loop_get, has_plan_src, has_set_of_list, has_plan_dst.
Qed.

Lemma placeMoved_other (l : list (Z * slot)) (nc : jsarray) (i : Z) :
  ~ In i (map fst l) -> get (placeMoved l nc) i = get nc i.
Proof.
  unfold placeMoved. revert nc.
  induction l as [|[d x] l IH]; intros nc H; simpl in *; [reflexivity|].
  rewrite IH by tauto. apply get_set_other. tauto.
Qed.

(** When no destination is given two different slots, every placed slot is
    read back at its destination. *)
Lemma placeMoved_at (l : list (Z * slot)) (nc : jsarray) (d : Z) (x : slot) :
  (forall y z, In (d, y) l -> In (d, z) l -> y = z) ->
  In (d, x) l -> get (placeMoved l nc) d = x.
Proof.
  revert nc. induction l as [|[d0 x0] l IH]; intros nc Hfun Hin; [contradiction|].
  change (placeMoved ((d0, x0) :: l) nc) with (placeMoved l (set nc d0 x0)).
  destruct (in_dec Z.eq_dec d (map fst l)) as [Hd|Hd].
  - apply in_map_iff in Hd as ([d' y] & E & Hy). simpl in E. subst d'.
    apply IH.
    + intros y' z Hy' Hz. apply Hfun; now right.
    + rewrite (Hfun x y); [assumption | assumption | now right].
  - rewrite placeMoved_other by assumption.
    destruct Hin as [E|Hin].
    + injection E as -> ->. apply get_set_same.
    + exfalso. apply Hd. apply in_map_iff. now exists (d, x).
Qed.

Lemma In_movedChars (t : jsarray) (sel : list Z) (off d : Z) (x : slot) :
  In (d, x) (map (fun m => (dst m, get t (src m))) (plan sel off))
  <-> In (d - off) sel /\ x = get t (d - off).
Proof.
  rewrite in_map_iff. split.
  - intros (m & E & Hm). apply In_plan in Hm as [Hs Hd].
    injection E as <- <-. rewrite Hd.
    replace (src m + off - off) with (src m) by lia. auto.
  - intros [Hs ->]. exists (mkMove (d - off) d). simpl. split; [reflexivity|].
    apply In_plan. simpl. split; [assumption | lia].
Qed.

(** The table after the updater of [handleReorder], at any integer. *)
Lemma reorder_font_get (f : Font) (sel : list Z) (off i : Z) :
  get (characters (reorder_font (plan sel off) f)) i
  = if has sel (i - off) then get (characters f) (i - off)
    else if has sel i then Null
    else get (spread (characters f)) i.
Proof.
  unfold reorder_font. simpl.
  destruct (has sel (i - off)) eqn:Hd.
  - apply placeMoved_at.
    + intros y z Hy Hz. apply In_movedChars in Hy as [_ ->].
      now apply In_movedChars in Hz as [_ ->].
    + apply In_movedChars. split; [now apply has_In | reflexivity].
  - rewrite placeMoved_other.
    + rewrite clearSources_get, Hd. now rewrite andb_true_r.
    + rewrite map_map. simpl. change (fun x => dst x) with dst.
      rewrite In_plan_dst. now apply has_false.
Qed.

Lemma no_destination_out_of_bounds (moves : list Move) :
  (forall d, In d (map dst moves) -> in_grid d) ->
  existsb (fun m => out_of_bounds (dst m)) moves = false.
Proof.
  intros H. destruct (existsb _ moves) eqn:E; [|reflexivity].
  apply existsb_exists in E as (m & Hm & Hout).
  apply out_of_bounds_true in Hout. exfalso. apply Hout, H.
  now apply in_map.
Qed.

(** A move that passes the three guards. *)
Lemma handleReorder_performed (fromIndex toIndex : Z) (s : State) :
  fromIndex <> toIndex ->
  in_grid toIndex ->
  (forall d, In d (destinations (MoveDrag fromIndex toIndex) s) -> in_grid d) ->
  handleReorder fromIndex toIndex s
  = let moves := plan (sort_num (selected (selection s))) (toIndex - fromIndex) in
    mkState (reorder_font moves (font s))
            (mkSelection (clamp (anchor (selection s) + (toIndex - fromIndex)))
                         (set_of_list (map dst moves)))
            (clipboard s).
Proof.
  intros Hne Hto Hd. unfold handleReorder.
  destruct (Z.eqb_spec fromIndex toIndex); [contradiction|].
  apply out_of_bounds_false in Hto. rewrite Hto.
  simpl in Hd. now rewrite (no_destination_out_of_bounds _ Hd).
Qed.

Lemma handleReorder_get (fromIndex toIndex : Z) (s : State) (i : Z) :
  fromIndex <> toIndex ->
  in_grid toIndex ->
  (forall d, In d (destinations (MoveDrag fromIndex toIndex) s) -> in_grid d) ->
  let off := toIndex - fromIndex in
  let sel := selected (selection s) in
  get (characters (font (handleReorder fromIndex toIndex s))) i
  = if has sel (i - off) then get (characters (font s)) (i - off)
    else if has sel i then Null
    else get (spread (characters (font s))) i.
Proof.
  intros Hne Hto Hd off sel.
  rewrite handleReorder_performed by assumption. cbv zeta. cbn [font].
  rewrite reorder_font_get. now rewrite !has_sort_num.
Qed.

(** C2, as the code has it. A move that is carried out ([fromIndex] and
    [toIndex] differ, [toIndex] and every destination lie in [0, 255]) clears
    exactly the source slots that are not themselves the destination of a
    moved source (the slots [i] of the selection with [i - offset] outside
    the selection); a slot that is both a source and the destination of
    another source is not cleared.  Afterwards every moved character, the
    same object, sits at its destination, the cleared sources are absent and
    the slots that are neither source nor destination are unchanged. *)
Theorem move_clears_sources_that_are_not_destinations
    (fromIndex toIndex : Z) (s : State) :
  fromIndex <> toIndex ->
  in_grid toIndex ->
  (forall d, In d (destinations (MoveDrag fromIndex toIndex) s) -> in_grid d) ->
  let off := toIndex - fromIndex in
  let sel := selected (selection s) in
  let t := characters (font s) in
  let cleared := clearSources (plan (sort_num sel) off) (spread t) in
  let t' := characters (font (handleReorder fromIndex toIndex s)) in
  (forall i, get cleared i
             = if has sel i && negb (has sel (i - off))
               then Null else get (spread t) i)
  /\ (forall i, In i sel -> In (i - off) sel -> get cleared i = get (spread t) i)
  /\ (forall x, In x sel -> get t' (x + off) = get t x)
  /\ (forall i, In i sel -> ~ In (i - off) sel -> get t' i = Null)
  /\ (forall i, is_array_index i = true ->
                ~ In i sel -> ~ In (i - off) sel -> get t' i = get t i).
Proof.
  intros Hne Hto Hd off sel t cleared t'.
  assert (Hc : forall i, get cleared i
                         = if has sel i && negb (has sel (i - off))
                           then Null else get (spread t) i).
  { intros i. unfold cleared. rewrite clearSources_get.
    now rewrite !has_sort_num. }
  assert (Ht' : forall i, get t' i
                          = if has sel (i - off) then get t (i - off)
                            else if has sel i then Null
                            else get (spread t) i).
  { intros i. now apply handleReorder_get. }
  split; [exact Hc|]. split; [|split; [|split]].
  - intros i _ Hi. rewrite Hc.
    apply has_In in Hi. rewrite Hi. now rewrite andb_false_r.
  - intros x Hx. rewrite Ht'.
    replace (x + off - off) with x by lia.
    apply has_In in Hx. now rewrite Hx.
  - intros i Hi Hn. rewrite Ht'.
    apply has_In in Hi. apply has_false in Hn. now rewrite Hn, Hi.
  - intros i Hidx Hi Hn. rewrite Ht'.
    apply has_false in Hi. apply has_false in Hn. rewrite Hn, Hi.
    now rewrite get_spread, Hidx.
Qed.

(** Slots 2 and 3 dragged one cell to the right: the character of slot 3
    arrives in slot 4. *)
Lemma move_clears_sources_witness :
  get (characters (font (handleReorder 2 3 two_glyphs))) (3 + (3 - 2))
  = get (characters (font two_glyphs)) 3.
Proof.
  apply (move_clears_sources_that_are_not_destinations 2 3 two_glyphs).
  - lia.
  - unfold in_grid. lia.
  - intros d Hd. vm_compute in Hd. unfold in_grid.
    destruct Hd as [<-|[<-|[]]]; lia.
  - vm_compute. auto.
Defined.

(** In that drag the loop clears slot 2, whose destination 3 is a source,
    and does not clear slot 3, whose destination 4 is not. *)
Lemma move_clears_by_source : ~ move_clears_by_destination.
Proof.
  intros H.
  assert (Hd : forall d, In d (destinations (MoveDrag 2 3) two_glyphs) -> in_grid d).
  { intros d Hd. vm_compute in Hd. unfold in_grid.
    destruct Hd as [<-|[<-|[]]]; lia. }
  specialize (H two_glyphs 2 3 ltac:(discriminate) ltac:(lia) Hd 2).
  vm_compute in H. discriminate H.
Qed.

Lemma has_selected_after_move (fromIndex toIndex : Z) (s : State) (j : Z) :
  fromIndex <> toIndex ->
  in_grid toIndex ->
  (forall d, In d (destinations (MoveDrag fromIndex toIndex) s) -> in_grid d) ->
  has (selected (selection (handleReorder fromIndex toIndex s))) j
  = has (selected (selection s)) (j - (toIndex - fromIndex)).
Proof.
  intros Hne Hto Hd. rewrite handleReorder_performed by assumption.
  cbv zeta. cbn [selection selected].
  now rewrite has_set_of_list, has_plan_dst, has_sort_num.
Qed.

(** After a move that is carried out, the reverse drag is carried out too:
    its destinations are the slots that were selected at first. *)
Lemma reverse_move_destinations (fromIndex toIndex : Z) (s : State) :
  fromIndex <> toIndex ->
  in_grid toIndex ->
  (forall x, In x (selected (selection s)) -> in_grid x) ->
  (forall d, In d (destinations (MoveDrag fromIndex toIndex) s) -> in_grid d) ->
  forall d,
    In d (destinations (MoveDrag toIndex fromIndex)
            (handleReorder fromIndex toIndex s)) ->
    in_grid d.
Proof.
  intros Hne Hto Hsel Hd d Hin. apply Hsel.
  unfold destinations in Hin.
  rewrite In_plan_dst, In_sort_num, <- has_In in Hin.
  rewrite has_selected_after_move in Hin by assumption.
  apply has_In in Hin.
  now replace (d - (fromIndex - toIndex) - (toIndex - fromIndex)) with d in Hin by lia.
Qed.

(** The table after a move and the reverse move, at any integer. *)
Lemma round_trip_get (fromIndex toIndex : Z) (s : State) (i : Z) :
  fromIndex <> toIndex ->
  in_grid fromIndex -> in_grid toIndex ->
  (forall x, In x (selected (selection s)) -> in_grid x) ->
  (forall d, In d (destinations (MoveDrag fromIndex toIndex) s) -> in_grid d) ->
  let off := toIndex - fromIndex in
  let sel := selected (selection s) in
  let t := characters (font s) in
  get (characters (font (handleReorder toIndex fromIndex
                           (handleReorder fromIndex toIndex s)))) i
  = if has sel i then get t i
    else if has sel (i - off) then Null
    else get (spread t) i.
Proof.
  intros Hne Hfrom Hto Hsel Hd off sel t.
  rewrite handleReorder_get;
    [ | congruence | assumption | now apply reverse_move_destinations ].
  rewrite !has_selected_after_move by assumption.
  rewrite get_spread.
  rewrite !handleReorder_get by assumption.
  fold off sel t.
  replace (i - (fromIndex - toIndex) - off) with i by (unfold off; lia).
  replace (i - (fromIndex - toIndex)) with (i + off) by (unfold off; lia).
  destruct (has sel i) eqn:Hi; [reflexivity|].
  destruct (has sel (i - off)) eqn:Hdst; [reflexivity|].
  rewrite get_spread. now destruct (is_array_index i).
Qed.

(** C7. A move that is carried out (indices, selection and destinations in
    the grid), followed by the reverse drag (from [toIndex] back to
    [fromIndex], on the selection that the first move left), puts back in
    every slot that was selected at first the slot content it had, wherever
    the destinations of the first move fell.  A destination of the first
    move outside the selection ends absent, what it held at first being
    lost, and every other slot is as it was. *)
Theorem move_round_trip (fromIndex toIndex : Z) (s : State) :
  in_grid fromIndex -> in_grid toIndex ->
  (forall x, In x (selected (selection s)) -> in_grid x) ->
  (forall d, In d (destinations (MoveDrag fromIndex toIndex) s) -> in_grid d) ->
  let off := toIndex - fromIndex in
  let sel := selected (selection s) in
  let t := characters (font s) in
  let t' := characters (font (handleReorder toIndex fromIndex
                                (handleReorder fromIndex toIndex s))) in
  (forall i, In i sel -> get t' i = get t i)
  /\ (forall i, ~ In i sel -> In (i - off) sel -> get t' i = Null)
  /\ (forall i, is_array_index i = true ->
                ~ In i sel -> ~ In (i - off) sel -> get t' i = get t i).
Proof.
  intros Hfrom Hto Hsel Hd off sel t t'.
  destruct (Z.eq_dec fromIndex toIndex) as [E|Hne].
  - assert (Ht : t' = t).
    { unfold t', t, handleReorder. subst toIndex. now rewrite !Z.eqb_refl. }
    rewrite Ht. split; [reflexivity|]. split; [|reflexivity].
    intros i Hn Hi. exfalso. apply Hn.
    replace i with (i - off) by (unfold off; lia). exact Hi.
  - assert (H : forall i,
               get t' i = if has sel i then get t i
                          else if has sel (i - off) then Null
                          else get (spread t) i).
    { intros i. unfold t'. now rewrite round_trip_get by assumption. }
    split; [|split].
    + intros i Hi. rewrite H. apply has_In in Hi. now rewrite Hi.
    + intros i Hn Hi. rewrite H.
      apply has_false in Hn. apply has_In in Hi. now rewrite Hn, Hi.
    + intros i Hidx Hn Hi. rewrite H.
      apply has_false in Hn. apply has_false in Hi.
      now rewrite Hn, Hi, get_spread, Hidx.
Qed.

(** Slots 2 and 3 dragged to 10 and 11 and back. *)
Lemma move_round_trip_witness :
  get (characters (font (handleReorder 10 2 (handleReorder 2 10 two_glyphs)))) 3
  = get (characters (font two_glyphs)) 3.
Proof.
  refine (proj1 (move_round_trip 2 10 two_glyphs _ _ _ _) 3 _).
  - unfold in_grid. lia.
  - unfold in_grid. lia.
  - intros x Hx. vm_compute in Hx. unfold in_grid.
    destruct Hx as [<-|[<-|[]]]; lia.
  - intros d Hd. vm_compute in Hd. unfold in_grid.
    destruct Hd as [<-|[<-|[]]]; lia.
  - vm_compute. auto.
Defined.

(** The proviso does not make the first move happen.  With characters in
    slots 0 and 1, both selected, the drag from 1 to 0 sends slot 0 to -1
    and is rejected, its other destination being the selected slot 0; the
    drag from 0 to 1 is then carried out on the selection as it was, and
    slot 0 is left absent. *)
Lemma rejected_move_is_not_undone : ~ round_trip_under_proviso.
Proof.
  intros H.
  assert (Hsel : forall x, In x (selected (selection glyphs_0_1)) -> in_grid x).
  { intros x Hx. vm_compute in Hx. unfold in_grid.
    destruct Hx as [<-|[<-|[]]]; lia. }
  assert (Hd : forall d, In d (destinations (MoveDrag 1 0) glyphs_0_1) ->
                         in_grid d -> In d (selected (selection glyphs_0_1))).
  { intros d Hd Hg. vm_compute in Hd. unfold in_grid in Hg.
    destruct Hd as [<-|[<-|[]]]; [lia | vm_compute; auto]. }
  specialize (H glyphs_0_1 1 0 ltac:(unfold in_grid; lia)
                ltac:(unfold in_grid; lia) ltac:(discriminate) Hsel Hd 0
                ltac:(vm_compute; auto)).
  vm_compute in H. discriminate H.
Qed.

(** When, moreover, the destinations that are not sources were absent
    slots, the round trip restores every slot of the table. *)
Lemma round_trip_restores_table (fromIndex toIndex : Z) (s : State) :
  in_grid fromIndex -> in_grid toIndex ->
  (forall x, In x (selected (selection s)) -> in_grid x) ->
  (forall d, In d (destinations (MoveDrag fromIndex toIndex) s) -> in_grid d) ->
  (forall d, In d (destinations (MoveDrag fromIndex toIndex) s) ->
             ~ In d (selected (selection s)) ->
             get (characters (font s)) d = Null) ->
  forall i, is_array_index i = true ->
    get (characters (font (handleReorder toIndex fromIndex
                             (handleReorder fromIndex toIndex s)))) i
    = get (characters (font s)) i.
Proof.
  intros Hfrom Hto Hsel Hd Hfree i Hi.
  destruct (Z.eq_dec fromIndex toIndex) as [->|Hne].
  - unfold handleReorder. now rewrite Z.eqb_refl.
  - rewrite round_trip_get by assumption.
    destruct (has (selected (selection s)) i) eqn:Hs; [reflexivity|].
    destruct (has (selected (selection s)) (i - (toIndex - fromIndex))) eqn:Hdst.
    + symmetry. apply Hfree.
      * simpl. apply In_plan_dst, In_sort_num. now apply has_In.
      * now apply has_false.
    + now rewrite get_spread, Hi.
Qed.

(** ** Clipboard *)

Lemma In_snapshot (s : State) (item : ClipItem) :
  In item (snapshot s)
  <-> exists idx,
        In idx (selected (selection s))
        /\ item = mkClipItem (idx - anchor (selection s))
                             (get (characters (font s)) idx)
        /\ get (characters (font s)) idx <> Null.
Proof.
  unfold snapshot. rewrite filter_In, in_map_iff. split.
  - intros ((idx & <- & Hidx) & Hnn). simpl in Hnn.
    exists idx. rewrite In_sort_num in Hidx. repeat split; [assumption|].
    intros E. now rewrite E in Hnn.
  - intros (idx & Hidx & -> & Hnn). split.
    + exists idx. now rewrite In_sort_num.
    + simpl. now destruct (get (characters (font s)) idx).
Qed.

(** The paste loop finishes when every clipboard entry holds a character,
    and is then a sequence of writes. *)
Lemma paste_loop_defined (pastes : list (Z * slot)) (nc : jsarray) :
  (forall p, In p pastes -> slot_truthy (snd p) = true) ->
  paste_loop pastes nc
  = Some (placeMoved (map (fun p => (fst p, pasted (snd p))) pastes) nc).
Proof.
  revert nc. induction pastes as [|[d x] pastes IH]; intros nc H; [reflexivity|].
  assert (Hx : slot_truthy x = true) by (apply (H (d, x)); now left).
  destruct x as [| |c]; try discriminate.
  simpl. apply IH. intros p Hp. apply H. now right.
Qed.

Lemma length_pos_iff {A : Type} (l : list A) :
  (0 <? Z.of_nat (length l)) = true <-> l <> [].
Proof. destruct l; simpl; split; intros H; easy. Qed.

(** C8. [handleCopySelection] stores one entry per selected index that
    holds a character, the pair of [index - anchor] and that character; the
    absent slots are dropped, and when nothing is left the state, and so the
    clipboard, is unchanged.  A later [handlePaste], in any state [s'] that
    holds this clipboard and whose destinations [anchor + offset] all lie in
    [0, 255], writes at each [anchor + offset] a new character with the
    segments of the stored one and with its name followed by [_copy], or
    [null] when the stored name is falsy; it leaves the other slots as they
    were, selects exactly the destinations and keeps the anchor.  When a
    destination lies outside [0, 255] the paste changes nothing.  Selection
    {4, 6} with anchor 4 over the characters [A] and [B] gives offsets 0 and
    2, and pasting with the anchor at 20 writes [A_copy] and [B_copy] in
    slots 20 and 22. *)
Theorem copy_then_paste (s : State) :
  (forall idx, In idx (selected (selection s)) ->
               get (characters (font s)) idx <> Undefined) ->
  let a := anchor (selection s) in
  let t := characters (font s) in
  let items := snapshot s in
  (forall item,
      In item items
      <-> exists idx c, In idx (selected (selection s))
                        /\ get t idx = Char c
                        /\ item = mkClipItem (idx - a) (Char c))
  /\ (items <> [] ->
      handleCopySelection s = mkState (font s) (selection s) (Some items))
  /\ (items = [] -> handleCopySelection s = s)
  /\ (forall s',
        clipboard s' = Some items ->
        items <> [] ->
        (forall item, In item items ->
                      in_grid (anchor (selection s') + offset item)) ->
        exists s'',
          handlePaste s' = Ok s''
          /\ anchor (selection s'') = anchor (selection s')
          /\ (forall d, In d (selected (selection s''))
                        <-> exists item, In item items
                                         /\ d = anchor (selection s') + offset item)
          /\ (forall idx c,
                In idx (selected (selection s)) -> get t idx = Char c ->
                get (characters (font s'')) (anchor (selection s') + (idx - a))
                = Char (mkChar (segments c)
                               (if truthy (name c)
                                then VStr (to_string (name c) ++ "_copy")
                                else VNull)))
          /\ (forall i,
                is_array_index i = true ->
                (forall item, In item items ->
                              i <> anchor (selection s') + offset item) ->
                get (characters (font s'')) i = get (characters (font s')) i))
  /\ (forall s',
        clipboard s' = Some items ->
        (exists item, In item items
                      /\ ~ in_grid (anchor (selection s') + offset item)) ->
        handlePaste s' = Ok s')
  /\ (snapshot glyphs_4_6
      = [mkClipItem 0 (Char (mkChar (VNum 5) (VStr "A")));
         mkClipItem 2 (Char (mkChar (VNum 9) (VStr "B")))]
      /\ match handlePaste (handleSelect 20 false false
                               (handleCopySelection glyphs_4_6)) with
         | Ok s'' =>
             get (characters (font s'')) 20
             = Char (mkChar (VNum 5) (VStr "A_copy"))
             /\ get (characters (font s'')) 22
                = Char (mkChar (VNum 9) (VStr "B_copy"))
             /\ selection s'' = mkSelection 20 [20; 22]
         | TypeError => False
         end).
Proof.
  intros Hdef a t items.
  assert (Hitems : forall item,
             In item items
             <-> exists idx c, In idx (selected (selection s))
                               /\ get t idx = Char c
                               /\ item = mkClipItem (idx - a) (Char c)).
  { intros item. unfold items. rewrite In_snapshot. fold a t. split.
    - intros (idx & Hidx & -> & Hnn).
      destruct (get t idx) as [| |c] eqn:E.
      + exfalso. now apply (Hdef idx).
      + contradiction.
      + now exists idx, c.
    - intros (idx & c & Hidx & Hc & ->). exists idx.
      rewrite Hc. repeat split; [assumption | discriminate]. }
  split; [exact Hitems|]. split; [|split; [|split; [|split]]].
  - intros Hne. unfold handleCopySelection. fold items.
    apply length_pos_iff in Hne. now rewrite Hne.
  - intros Hnil. unfold handleCopySelection. fold items. now rewrite Hnil.
  - intros s' Hclip Hne Hgrid.
    set (a' := anchor (selection s')) in *.
    set (writes := map (fun p => (fst p, pasted (snd p))) (pastes_of a' items)).
    assert (Hw : forall d x,
               In (d, x) writes
               <-> exists idx c, In idx (selected (selection s))
                                 /\ get t idx = Char c
                                 /\ d = a' + (idx - a)
                                 /\ x = Char (copy_of c)).
    { intros d x. unfold writes, pastes_of. rewrite map_map. simpl.
      rewrite in_map_iff. split.
      - intros (item & E & Hin). apply Hitems in Hin as (idx & c & Hidx & Hc & ->).
        simpl in E. injection E as <- <-. now exists idx, c.
      - intros (idx & c & Hidx & Hc & -> & ->).
        exists (mkClipItem (idx - a) (Char c)). split; [reflexivity|].
        apply Hitems. now exists idx, c. }
    exists (mkState (mkFont (font_name (font s'))
                       (placeMoved writes (spread (characters (font s')))))
                    (mkSelection a' (set_of_list (map fst (pastes_of a' items))))
                    (clipboard s')).
    split; [|split; [|split; [|split]]].
    + unfold handlePaste. rewrite Hclip.
      destruct (Z.eqb_spec (Z.of_nat (length items)) 0) as [E|_].
      { destruct items; [contradiction | discriminate]. }
      fold a'.
      assert (Hb : existsb (fun p => out_of_bounds (fst p)) (pastes_of a' items)
                   = false).
      { destruct (existsb _ (pastes_of a' items)) eqn:E; [|reflexivity].
        apply existsb_exists in E as (p & Hp & Hout).
        apply in_map_iff in Hp as (item & <- & Hin).
        apply out_of_bounds_true in Hout. exfalso. now apply Hout, Hgrid. }
      rewrite Hb. rewrite paste_loop_defined; [reflexivity|].
      intros p Hp. apply in_map_iff in Hp as (item & <- & Hin).
      apply Hitems in Hin as (idx & c & _ & _ & ->). reflexivity.
    + reflexivity.
    + intros d. cbn [selection selected]. rewrite In_set_of_list.
      unfold pastes_of. rewrite map_map. simpl. rewrite in_map_iff.
      split; intros (item & H1 & H2); exists item; intuition.
    + intros idx c Hidx Hc. cbn [font characters].
      apply placeMoved_at.
      * intros y z Hy Hz.
        apply Hw in Hy as (i1 & c1 & _ & Hc1 & E1 & ->).
        apply Hw in Hz as (i2 & c2 & _ & Hc2 & E2 & ->).
        assert (i1 = i2) by lia. subst i2. congruence.
      * apply Hw. now exists idx, c.
    + intros i Hi Hother. cbn [font characters].
      rewrite placeMoved_other.
      * now rewrite get_spread, Hi.
      * intros Hin. apply in_map_iff in Hin as ([d x] & E & Hin).
        simpl in E. subst d.
        apply Hw in Hin as (idx & c & Hidx & Hc & -> & _).
        apply (Hother (mkClipItem (idx - a) (Char c))); [|reflexivity].
        apply Hitems. now exists idx, c.
  - intros s' Hclip (item & Hin & Hout).
    unfold handlePaste. rewrite Hclip.
    destruct (Z.of_nat (length items) =? 0); [reflexivity|].
    replace (existsb (fun p => out_of_bounds (fst p))
               (pastes_of (anchor (selection s')) items)) with true;
      [reflexivity|].
    symmetry. apply existsb_exists.
    exists (anchor (selection s') + offset item, char item). split.
    + unfold pastes_of. apply in_map_iff. now exists item.
    + now apply out_of_bounds_true.
  - split; [vm_compute; reflexivity|].
    vm_compute. repeat split.
Qed.

(** With the anchor on 254 the stored offsets 0 and 2 lead to 254 and 256:
    the paste is rejected, and 256 is not selected. *)
Lemma paste_can_be_rejected : ~ paste_writes_wherever_the_anchor_is.
Proof.
  intros H.
  destruct (H clipboard_at_254 (snapshot glyphs_4_6) eq_refl)
    as (s' & Hpaste & _ & Hsel & _).
  - discriminate.
  - intros item Hin. vm_compute in Hin.
    destruct Hin as [<-|[<-|[]]]; reflexivity.
  - assert (E : handlePaste clipboard_at_254 = Ok clipboard_at_254)
      by (vm_compute; reflexivity).
    rewrite E in Hpaste. injection Hpaste as <-.
    assert (Hin : In 256 (selected (selection clipboard_at_254))).
    { apply Hsel. exists (mkClipItem 2 (Char glyph_B)).
      split; [vm_compute; auto | reflexivity]. }
    vm_compute in Hin. destruct Hin as [Hin|[]]. discriminate Hin.
Qed.

(** The clipboard taken from slots 4 and 6 holds the character of slot 6 at
    offset 2. *)
Lemma copy_then_paste_witness :
  In (mkClipItem 2 (Char glyph_B)) (snapshot glyphs_4_6).
Proof.
  apply (proj1 (copy_then_paste glyphs_4_6
                  ltac:(intros idx Hidx; vm_compute in Hidx;
                        destruct Hidx as [<-|[<-|[]]]; vm_compute; discriminate))).
  exists 6, glyph_B. repeat split. vm_compute. auto.
Defined.

(** ** The length of the table *)

Lemma length_set_grid (a : jsarray) (i : Z) (x : slot) :
  array_length a = 256 -> in_grid i -> array_length (set a i x) = 256.
Proof.
  intros Ha Hi. rewrite length_set_inside; [assumption|].
  unfold in_grid in Hi. lia.
Qed.

Create HintDb grid.
#[local] Hint Resolve length_set_grid : grid.

Lemma length_createEmptyFont (n : value) :
  array_length (characters (createEmptyFont n)) = 256.
Proof. reflexivity. Qed.

Lemma load_entry_length (a a' : jsarray) (idx : nat) (entry : value) :
  load_entry a idx entry = Some a' ->
  array_length a = 256 -> array_length a' = 256.
Proof.
  unfold load_entry. intros H Ha.
  destruct (Z.ltb_spec (Z.of_nat idx) 256) as [Hlt|_]; simpl in H.
  - destruct (is_not_null entry); [|now injection H as <-].
    destruct (get_field "segments" entry), (get_field "name" entry);
      try discriminate.
    injection H as <-. apply length_set_grid; [assumption|].
    unfold in_grid. lia.
  - now injection H as <-.
Qed.

Lemma forEach_load_length (items : list value) (idx : nat) (a a' : jsarray) :
  forEach_load items idx a = Some a' ->
  array_length a = 256 -> array_length a' = 256.
Proof.
  revert idx a. induction items as [|entry items IH]; intros idx a H Ha; simpl in H.
  - now injection H as <-.
  - destruct (load_entry a idx entry) as [a1|] eqn:E; [|discriminate].
    apply (IH _ _ H). apply (load_entry_length _ _ _ _ E Ha).
Qed.

(** Whatever is loaded, the table has 256 slots. *)
Lemma length_load_font (data : value) (f : Font) :
  load_font data = Some f -> array_length (characters f) = 256.
Proof.
  unfold load_font. intros H.
  destruct (get_field "characters" data) as [cs|]; [|discriminate].
  destruct (get_field "name" data) as [n|]; [|discriminate].
  assert (Hfill : array_length (array_fill 256 Null) = 256) by reflexivity.
  destruct (if truthy cs
            then match cs with
                 | VArr items => forEach_load items 0 (array_fill 256 Null)
                 | _ => None
                 end
            else Some (array_fill 256 Null)) as [a|] eqn:E; [|discriminate].
  assert (Ha : array_length a = 256).
  { destruct (truthy cs).
    - destruct cs; try discriminate. apply (forEach_load_length _ _ _ _ E Hfill).
    - now injection E as <-. }
  injection H as <-. simpl.
  destruct (slot_is_null (get a 0)); [|assumption].
  apply length_set_grid; [assumption | unfold in_grid; lia].
Qed.

Lemma length_select_font (index : Z) (shift : bool) (sel : list Z) (f : Font) :
  array_length (characters (select_font index shift sel f))
  = array_length (characters f).
Proof.
  unfold select_font.
  set (acc1 := fold_left (revert_empty index) sel (spread (characters f), false)).
  assert (H1 : array_length (fst acc1) = array_length (characters f)).
  { unfold acc1.
    apply (fold_left_invariant
             (fun acc => array_length (fst acc) = array_length (characters f)));
      [|reflexivity].
    intros acc p _ Hacc. unfold revert_empty.
    destruct (negb (p =? index)); [|assumption].
    destruct (get (fst acc) p) as [| |c] eqn:E; try assumption.
    destruct (is_empty_content c); [|assumption]. simpl.
    rewrite length_set_defined; [assumption | congruence]. }
  destruct (snd (auto_create index shift acc1)); [|reflexivity]. simpl.
  unfold auto_create.
  destruct (negb shift); simpl; [|assumption].
  destruct (get (fst acc1) index) eqn:E; simpl; try assumption.
  rewrite length_set_defined; [assumption | congruence].
Qed.

Lemma select_selection_grid (index : Z) (shift ctrl : bool) (sel : Selection) :
  in_grid index ->
  in_grid (anchor sel) ->
  (forall x, In x (selected sel) -> in_grid x) ->
  in_grid (anchor (select_selection index shift ctrl sel))
  /\ (forall x, In x (selected (select_selection index shift ctrl sel)) ->
                in_grid x).
Proof.
  intros Hi Ha Hs. unfold select_selection.
  destruct shift; simpl.
  - split; [assumption|]. intros x Hx.
    apply In_createSelectionRange in Hx. unfold in_grid in *. lia.
  - destruct ctrl; simpl.
    + destruct (has (selected sel) index) eqn:Hhas.
      * assert (Hdel : forall x, In x (delete (selected sel) index) -> in_grid x).
        { intros x Hx. apply In_delete in Hx. now apply Hs. }
        destruct (index =? anchor sel).
        -- destruct (delete (selected sel) index) as [|first rest] eqn:E; simpl.
           ++ split; [assumption|]. now intros x [<-|[]].
           ++ split; [apply Hdel; now left | exact Hdel].
        -- simpl. split; assumption.
      * simpl. split; [assumption|]. intros x Hx.
        apply In_add in Hx as [Hx| ->]; auto.
    + split; [assumption|]. now intros x [<-|[]].
Qed.

Lemma handleSelect_grid (index : Z) (shift ctrl : bool) (s : State) :
  in_grid index -> grid_state s -> grid_state (handleSelect index shift ctrl s).
Proof.
  intros Hi (Hlen & Ha & Hs). unfold grid_state, handleSelect. simpl.
  rewrite length_select_font. split; [assumption|].
  now apply select_selection_grid.
Qed.

Lemma clamp_grid (a : Z) : in_grid (clamp a).
Proof. unfold in_grid, clamp. lia. Qed.

Lemma plan_grid (sel : list Z) (off : Z) :
  existsb (fun m => out_of_bounds (dst m)) (plan sel off) = false ->
  forall m, In m (plan sel off) -> in_grid (dst m).
Proof.
  intros H m Hm. apply out_of_bounds_false.
  destruct (out_of_bounds (dst m)) eqn:E; [|reflexivity].
  rewrite <- H. symmetry. apply existsb_exists. now exists m.
Qed.

Lemma handleReorder_grid (fromIndex toIndex : Z) (s : State) :
  grid_state s -> grid_state (handleReorder fromIndex toIndex s).
Proof.
  intros Hg. pose proof Hg as (Hlen & Ha & Hs). unfold handleReorder.
  destruct (fromIndex =? toIndex); [assumption|].
  destruct (out_of_bounds toIndex); [assumption|].
  set (moves := plan (sort_num (selected (selection s))) (toIndex - fromIndex)).
  destruct (existsb (fun m => out_of_bounds (dst m)) moves) eqn:E; [assumption|].
  pose proof (plan_grid _ _ E) as Hdst. fold moves in Hdst.
  unfold grid_state. simpl. split; [|split].
  - unfold placeMoved.
    apply (fold_left_invariant (fun nc => array_length nc = 256)).
    + intros nc [d x] Hin Hnc. simpl.
      apply in_map_iff in Hin as (m & Em & Hm). injection Em as <- _.
      auto with grid.
    + unfold clearSources.
      apply (fold_left_invariant (fun nc => array_length nc = 256));
        [|assumption].
      intros nc m Hm Hnc. destruct (negb _); [|assumption].
      apply length_set_grid; [assumption|].
      apply Hs. apply In_plan in Hm as [Hm _]. now rewrite In_sort_num in Hm.
  - apply clamp_grid.
  - intros x Hx. rewrite In_set_of_list in Hx.
    apply in_map_iff in Hx as (m & <- & Hm). auto.
Qed.

Lemma handleCopyCharacter_grid (fromIndex toIndex : Z) (s : State) :
  grid_state s -> grid_state (handleCopyCharacter fromIndex toIndex s).
Proof.
  intros Hg. pose proof Hg as (Hlen & Ha & Hs). unfold handleCopyCharacter.
  destruct (fromIndex =? toIndex); [assumption|].
  destruct (out_of_bounds toIndex); [assumption|].
  set (copies := plan (sort_num (selected (selection s))) (toIndex - fromIndex)).
  destruct (existsb (fun c => out_of_bounds (dst c)) copies) eqn:E; [assumption|].
  pose proof (plan_grid _ _ E) as Hdst. fold copies in Hdst.
  unfold grid_state. simpl. split; [|split].
  - apply (fold_left_invariant (fun nc => array_length nc = 256)); [|assumption].
    intros nc m Hm Hnc.
    destruct (get (characters (font s)) (src m)); auto with grid.
  - apply clamp_grid.
  - intros x Hx. rewrite In_set_of_list in Hx.
    apply in_map_iff in Hx as (m & <- & Hm). auto.
Qed.

Lemma paste_loop_length (pastes : list (Z * slot)) (nc nc' : jsarray) :
  (forall p, In p pastes -> in_grid (fst p)) ->
  array_length nc = 256 ->
  paste_loop pastes nc = Some nc' ->
  array_length nc' = 256.
Proof.
  revert nc. induction pastes as [|[d x] pastes IH]; intros nc Hg Hnc H; simpl in H.
  - now injection H as <-.
  - destruct x as [| |c]; try discriminate.
    apply (IH (set nc d (Char (copy_of c)))); [| |assumption].
    + intros p Hp. apply Hg. now right.
    + apply length_set_grid; [assumption|]. apply (Hg (d, Char c)). now left.
Qed.

Lemma handlePaste_grid (s s' : State) :
  grid_state s -> handlePaste s = Ok s' -> grid_state s'.
Proof.
  intros Hg H. pose proof Hg as (Hlen & Ha & Hs). unfold handlePaste in H.
  destruct (clipboard s) as [items|]; [|now injection H as <-].
  destruct (Z.of_nat (length items) =? 0); [now injection H as <-|].
  set (pastes := pastes_of (anchor (selection s)) items) in *.
  destruct (existsb (fun p => out_of_bounds (fst p)) pastes) eqn:E;
    [now injection H as <-|].
  assert (Hdst : forall p, In p pastes -> in_grid (fst p)).
  { intros p Hp. apply out_of_bounds_false.
    destruct (out_of_bounds (fst p)) eqn:Ep; [|reflexivity].
    rewrite <- E. symmetry. apply existsb_exists. now exists p. }
  destruct (paste_loop pastes (spread (characters (font s)))) as [nc|] eqn:El;
    [|discriminate].
  injection H as <-. unfold grid_state. simpl. split; [|split].
  - apply (paste_loop_length pastes (spread (characters (font s))) nc Hdst);
      assumption.
  - assumption.
  - intros x Hx. rewrite In_set_of_list in Hx.
    apply in_map_iff in Hx as (p & <- & Hp). auto.
Qed.

Lemma handleResetSelection_grid (s : State) :
  grid_state s -> grid_state (handleResetSelection s).
Proof.
  intros (Hlen & Ha & Hs). unfold grid_state, handleResetSelection. simpl.
  split; [|split; assumption].
  apply (fold_left_invariant (fun nc => array_length nc = 256)); [|assumption].
  intros nc idx _ Hnc. destruct (get nc idx) eqn:E; try assumption.
  rewrite length_set_defined; [assumption | congruence].
Qed.

Lemma next_index_grid (k : string) (current : Z) :
  in_grid current -> in_grid (next_index k current).
Proof.
  unfold in_grid, next_index. intros H.
  repeat match goal with
         | |- context [if ?b then _ else _] => destruct b eqn:?
         end; lia.
Qed.

Lemma handleKeyDown_grid (e : KeyEvent) (s s' : State) :
  grid_state s -> handleKeyDown e s = Ok s' -> grid_state s'.
Proof.
  intros Hg H. unfold handleKeyDown in H.
  destruct ((ctrlKey e || metaKey e) && (key e =? "c")%string).
  { injection H as <-. unfold handleCopySelection.
    destruct (0 <? _); assumption. }
  destruct ((ctrlKey e || metaKey e) && (key e =? "v")%string).
  { now apply (handlePaste_grid s). }
  destruct ((key e =? "Delete")%string || (key e =? "Backspace")%string).
  { injection H as <-. now apply handleResetSelection_grid. }
  destruct (is_arrow (key e)); [|now injection H as <-].
  destruct (negb _); injection H as <-; [|assumption].
  apply handleSelect_grid; [|assumption].
  apply next_index_grid. exact (proj1 (proj2 Hg)).
Qed.

Lemma dispatch_grid (ev : Event) (s s' : State) :
  event_in_grid ev -> grid_state s -> dispatch ev s = Ok s' -> grid_state s'.
Proof.
  intros Hev Hg H. pose proof Hg as (Hlen & Ha & Hs).
  destruct ev; simpl in *.
  - injection H as <-. now apply handleSelect_grid.
  - now apply (handleKeyDown_grid e s).
  - injection H as <-. now apply handleReorder_grid.
  - injection H as <-. now apply handleCopyCharacter_grid.
  - injection H as <-. unfold grid_state, handleUpdateCharacter. simpl.
    auto with grid.
  - injection H as <-. unfold handleCopyFrom.
    destruct (get (characters (font s)) fromIndex); try assumption.
    unfold grid_state. simpl. auto with grid.
  - injection H as <-. exact Hg.
  - injection H as <-. unfold handleNewFont.
    destruct confirmed; [|assumption].
    unfold grid_state. simpl. repeat split; lia.
  - unfold handleLoadFont in H.
    destruct (load_font data) as [f|] eqn:E; [|discriminate].
    injection H as <-. unfold grid_state. simpl.
    split; [now apply (length_load_font data)|].
    split; [unfold in_grid; lia|].
    intros x [<-|[]]. unfold in_grid. lia.
Qed.

Lemma reachable_grid (s : State) : reachable s -> grid_state s.
Proof.
  induction 1 as [|s ev s' _ IH Hev Hstep].
  - unfold grid_state. simpl. repeat split; lia.
  - now apply (dispatch_grid ev s).
Qed.

(** C6. The table of the empty font and of every loaded font has 256
    slots, and so has the table of every state that the editor reaches from
    its initial state by clicks, keys, drags, edits, renames, new fonts and
    loads whose indices lie in [0, 255]. *)
Theorem table_length_is_256 :
  (forall n, array_length (characters (createEmptyFont n)) = 256)
  /\ (forall data f, load_font data = Some f ->
                     array_length (characters f) = 256)
  /\ (forall s, reachable s -> array_length (characters (font s)) = 256).
Proof.
  split; [exact length_createEmptyFont|].
  split; [exact length_load_font|].
  intros s H. now apply reachable_grid.
Qed.

(** The bound on the indices matters: a click outside the grid puts the
    anchor at 300, and an edit then grows the array to 301 elements. *)
Example edit_outside_grid_grows_table :
  array_length
    (characters (font (handleUpdateCharacter glyph_A
                         (handleSelect 300 false false initial_state))))
  = 301.
Proof. reflexivity. Qed.

(** The table after a click at 5 on the initial state. *)
Lemma table_length_is_256_witness :
  array_length (characters (font (handleSelect 5 false false initial_state)))
  = 256.
Proof.
  apply (proj2 (proj2 table_length_is_256)).
  apply (reachable_step initial_state (Click 5 false false)).
  - apply reachable_init.
  - unfold event_in_grid, in_grid. lia.
  - reflexivity.
Defined.

(** ** The anchor and the selected set *)

Lemma clamp_in_grid (a : Z) : in_grid a -> clamp a = a.
Proof. unfold in_grid, clamp. lia. Qed.

(** The transitions of [handleSelect] that keep the anchor selected: all
    but the ctrl-click on a selected index that is not the anchor. *)
Lemma select_keeps_anchor_selected (index : Z) (shift ctrl : bool) (sel : Selection) :
  anchor_selected sel ->
  shift = true \/ ctrl = false
  \/ ~ In index (selected sel) \/ index = anchor sel ->
  anchor_selected (select_selection index shift ctrl sel).
Proof.
  unfold anchor_selected, select_selection. intros Ha Hcase.
  destruct shift; simpl.
  { apply In_createSelectionRange. lia. }
  destruct ctrl; simpl; [|now left].
  destruct Hcase as [H|[H|[H|H]]]; try discriminate.
  - apply has_false in H. rewrite H. simpl. apply In_add. now right.
  - subst index. apply has_In in Ha. rewrite Ha, Z.eqb_refl.
    destruct (delete (selected sel) (anchor sel)); simpl; now left.
Qed.

(** A drag, move or copy, keeps the anchor selected. *)
Lemma drag_keeps_anchor_selected (fromIndex toIndex : Z) (s : State) :
  anchor_selected (selection s) ->
  anchor_selected (selection (handleReorder fromIndex toIndex s))
  /\ anchor_selected (selection (handleCopyCharacter fromIndex toIndex s)).
Proof.
  unfold anchor_selected, handleReorder, handleCopyCharacter. intros Ha.
  destruct (fromIndex =? toIndex); [auto|].
  destruct (out_of_bounds toIndex); [auto|].
  set (moves := plan (sort_num (selected (selection s))) (toIndex - fromIndex)).
  destruct (existsb (fun m => out_of_bounds (dst m)) moves) eqn:E; [auto|].
  assert (Hin : In (anchor (selection s) + (toIndex - fromIndex)) (map dst moves)).
  { apply In_plan_dst. rewrite In_sort_num.
    now replace (anchor (selection s) + (toIndex - fromIndex) - (toIndex - fromIndex))
      with (anchor (selection s)) by lia. }
  assert (Hg : in_grid (anchor (selection s) + (toIndex - fromIndex))).
  { apply in_map_iff in Hin as (m & <- & Hm). now apply (plan_grid _ _ E). }
  simpl. rewrite (clamp_in_grid _ Hg), In_set_of_list. auto.
Qed.

(** C1, on the code. Two transitions leave the anchor outside the selected
    set.  A ctrl-click on a selected index that is not the anchor removes
    the index and makes it the anchor: from anchor 5 and selected {3, 5}, a
    ctrl-click at 3 gives anchor 3 and selected {5}.  A paste keeps the
    anchor and selects the destinations: with slot 5 absent and anchor 5 in
    the selection {5, 6, 7}, a copy stores offsets 1 and 2 and the paste
    selects {6, 7}.  Both states are reached from the initial state. *)
Theorem anchor_can_leave_selection :
  (reachable picked_3_then_5
   /\ selection picked_3_then_5 = mkSelection 5 [3; 5]
   /\ selection (handleSelect 3 false true picked_3_then_5) = mkSelection 3 [5]
   /\ ~ anchor_selected (selection (handleSelect 3 false true picked_3_then_5)))
  /\ (reachable range_5_7
      /\ selection range_5_7 = mkSelection 5 [5; 6; 7]
      /\ match handleKeyDown ctrl_v (handleCopySelection range_5_7) with
         | Ok s' =>
             handleKeyDown ctrl_c range_5_7 = Ok (handleCopySelection range_5_7)
             /\ selection s' = mkSelection 5 [6; 7]
             /\ ~ anchor_selected (selection s')
         | TypeError => False
         end).
Proof.
  assert (Hclick : forall s i shift ctrl,
             reachable s -> in_grid i -> reachable (handleSelect i shift ctrl s)).
  { intros s i shift ctrl Hs Hi.
    now apply (reachable_step s (Click i shift ctrl)). }
  assert (Hedit : forall s c, reachable s -> reachable (handleUpdateCharacter c s)).
  { intros s c Hs. now apply (reachable_step s (UpdateCharacter c)). }
  split.
  - split; [|split; [|split]].
    + unfold picked_3_then_5.
      repeat (apply Hclick; [|unfold in_grid; lia]). apply reachable_init.
    + reflexivity.
    + reflexivity.
    + unfold anchor_selected. vm_compute. intros [H|[]]. discriminate H.
  - split; [|split].
    + unfold range_5_7.
      repeat first [ apply Hclick; [|unfold in_grid; lia] | apply Hedit ].
      apply reachable_init.
    + reflexivity.
    + vm_compute. repeat split. intros [H|[H|[]]]; discriminate H.
Qed.

(** * Further properties of the handlers *)

(** ** Loading: slot 0, dropped entries, rejected inputs *)

Lemma load_entry_skipped (a a' : jsarray) (idx : nat) (entry : value) :
  load_entry a idx entry = Some a' ->
  entry = VNull \/ (256 <= idx)%nat -> a' = a.
Proof.
  unfold load_entry. intros H Hskip.
  assert (E : (Z.of_nat idx <? 256) && is_not_null entry = false).
  { destruct Hskip as [->|Hge]; [apply andb_false_r|].
    apply andb_false_iff. left. lia. }
  rewrite E in H. now injection H.
Qed.

(** A slot for which no entry is kept is left as the loop found it. *)
Lemma forEach_load_absent (items : list value) (idx : nat) (a a' : jsarray) (j : Z) :
  forEach_load items idx a = Some a' ->
  (forall k entry, nth_error items k = Some entry ->
                   Z.of_nat (idx + k) = j -> entry = VNull) ->
  get a' j = get a j.
Proof.
  revert idx a. induction items as [|e items IH]; intros idx a H Hnone; simpl in H.
  - now injection H as <-.
  - destruct (load_entry a idx e) as [a1|] eqn:E; [|discriminate].
    rewrite (IH _ _ H).
    + destruct (Z.eq_dec j (Z.of_nat idx)) as [->|Hne].
      * rewrite (load_entry_skipped _ _ _ _ E); [reflexivity|].
        left. apply (Hnone 0%nat); [reflexivity | lia].
      * apply (load_entry_get _ _ _ _ _ E Hne).
    + intros k entry Hk Hj. apply (Hnone (S k)); [exact Hk | lia].
Qed.

Lemma forEach_load_beyond (items : list value) (idx : nat) (a : jsarray) :
  (256 <= idx)%nat -> forEach_load items idx a = Some a.
Proof.
  revert idx. induction items as [|e items IH]; intros idx H; simpl; [reflexivity|].
  unfold load_entry.
  replace (Z.of_nat idx <? 256) with false by (symmetry; lia).
  simpl. apply IH. lia.
Qed.

(** The loop throws exactly when one of the first 256 entries is
    [undefined]. *)
Lemma forEach_load_throws (items : list value) (idx : nat) (a : jsarray) :
  forEach_load items idx a = None
  <-> exists k, (idx + k < 256)%nat /\ nth_error items k = Some VUndefined.
Proof.
  revert idx a. induction items as [|e items IH]; intros idx a; simpl.
  - split; [discriminate | intros (k & _ & H); now destruct k].
  - destruct (load_entry a idx e) as [a1|] eqn:E.
    + rewrite IH. split.
      * intros (k & Hk & Hn). exists (S k). split; [lia | exact Hn].
      * intros (k & Hk & Hn). destruct k as [|k].
        -- simpl in Hn. injection Hn as ->. exfalso.
           unfold load_entry in E.
           replace (Z.of_nat idx <? 256) with true in E by (symmetry; lia).
           discriminate E.
        -- exists k. split; [lia | exact Hn].
    + split; [intros _ | reflexivity].
      exists 0%nat. unfold load_entry in E.
      destruct (Z.ltb_spec (Z.of_nat idx) 256) as [Hlt|Hge]; simpl in E;
        [|discriminate].
      split; [lia|]. simpl. f_equal.
      destruct e; simpl in E; try discriminate; reflexivity.
Qed.

Lemma get_array_fill (n : nat) (x : slot) (j : Z) :
  0 <= j < Z.of_nat n -> is_array_index j = true ->
  get (array_fill n x) j = x.
Proof.
  intros Hj Hidx. unfold get, array_fill. rewrite Hidx. simpl.
  apply nth_repeat_lt. lia.
Qed.

Lemma load_entry_defined (a a' : jsarray) (idx : nat) (entry : value) (j : Z) :
  load_entry a idx entry = Some a' ->
  get a j <> Undefined -> get a' j <> Undefined.
Proof.
  unfold load_entry. intros H Hj.
  destruct ((Z.of_nat idx <? 256) && is_not_null entry);
    [|now injection H as <-].
  destruct (get_field "segments" entry), (get_field "name" entry);
    try discriminate.
  injection H as <-. rewrite get_set.
  now destruct (Z.of_nat idx =? j).
Qed.

Lemma forEach_load_defined (items : list value) (idx : nat) (a a' : jsarray) (j : Z) :
  forEach_load items idx a = Some a' ->
  get a j <> Undefined -> get a' j <> Undefined.
Proof.
  revert idx a. induction items as [|e items IH]; intros idx a H Hj; simpl in H.
  - now injection H as <-.
  - destruct (load_entry a idx e) as [a1|] eqn:E; [|discriminate].
    apply (IH _ _ H). now apply (load_entry_defined _ _ _ _ _ E).
Qed.

Lemma load_entry_props (a a' : jsarray) (idx : nat) (entry : value) :
  load_entry a idx entry = Some a' -> props a' = props a.
Proof.
  unfold load_entry. intros H.
  destruct (Z.ltb_spec (Z.of_nat idx) 256) as [Hlt|_]; simpl in H;
    [|now injection H as <-].
  destruct (is_not_null entry); [|now injection H as <-].
  destruct (get_field "segments" entry), (get_field "name" entry);
    try discriminate.
  injection H as <-. apply props_set_index. unfold is_array_index. lia.
Qed.

Lemma forEach_load_props (items : list value) (idx : nat) (a a' : jsarray) :
  forEach_load items idx a = Some a' -> props a' = props a.
Proof.
  revert idx a. induction items as [|e items IH]; intros idx a H; simpl in H.
  - now injection H as <-.
  - destruct (load_entry a idx e) as [a1|] eqn:E; [|discriminate].
    rewrite (IH _ _ H). apply (load_entry_props _ _ _ _ E).
Qed.

(** The array that the load has filled, before slot 0 is looked at. *)
Lemma load_font_filled (data : value) (f : Font) :
  load_font data = Some f ->
  exists cs n a,
    get_field "characters" data = Some cs
    /\ get_field "name" data = Some n
    /\ (if truthy cs
        then exists items, cs = VArr items
                           /\ forEach_load items 0 (array_fill 256 Null) = Some a
        else a = array_fill 256 Null)
    /\ f = mkFont (or_else n (VStr "Loaded Font"))
                  (if slot_is_null (get a 0) then set a 0 (Char blank) else a).
Proof.
  unfold load_font. intros H.
  destruct (get_field "characters" data) as [cs|]; [|discriminate].
  destruct (get_field "name" data) as [n|]; [|discriminate].
  destruct (if truthy cs then _ else _) as [a|] eqn:E; [|discriminate].
  injection H as <-. exists cs, n, a. repeat split.
  destruct (truthy cs).
  - destruct cs; try discriminate. now exists items.
  - now injection E as <-.
Qed.

Lemma load_font_defined (data : value) (f : Font) (j : Z) :
  load_font data = Some f -> in_grid j -> get (characters f) j <> Undefined.
Proof.
  intros H Hj. destruct (load_font_filled _ _ H) as (cs & n & a & _ & _ & Ha & ->).
  assert (Hfill : get (array_fill 256 Null) j <> Undefined).
  { rewrite get_array_fill; [discriminate | exact Hj |].
    now apply in_grid_is_array_index. }
  assert (Haj : get a j <> Undefined).
  { destruct (truthy cs).
    - destruct Ha as (items & _ & Hfe). now apply (forEach_load_defined _ _ _ _ _ Hfe).
    - now subst a. }
  simpl. destruct (slot_is_null (get a 0)); [|exact Haj].
  rewrite get_set. now destruct (0 =? j).
Qed.

(** X1. Whatever is loaded, slot 0 of the new table holds a character, the
    selection is slot 0 alone with the anchor on it, and the clipboard is
    kept. *)
Theorem load_defines_slot_0 (data : value) (s s' : State) :
  handleLoadFont data s = Ok s' ->
  slot_truthy (get (characters (font s')) 0) = true
  /\ selection s' = mkSelection 0 [0]
  /\ slot_truthy (get (characters (font s')) (anchor (selection s'))) = true
  /\ clipboard s' = clipboard s.
Proof.
  unfold handleLoadFont. intros H.
  destruct (load_font data) as [f|] eqn:E; [|discriminate].
  injection H as <-. simpl.
  assert (H0 : slot_truthy (get (characters f) 0) = true).
  { pose proof (load_font_defined _ _ 0 E ltac:(unfold in_grid; lia)) as Hdef.
    destruct (load_font_filled _ _ E) as (cs & n & a & _ & _ & _ & ->).
    simpl in *. destruct (get a 0) eqn:E0; simpl in *.
    - congruence.
    - now rewrite get_set_same.
    - now rewrite E0. }
  repeat split; assumption.
Qed.

Lemma load_defines_slot_0_witness :
  slot_truthy
    (get (characters (font (mkState
            (mkFont (VStr "Loaded Font") (set (array_fill 256 Null) 0 (Char blank)))
            initial_selection None))) 0) = true.
Proof.
  apply (load_defines_slot_0 (VObj []) initial_state). reflexivity.
Defined.

(** X2. A slot of the grid for which the input has no entry, because the
    array is missing or too short or holds [null] there, is absent after the
    load, except slot 0, which gets a blank character.  Entries at index
    256 and beyond have no effect on the load. *)
Theorem load_drops_entries (data : value) (f : Font) :
  load_font data = Some f ->
  (forall i, in_grid i -> no_kept_entry data i ->
             get (characters f) i = if i =? 0 then Char blank else Null)
  /\ (forall items data',
        get_field "characters" data = Some (VArr items) ->
        get_field "characters" data' = Some (VArr (firstn 256 items)) ->
        get_field "name" data' = get_field "name" data ->
        load_font data' = Some f).
Proof.
  intros H. split.
  - intros i Hi Hnone.
    destruct (load_font_filled _ _ H) as (cs & n & a & Hcs & _ & Ha & ->).
    assert (Hidx : is_array_index i = true) by now apply in_grid_is_array_index.
    assert (Hai : get a i = Null).
    { destruct (truthy cs).
      - destruct Ha as (items & -> & Hfe).
        rewrite (forEach_load_absent _ _ _ _ i Hfe).
        + apply get_array_fill; [exact Hi | exact Hidx].
        + intros k entry Hk Hki. apply (Hnone items entry Hcs).
          now replace (Z.to_nat i) with k by lia.
      - subst a. apply get_array_fill; [exact Hi | exact Hidx]. }
    simpl. destruct (Z.eqb_spec i 0) as [->|Hne].
    + rewrite Hai. simpl. apply get_set_same.
    + destruct (slot_is_null (get a 0)); [|exact Hai].
      rewrite get_set_other by congruence. exact Hai.
  - intros items data' Hcs Hcs' Hname.
    unfold load_font in H |- *. rewrite Hcs in H. rewrite Hcs', Hname.
    destruct (get_field "name" data) as [n|]; [|discriminate].
    cbn [truthy] in H |- *.
    assert (E : forEach_load (firstn 256 items) 0 (array_fill 256 Null)
                = forEach_load items 0 (array_fill 256 Null)).
    { rewrite <- (firstn_skipn 256 items) at 2.
      assert (G : forall (l1 l2 : list value) idx a,
                 (256 <= idx + length l1)%nat \/ l2 = [] ->
                 forEach_load l1 idx a = forEach_load (l1 ++ l2) idx a).
      { induction l1 as [|e l1 IH]; intros l2 idx a Hlen; simpl.
        - destruct Hlen as [Hlen| ->]; [|reflexivity].
          simpl in Hlen. rewrite forEach_load_beyond by lia.
          destruct l2; reflexivity.
        - destruct (load_entry a idx e); [|reflexivity].
          apply IH. simpl in Hlen. destruct Hlen; [left; lia | now right]. }
      apply G.
      destruct (Nat.le_gt_cases 256 (length items)) as [Hge|Hlt].
      - left. rewrite length_firstn. lia.
      - right. apply skipn_all2. lia. }
    now rewrite E.
Qed.

Lemma load_drops_entries_witness :
  get (characters
         (mkFont (VStr "Loaded Font") (set (array_fill 256 Null) 0 (Char blank)))) 7
  = Null.
Proof.
  apply (proj1 (load_drops_entries
                  (VObj [("characters"%string, VArr [VNull; VNull])]) _ eq_refl)
               7).
  - unfold in_grid. lia.
  - intros items entry Hcs Hn. injection Hcs as <-. discriminate Hn.
Defined.

(** X3. The load throws, and leaves the state alone, exactly when [data] is
    [null] or [undefined], or [data.characters] is truthy and is not an
    array, or one of its first 256 entries is [undefined]. *)
Theorem load_rejects (data : value) :
  load_font data = None
  <-> get_field "characters" data = None
      \/ exists cs,
           get_field "characters" data = Some cs
           /\ truthy cs = true
           /\ match cs with
              | VArr items =>
                  exists k, (k < 256)%nat /\ nth_error items k = Some VUndefined
              | _ => True
              end.
Proof.
  unfold load_font.
  destruct data; simpl; try (split; [intros _; now left | reflexivity]).
  all: try (split; [discriminate | intros [H|(cs & H & Ht & _)];
                    [discriminate | now injection H as <-]]).
  destruct (truthy (lookup_field "characters" fields)) eqn:Ht.
  - destruct (lookup_field "characters" fields) as [| |b|z|str|items|fields0] eqn:Hcs;
      try discriminate;
      try (split; [intros _ | reflexivity]; right; eexists;
           split; [reflexivity|]; split; [exact Ht | exact I]).
    pose proof (forEach_load_throws items 0 (array_fill 256 Null)) as Hthrow.
    destruct (forEach_load items 0 (array_fill 256 Null)) as [a|].
    + split; [discriminate|].
      intros [H|(cs & H & _ & Hk)]; [discriminate|].
      injection H as <-. now apply Hthrow in Hk.
    + split; [intros _ | reflexivity]. right.
      exists (VArr items). repeat split. now apply Hthrow.
  - split; [discriminate|].
    intros [H|(cs & H & Ht' & _)]; [discriminate|].
    injection H as <-. congruence.
Qed.

(** ** Clicks: idempotence, the edited slot, ranges and toggles *)

Lemma select_font_clicked_not_null (index : Z) (sel : list Z) (f : Font) :
  slot_is_null
    (get (spread (characters (select_font index false sel f))) index) = false.
Proof.
  rewrite get_spread. destruct (is_array_index index) eqn:Hi; [|reflexivity].
  rewrite select_font_get by assumption.
  unfold coupled_slot. rewrite Z.eqb_refl. simpl.
  destruct (get (characters f) index) as [| |c]; reflexivity.
Qed.

(** X4. A plain click is idempotent: clicking again on the cell that was
    just clicked changes neither the table nor the selection. *)
Theorem plain_click_idempotent (index : Z) (s : State) :
  handleSelect index false false (handleSelect index false false s)
  = handleSelect index false false s.
Proof.
  unfold handleSelect at 1. cbn [selection select_selection font clipboard handleSelect].
  f_equal.
  unfold select_font at 1. simpl fold_left.
  unfold revert_empty at 1. rewrite Z.eqb_refl. simpl negb. cbv iota.
  unfold auto_create. cbn [fst snd negb andb].
  now rewrite select_font_clicked_not_null.
Qed.

(** X5. After a click without shift on a cell of the table (a slot that
    reads as [null] or as a character), that slot holds a character; after a
    plain click it is the anchor's slot, the one the editor panel shows. *)
Theorem click_makes_slot_editable (index : Z) (ctrl : bool) (s : State) :
  is_array_index index = true ->
  get (characters (font s)) index <> Undefined ->
  slot_truthy (get (characters (font (handleSelect index false ctrl s))) index)
  = true
  /\ (ctrl = false ->
      slot_truthy
        (get (characters (font (handleSelect index false false s)))
             (anchor (selection (handleSelect index false false s)))) = true).
Proof.
  intros Hi Hdef.
  assert (H : forall c, slot_truthy
             (get (characters (font (handleSelect index false c s))) index) = true).
  { intros c. unfold handleSelect. cbn [font].
    rewrite select_font_get by assumption.
    unfold coupled_slot. rewrite Z.eqb_refl. simpl.
    destruct (get (characters (font s)) index) as [| |ch]; [contradiction | | ];
      reflexivity. }
  split; [apply H|]. intros _. apply H.
Qed.

Lemma click_makes_slot_editable_witness :
  slot_truthy (get (characters (font (handleSelect 9 false false initial_state))) 9)
  = true.
Proof.
  refine (proj1 (click_makes_slot_editable 9 false initial_state eq_refl _)).
  vm_compute. discriminate.
Defined.

Lemma range_from_sorted (start : Z) (count : nat) :
  Sorted Z.lt (range_from start count).
Proof.
  unfold range_from. revert start.
  assert (G : forall base start, Sorted Z.lt
                (map (fun k => start + Z.of_nat k) (seq base count))).
  { induction count as [|count IH]; intros base start; simpl; [constructor|].
    constructor; [apply IH|].
    destruct count; simpl; constructor. lia. }
  intros start. apply G.
Qed.

Lemma range_from_NoDup (start : Z) (count : nat) : NoDup (range_from start count).
Proof.
  unfold range_from. apply Finite.Injective_map_NoDup; [|apply seq_NoDup].
  intros x y. lia.
Qed.

(** X6. A shift-click keeps the anchor and selects the whole interval
    between the anchor and the clicked index, whichever comes first: the
    selected set lists these indices once each, in ascending order, and has
    [|index - anchor| + 1] elements.  Shift wins over ctrl. *)
Theorem shift_click_selects_interval (index : Z) (ctrl : bool) (s : State) :
  let a := anchor (selection s) in
  let sel' := selection (handleSelect index true ctrl s) in
  anchor sel' = a
  /\ (forall x, In x (selected sel') <-> Z.min a index <= x <= Z.max a index)
  /\ Sorted Z.lt (selected sel')
  /\ NoDup (selected sel')
  /\ Z.of_nat (length (selected sel')) = Z.abs (index - a) + 1.
Proof.
  intros a sel'. unfold sel', handleSelect. cbn [selection select_selection anchor selected].
  fold a. split; [reflexivity|]. split; [|split; [|split]].
  - intros x. apply In_createSelectionRange.
  - apply range_from_sorted.
  - apply range_from_NoDup.
  - unfold createSelectionRange, range_from.
    rewrite length_map, length_seq. lia.
Qed.

Lemma delete_absent (l : list Z) (i : Z) : ~ In i l -> delete l i = l.
Proof.
  intros H. unfold delete. induction l as [|x l IH]; simpl; [reflexivity|].
  destruct (Z.eqb_spec x i) as [->|_]; simpl.
  - exfalso. apply H. now left.
  - f_equal. apply IH. intros Hin. apply H. now right.
Qed.

Lemma delete_app (l1 l2 : list Z) (i : Z) :
  delete (l1 ++ l2) i = delete l1 i ++ delete l2 i.
Proof. unfold delete. apply filter_app. Qed.

(** X7. Adding a cell to a non-empty selection with a ctrl-click and
    ctrl-clicking it again gives back the selected set it started from, in
    the same insertion order; the anchor ends on the first element of that
    order, not on the anchor it had. *)
Theorem ctrl_click_twice (index : Z) (sel : Selection) :
  ~ In index (selected sel) ->
  selected sel <> [] ->
  let once := select_selection index false true sel in
  let twice := select_selection index false true once in
  once = mkSelection index (selected sel ++ [index])
  /\ selected twice = selected sel
  /\ Some (anchor twice) = hd_error (selected sel).
Proof.
  intros Hnot Hne once twice.
  assert (Honce : once = mkSelection index (selected sel ++ [index])).
  { unfold once, select_selection. simpl.
    apply has_false in Hnot. rewrite Hnot. unfold add. now rewrite Hnot. }
  split; [exact Honce|].
  assert (Htwice : twice = match selected sel with
                           | first :: _ => mkSelection first (selected sel)
                           | [] => mkSelection index [index]
                           end).
  { unfold twice. rewrite Honce. unfold select_selection.
    cbn [selected anchor].
    assert (Hhas : has (selected sel ++ [index]) index = true).
    { apply has_In, in_or_app. right. now left. }
    rewrite Hhas, Z.eqb_refl, delete_app, (delete_absent _ _ Hnot).
    unfold delete at 1. simpl. rewrite Z.eqb_refl. simpl.
    now rewrite app_nil_r. }
  rewrite Htwice. destruct (selected sel); [contradiction|].
  split; reflexivity.
Qed.

Lemma ctrl_click_twice_witness :
  selected (select_selection 7 false true
              (select_selection 7 false true (mkSelection 3 [5; 3])))
  = selected (mkSelection 3 [5; 3]).
Proof.
  apply (ctrl_click_twice 7 (mkSelection 3 [5; 3])).
  - simpl. lia.
  - discriminate.
Defined.

(** X8. The selected set stays non-empty: through a click of any kind when
    the anchor is selected, and through every move, copy-drag and paste. *)
Theorem selection_stays_non_empty (s : State) :
  (forall index shift ctrl,
      anchor_selected (selection s) ->
      selected (selection (handleSelect index shift ctrl s)) <> [])
  /\ (forall g s',
        selected (selection s) <> [] ->
        perform g s = Ok s' ->
        selected (selection s') <> []).
Proof.
  split.
  - intros index shift ctrl Ha.
    unfold handleSelect. cbn [selection]. unfold select_selection.
    destruct shift.
    { simpl. intros E.
      assert (Hin : In (anchor (selection s))
                       (createSelectionRange (anchor (selection s)) index)).
      { apply In_createSelectionRange. lia. }
      now rewrite E in Hin. }
    destruct ctrl; [|discriminate].
    destruct (has (selected (selection s)) index) eqn:Hhas.
    + destruct (Z.eqb_spec index (anchor (selection s))) as [->|Hne].
      * destruct (delete _ _) eqn:E; simpl; [discriminate | congruence].
      * simpl. intros E.
        assert (Hin : In (anchor (selection s))
                         (delete (selected (selection s)) index)).
        { apply In_delete. split; [exact Ha | congruence]. }
        now rewrite E in Hin.
    + simpl. unfold add. rewrite Hhas. now destruct (selected (selection s)).
  - intros g s' Hne Hg.
    assert (Hdrag : forall off,
               set_of_list (map dst (plan (sort_num (selected (selection s))) off))
               <> []).
    { intros off E. destruct (selected (selection s)) as [|x l] eqn:Es;
        [contradiction|].
      assert (Hin : In (x + off)
                       (set_of_list (map dst (plan (sort_num (x :: l)) off)))).
      { rewrite In_set_of_list, In_plan_dst, In_sort_num.
        left. lia. }
      now rewrite E in Hin. }
    destruct g as [fromIndex toIndex | fromIndex toIndex | ]; simpl in Hg.
    + injection Hg as <-. unfold handleReorder.
      destruct (fromIndex =? toIndex); [assumption|].
      destruct (out_of_bounds toIndex); [assumption|].
      destruct (existsb _ _); [assumption|]. simpl. apply Hdrag.
    + injection Hg as <-. unfold handleCopyCharacter.
      destruct (fromIndex =? toIndex); [assumption|].
      destruct (out_of_bounds toIndex); [assumption|].
      destruct (existsb _ _); [assumption|]. simpl. apply Hdrag.
    + unfold handlePaste in Hg.
      destruct (clipboard s) as [items|]; [|now injection Hg as <-].
      destruct (Z.of_nat (length items) =? 0) eqn:El; [now injection Hg as <-|].
      destruct (existsb _ _); [now injection Hg as <-|].
      destruct (paste_loop _ _); [|discriminate].
      injection Hg as <-. simpl.
      destruct items as [|item items]; [discriminate|]. simpl.
      intros E.
      assert (Hin : In (anchor (selection s) + offset item)
                       (set_of_list
                          (anchor (selection s) + offset item
                           :: map fst (pastes_of (anchor (selection s)) items)))).
      { apply In_set_of_list. now left. }
      now rewrite E in Hin.
Qed.

Lemma selection_stays_non_empty_witness :
  selected (selection (handleSelect 3 false true two_glyphs)) <> [].
Proof.
  apply (proj1 (selection_stays_non_empty two_glyphs)).
  unfold anchor_selected. vm_compute. auto.
Defined.

(** Without the anchor in the selected set the selection can become empty:
    after the clicks 3, ctrl 5, ctrl 3 the anchor is the deselected 3, and a
    ctrl-click at 5 removes the last selected index. *)
Example selection_can_become_empty :
  selection (handleSelect 5 false true (handleSelect 3 false true picked_3_then_5))
  = mkSelection 5 [].
Proof. reflexivity. Qed.

(** ** Reset, copy-drag and the anchor after a drag *)

Lemma reset_loop_get (sel : list Z) (nc : jsarray) (i : Z) :
  get (fold_left
         (fun nc idx =>
            match get nc idx with
            | Char c => set nc idx (Char (mkChar (VNum 0) (name c)))
            | Null | Undefined => nc
            end) sel nc) i
  = match get nc i with
    | Char c => if has sel i then Char (mkChar (VNum 0) (name c)) else Char c
    | x => x
    end.
Proof.
  revert nc. induction sel as [|p sel IH]; intros nc; simpl.
  - now destruct (get nc i).
  - rewrite IH. unfold has. simpl.
    destruct (Z.eqb_spec i p) as [->|Hne]; simpl.
    + destruct (get nc p) as [| |c] eqn:E; rewrite ?E; try reflexivity.
      rewrite get_set_same. simpl. now destruct (existsb _ sel).
    + destruct (get nc p) as [| |c] eqn:E; try reflexivity.
      rewrite get_set_other by congruence. reflexivity.
Qed.

(** X9. Reset sets the segments of every selected slot that holds a
    character to 0 and keeps its name; the absent slots and the slots
    outside the selection are as they were, and so are the selection and the
    clipboard.  A second reset changes nothing more. *)
Theorem reset_clears_segments (s : State) :
  let t := characters (font s) in
  let s' := handleResetSelection s in
  (forall i, is_array_index i = true ->
     get (characters (font s')) i
     = match get t i with
       | Char c =>
           if has (selected (selection s)) i
           then Char (mkChar (VNum 0) (name c)) else Char c
       | x => x
       end)
  /\ selection s' = selection s
  /\ clipboard s' = clipboard s
  /\ (forall i, get (characters (font (handleResetSelection s'))) i
                = get (characters (font s')) i).
Proof.
  intros t s'.
  assert (H : forall st i,
             get (characters (font (handleResetSelection st))) i
             = match get (spread (characters (font st))) i with
               | Char c =>
                   if has (selected (selection st)) i
                   then Char (mkChar (VNum 0) (name c)) else Char c
               | x => x
               end).
  { intros st i. unfold handleResetSelection, reset_font. cbn [font characters].
    apply reset_loop_get. }
  split; [|split; [reflexivity | split; [reflexivity|]]].
  - intros i Hi. unfold s'. rewrite H, get_spread, Hi. reflexivity.
  - intros i. rewrite (H s' i), get_spread.
    unfold s'. rewrite (H s i), get_spread.
    cbn [selection handleResetSelection].
    destruct (is_array_index i); [|reflexivity].
    destruct (get (characters (font s)) i) as [| |c]; try reflexivity.
    destruct (has (selected (selection s)) i) eqn:Hh; rewrite ?Hh; reflexivity.
Qed.

Lemma reset_clears_segments_witness :
  get (characters (font (handleResetSelection two_glyphs))) 2
  = Char (mkChar (VNum 0) (VStr "A"))
  /\ get (characters (font (handleResetSelection two_glyphs))) 0 = Null.
Proof.
  pose proof (reset_clears_segments two_glyphs) as H. cbv zeta in H.
  destruct H as [H _].
  split; [rewrite (H 2 eq_refl) | rewrite (H 0 eq_refl)]; reflexivity.
Defined.

(** The copy loop writes the copy of the source at each destination whose
    source holds a character and nothing else. *)
Lemma copy_loop_get (t : jsarray) (off : Z) (l : list Move) (nc : jsarray) (i : Z) :
  (forall m, In m l -> dst m = src m + off) ->
  get (fold_left
         (fun nc m =>
            match get t (src m) with
            | Char sourceChar => set nc (dst m) (Char (copy_of sourceChar))
            | Null | Undefined => nc
            end) l nc) i
  = if existsb (fun m => dst m =? i) l
    then match get t (i - off) with
         | Char c => Char (copy_of c)
         | Null | Undefined => get nc i
         end
    else get nc i.
Proof.
  revert nc. induction l as [|m l IH]; intros nc Hl; [reflexivity|].
  cbn [fold_left existsb].
  rewrite IH by (intros m' Hm'; apply Hl; now right).
  assert (Hm : dst m = src m + off) by (apply Hl; now left).
  destruct (Z.eqb_spec (dst m) i) as [E|Hne]; cbn [orb].
  - replace (i - off) with (src m) by lia.
    destruct (get t (src m)) as [| |c] eqn:Es.
    + now destruct (existsb _ l).
    + now destruct (existsb _ l).
    + rewrite E, get_set_same. now destruct (existsb _ l).
  - destruct (get t (src m)) as [| |c] eqn:Es; try reflexivity.
    rewrite get_set_other by assumption. reflexivity.
Qed.

Lemma has_plan_dst_eq (sel : list Z) (off i : Z) :
  existsb (fun m => dst m =? i) (plan sel off) = has sel (i - off).
Proof.
  apply bool_eq_iff. rewrite has_In, existsb_exists. split.
  - intros (m & Hm & E). apply In_plan in Hm as [Hm Hd].
    apply Z.eqb_eq in E. now replace (i - off) with (src m) by lia.
  - intros H. exists (mkMove (i - off) i). split; [|apply Z.eqb_refl].
    apply In_plan. simpl. split; [assumption | lia].
Qed.

(** A copy-drag that passes the three guards. *)
Lemma handleCopyCharacter_performed (fromIndex toIndex : Z) (s : State) :
  fromIndex <> toIndex ->
  in_grid toIndex ->
  (forall d, In d (destinations (CopyDrag fromIndex toIndex) s) -> in_grid d) ->
  handleCopyCharacter fromIndex toIndex s
  = let copies := plan (sort_num (selected (selection s))) (toIndex - fromIndex) in
    mkState (copy_font copies (font s))
            (mkSelection (clamp (anchor (selection s) + (toIndex - fromIndex)))
                         (set_of_list (map dst copies)))
            (clipboard s).
Proof.
  intros Hne Hto Hd. unfold handleCopyCharacter.
  destruct (Z.eqb_spec fromIndex toIndex); [contradiction|].
  apply out_of_bounds_false in Hto. rewrite Hto.
  simpl in Hd. now rewrite (no_destination_out_of_bounds _ Hd).
Qed.

(** X10. A copy-drag that is carried out writes, at every destination whose
    source holds a character, a new character made from the source as it
    was before the drag: the same segments, and the name, printed as a
    template literal prints it, followed by [_copy], or [null] when the name
    is falsy.  A destination whose source is absent keeps what it held, and
    so does every slot that is not a destination, the sources among them. *)
Theorem copy_drag_copies_sources (fromIndex toIndex : Z) (s : State) :
  fromIndex <> toIndex ->
  in_grid toIndex ->
  (forall d, In d (destinations (CopyDrag fromIndex toIndex) s) -> in_grid d) ->
  let off := toIndex - fromIndex in
  let sel := selected (selection s) in
  let t := characters (font s) in
  let t' := characters (font (handleCopyCharacter fromIndex toIndex s)) in
  (forall x c, In x sel -> get t x = Char c ->
               get t' (x + off)
               = Char (mkChar (segments c)
                              (if truthy (name c)
                               then VStr (to_string (name c) ++ "_copy")
                               else VNull)))
  /\ (forall x, In x sel -> slot_truthy (get t x) = false ->
                is_array_index (x + off) = true ->
                get t' (x + off) = get t (x + off))
  /\ (forall i, is_array_index i = true -> ~ In (i - off) sel ->
                get t' i = get t i).
Proof.
  intros Hne Hto Hd off sel t t'.
  assert (H : forall i,
             get t' i
             = if has sel (i - off)
               then match get t (i - off) with
                    | Char c => Char (copy_of c)
                    | Null | Undefined => get (spread t) i
                    end
               else get (spread t) i).
  { intros i. unfold t'. rewrite handleCopyCharacter_performed by assumption.
    cbv zeta. cbn [font]. unfold copy_font. cbn [characters].
    rewrite (copy_loop_get _ (toIndex - fromIndex)).
    - now rewrite has_plan_dst_eq, has_sort_num.
    - intros m Hm. now apply In_plan in Hm. }
  split; [|split].
  - intros x c Hx Hc. rewrite H.
    replace (x + off - off) with x by lia.
    apply has_In in Hx. now rewrite Hx, Hc.
  - intros x Hx Habs Hidx. rewrite H.
    replace (x + off - off) with x by lia.
    apply has_In in Hx. rewrite Hx, get_spread, Hidx.
    now destruct (get t x).
  - intros i Hi Hn. rewrite H. apply has_false in Hn.
    now rewrite Hn, get_spread, Hi.
Qed.

Lemma copy_drag_copies_sources_witness :
  get (characters (font (handleCopyCharacter 2 10 two_glyphs))) (3 + (10 - 2))
  = Char (mkChar (VNum 9) (VStr "B_copy")).
Proof.
  refine (proj1 (copy_drag_copies_sources 2 10 two_glyphs _ _ _) 3 glyph_B _ _).
  - lia.
  - unfold in_grid. lia.
  - intros d Hd. vm_compute in Hd. unfold in_grid.
    destruct Hd as [<-|[<-|[]]]; lia.
  - vm_compute. auto.
  - reflexivity.
Defined.

(** X11. After a move or a copy-drag that is carried out from a state whose
    anchor is selected, the anchor is the old anchor plus the offset (the
    clamp to [0, 255] changes nothing), the selected set is the old one
    shifted by the offset, and the clipboard is untouched. *)
Theorem drag_shifts_selection (fromIndex toIndex : Z) (s : State) :
  fromIndex <> toIndex ->
  in_grid toIndex ->
  (forall d, In d (destinations (MoveDrag fromIndex toIndex) s) -> in_grid d) ->
  anchor_selected (selection s) ->
  let off := toIndex - fromIndex in
  forall s',
    s' = handleReorder fromIndex toIndex s
    \/ s' = handleCopyCharacter fromIndex toIndex s ->
    anchor (selection s') = anchor (selection s) + off
    /\ (forall d, In d (selected (selection s'))
                  <-> In (d - off) (selected (selection s)))
    /\ clipboard s' = clipboard s.
Proof.
  intros Hne Hto Hd Ha off s' Hs'.
  assert (Hsel : selection s'
                 = mkSelection (clamp (anchor (selection s) + off))
                     (set_of_list
                        (map dst (plan (sort_num (selected (selection s))) off)))
                 /\ clipboard s' = clipboard s).
  { destruct Hs' as [-> | ->].
    - now rewrite handleReorder_performed by assumption.
    - now rewrite handleCopyCharacter_performed by assumption. }
  destruct Hsel as [-> Hclip]. cbn [anchor selected].
  split; [|split; [|exact Hclip]].
  - apply clamp_in_grid. apply Hd. unfold destinations. fold off.
    rewrite In_plan_dst, In_sort_num.
    replace (anchor (selection s) + off - off) with (anchor (selection s)) by lia.
    exact Ha.
  - intros d. now rewrite In_set_of_list, In_plan_dst, In_sort_num.
Qed.

Lemma drag_shifts_selection_witness :
  anchor (selection (handleReorder 2 10 two_glyphs))
  = anchor (selection two_glyphs) + (10 - 2).
Proof.
  refine (proj1 (drag_shifts_selection 2 10 two_glyphs _ _ _ _ _ (or_introl eq_refl))).
  - lia.
  - unfold in_grid. lia.
  - intros d Hd. vm_compute in Hd. unfold in_grid.
    destruct Hd as [<-|[<-|[]]]; lia.
  - unfold anchor_selected. vm_compute. auto.
Defined.

(** ** What every reachable state satisfies *)

Lemma table_ok_set (a : jsarray) (i : Z) (x : slot) :
  table_ok a -> is_array_index i = true -> x <> Undefined ->
  table_ok (set a i x).
Proof.
  intros [Hp Hd] Hi Hx. split.
  - now rewrite props_set_index.
  - intros j Hj. rewrite get_set. destruct (i =? j); auto.
Qed.

Lemma table_ok_spread (a : jsarray) : table_ok a -> table_ok (spread a).
Proof.
  intros [Hp Hd]. split; [reflexivity|].
  intros j Hj. rewrite get_spread, (in_grid_is_array_index _ Hj). auto.
Qed.

(** In a plain array only array indices read as something. *)
Lemma plain_defined_is_index (a : jsarray) (i : Z) :
  props a = [] -> get a i <> Undefined -> is_array_index i = true.
Proof.
  intros Hp H. unfold get in H. destruct (is_array_index i); [reflexivity|].
  rewrite Hp in H. now contradiction H.
Qed.

Lemma table_ok_set_defined (a : jsarray) (i : Z) (x : slot) :
  table_ok a -> get a i <> Undefined -> x <> Undefined -> table_ok (set a i x).
Proof.
  intros Ha Hi Hx. apply table_ok_set; try assumption.
  apply (plain_defined_is_index a); [apply Ha | assumption].
Qed.

Lemma select_font_ok (index : Z) (shift : bool) (sel : list Z) (f : Font) :
  table_ok (characters f) -> table_ok (characters (select_font index shift sel f)).
Proof.
  intros Hf. unfold select_font.
  set (acc1 := fold_left (revert_empty index) sel (spread (characters f), false)).
  assert (H1 : table_ok (fst acc1)).
  { unfold acc1.
    apply (fold_left_invariant (fun acc => table_ok (fst acc)));
      [|now apply table_ok_spread].
    intros acc p _ Hacc. unfold revert_empty.
    destruct (negb (p =? index)); [|assumption].
    destruct (get (fst acc) p) as [| |c] eqn:E; try assumption.
    destruct (is_empty_content c); [|assumption]. simpl.
    apply table_ok_set_defined; [assumption | congruence | discriminate]. }
  destruct (snd (auto_create index shift acc1)); [|assumption]. simpl.
  unfold auto_create.
  destruct (negb shift); simpl; [|assumption].
  destruct (get (fst acc1) index) eqn:E; simpl; try assumption.
  apply table_ok_set_defined; [assumption | congruence | discriminate].
Qed.

Lemma reorder_font_ok (sel : list Z) (off : Z) (f : Font) :
  table_ok (characters f) ->
  (forall x, In x sel -> in_grid x) ->
  (forall x, In x sel -> in_grid (x + off)) ->
  table_ok (characters (reorder_font (plan sel off) f)).
Proof.
  intros Hf Hsrc Hdst. unfold reorder_font. cbn [characters].
  unfold placeMoved.
  apply (fold_left_invariant table_ok).
  - intros nc [d x] Hin Hnc. simpl.
    apply In_movedChars in Hin as [Hs ->].
    apply table_ok_set; [assumption | |].
    + apply in_grid_is_array_index. specialize (Hdst _ Hs).
      now replace (d - off + off) with d in Hdst by lia.
    + apply Hf. now apply Hsrc.
  - unfold clearSources.
    apply (fold_left_invariant table_ok); [|now apply table_ok_spread].
    intros nc m Hm Hnc. destruct (negb _); [|assumption].
    apply In_plan in Hm as [Hm _].
    apply table_ok_set; [assumption | | discriminate].
    apply in_grid_is_array_index. now apply Hsrc.
Qed.

Lemma copy_font_ok (sel : list Z) (off : Z) (f : Font) :
  table_ok (characters f) ->
  (forall x, In x sel -> in_grid (x + off)) ->
  table_ok (characters (copy_font (plan sel off) f)).
Proof.
  intros Hf Hdst. unfold copy_font. cbn [characters].
  apply (fold_left_invariant table_ok); [|now apply table_ok_spread].
  intros nc m Hm Hnc. apply In_plan in Hm as [Hm Hd].
  destruct (get (characters f) (src m)); try assumption.
  apply table_ok_set; [assumption | | discriminate].
  apply in_grid_is_array_index. rewrite Hd. now apply Hdst.
Qed.

Lemma paste_loop_ok (pastes : list (Z * slot)) (nc nc' : jsarray) :
  (forall p, In p pastes -> in_grid (fst p)) ->
  table_ok nc -> paste_loop pastes nc = Some nc' -> table_ok nc'.
Proof.
  revert nc. induction pastes as [|[d x] pastes IH]; intros nc Hg Hnc H; simpl in H.
  - now injection H as <-.
  - destruct x as [| |c]; try discriminate.
    apply (IH (set nc d (Char (copy_of c)))); [| |assumption].
    + intros p Hp. apply Hg. now right.
    + apply table_ok_set; [assumption | | discriminate].
      apply in_grid_is_array_index. apply (Hg (d, Char c)). now left.
Qed.

Lemma reset_font_ok (sel : list Z) (f : Font) :
  table_ok (characters f) -> table_ok (characters (reset_font sel f)).
Proof.
  intros Hf. unfold reset_font. cbn [characters].
  apply (fold_left_invariant table_ok); [|now apply table_ok_spread].
  intros nc idx _ Hnc. destruct (get nc idx) eqn:E; try assumption.
  apply table_ok_set_defined; [assumption | congruence | discriminate].
Qed.

Lemma load_font_ok (data : value) (f : Font) :
  load_font data = Some f -> table_ok (characters f).
Proof.
  intros H. split; [|intros i Hi; now apply (load_font_defined data)].
  destruct (load_font_filled _ _ H) as (cs & n & a & _ & _ & Ha & ->).
  assert (Hp : props a = []).
  { destruct (truthy cs).
    - destruct Ha as (items & _ & Hfe). now rewrite (forEach_load_props _ _ _ _ Hfe).
    - now subst a. }
  simpl. destruct (slot_is_null (get a 0)); [|exact Hp].
  now rewrite props_set_index.
Qed.

Lemma createEmptyFont_ok (n : value) : table_ok (characters (createEmptyFont n)).
Proof.
  unfold createEmptyFont. cbn [characters].
  apply table_ok_set; [|reflexivity | discriminate].
  split; [reflexivity|]. intros i Hi.
  rewrite get_array_fill; [discriminate | exact Hi |].
  now apply in_grid_is_array_index.
Qed.

Lemma snapshot_holds_characters (s : State) (item : ClipItem) :
  grid_state s -> table_ok (characters (font s)) ->
  In item (snapshot s) -> slot_truthy (char item) = true.
Proof.
  intros (_ & _ & Hs) [_ Hd] Hin.
  apply In_snapshot in Hin as (idx & Hidx & -> & Hnn). simpl.
  specialize (Hd idx (Hs idx Hidx)).
  now destruct (get (characters (font s)) idx).
Qed.

Lemma well_formed_intro (s : State) :
  grid_state s -> table_ok (characters (font s)) ->
  (forall items item, clipboard s = Some items -> In item items ->
                      slot_truthy (char item) = true) ->
  well_formed s.
Proof.
  intros Hg [Hp Hd] Hc. unfold well_formed.
  split; [exact Hg|]. split; [exact Hp|]. split; [exact Hd | exact Hc].
Qed.

Lemma well_formed_table (s : State) :
  well_formed s -> table_ok (characters (font s)).
Proof. intros (_ & Hp & Hd & _). now split. Qed.

Lemma handleSelect_well_formed (index : Z) (shift ctrl : bool) (s : State) :
  in_grid index -> well_formed s -> well_formed (handleSelect index shift ctrl s).
Proof.
  intros Hi Hw. pose proof Hw as (Hg & _ & _ & Hc).
  apply well_formed_intro.
  - now apply handleSelect_grid.
  - apply select_font_ok. now apply well_formed_table.
  - exact Hc.
Qed.

Lemma handlePaste_clipboard (s s' : State) :
  handlePaste s = Ok s' -> clipboard s' = clipboard s.
Proof.
  unfold handlePaste. intros H.
  destruct (clipboard s) as [items|] eqn:Ecl; [|injection H as <-; exact Ecl].
  destruct (Z.of_nat (length items) =? 0); [injection H as <-; exact Ecl|].
  destruct (existsb _ _); [injection H as <-; exact Ecl|].
  destruct (paste_loop _ _); [|discriminate].
  now injection H as <-.
Qed.

Lemma handlePaste_well_formed (s s' : State) :
  well_formed s -> handlePaste s = Ok s' -> well_formed s'.
Proof.
  intros Hw H. pose proof Hw as (Hg & _ & _ & Hc).
  apply well_formed_intro.
  - now apply (handlePaste_grid s).
  - pose proof (well_formed_table _ Hw) as Ht.
    unfold handlePaste in H.
    destruct (clipboard s) as [items|]; [|now injection H as <-].
    destruct (Z.of_nat (length items) =? 0); [now injection H as <-|].
    destruct (existsb _ _) eqn:E; [now injection H as <-|].
    destruct (paste_loop _ _) as [nc|] eqn:El; [|discriminate].
    injection H as <-. cbn [font characters].
    refine (paste_loop_ok _ _ _ _ (table_ok_spread _ Ht) El).
    intros p Hp. apply out_of_bounds_false.
    destruct (out_of_bounds (fst p)) eqn:Ep; [|reflexivity].
    rewrite <- E. symmetry. apply existsb_exists. now exists p.
  - rewrite (handlePaste_clipboard _ _ H). exact Hc.
Qed.

Lemma handleReorder_well_formed (fromIndex toIndex : Z) (s : State) :
  well_formed s -> well_formed (handleReorder fromIndex toIndex s).
Proof.
  intros Hw. pose proof Hw as (Hg & _ & _ & Hc). pose proof Hg as (_ & _ & Hs).
  apply well_formed_intro.
  - now apply handleReorder_grid.
  - unfold handleReorder.
    destruct (fromIndex =? toIndex); [now apply well_formed_table|].
    destruct (out_of_bounds toIndex); [now apply well_formed_table|].
    destruct (existsb _ _) eqn:E; [now apply well_formed_table|].
    cbn [font]. apply reorder_font_ok.
    + now apply well_formed_table.
    + intros x Hx. apply Hs. now rewrite In_sort_num in Hx.
    + intros x Hx.
      apply (plan_grid _ _ E (mkMove x (x + (toIndex - fromIndex)))).
      apply In_plan. simpl. auto.
  - unfold handleReorder.
    destruct (fromIndex =? toIndex); [exact Hc|].
    destruct (out_of_bounds toIndex); [exact Hc|].
    destruct (existsb _ _); exact Hc.
Qed.

Lemma handleCopyCharacter_well_formed (fromIndex toIndex : Z) (s : State) :
  well_formed s -> well_formed (handleCopyCharacter fromIndex toIndex s).
Proof.
  intros Hw. pose proof Hw as (Hg & _ & _ & Hc).
  apply well_formed_intro.
  - now apply handleCopyCharacter_grid.
  - unfold handleCopyCharacter.
    destruct (fromIndex =? toIndex); [now apply well_formed_table|].
    destruct (out_of_bounds toIndex); [now apply well_formed_table|].
    destruct (existsb _ _) eqn:E; [now apply well_formed_table|].
    cbn [font]. apply copy_font_ok.
    + now apply well_formed_table.
    + intros x Hx.
      apply (plan_grid _ _ E (mkMove x (x + (toIndex - fromIndex)))).
      apply In_plan. simpl. auto.
  - unfold handleCopyCharacter.
    destruct (fromIndex =? toIndex); [exact Hc|].
    destruct (out_of_bounds toIndex); [exact Hc|].
    destruct (existsb _ _); exact Hc.
Qed.

Lemma handleCopySelection_well_formed (s : State) :
  well_formed s -> well_formed (handleCopySelection s).
Proof.
  intros Hw. pose proof Hw as (Hg & _ & _ & Hc).
  unfold handleCopySelection.
  destruct (0 <? Z.of_nat (length (snapshot s))); [|exact Hw].
  apply well_formed_intro; [exact Hg | exact (well_formed_table s Hw) |].
  intros items item Hcl Hin. injection Hcl as <-.
  apply (snapshot_holds_characters s);
    [exact Hg | exact (well_formed_table s Hw) | exact Hin].
Qed.

Lemma handleResetSelection_well_formed (s : State) :
  well_formed s -> well_formed (handleResetSelection s).
Proof.
  intros Hw. pose proof Hw as (Hg & _ & _ & Hc).
  apply well_formed_intro.
  - now apply handleResetSelection_grid.
  - apply reset_font_ok. now apply well_formed_table.
  - exact Hc.
Qed.

Lemma handleKeyDown_well_formed (e : KeyEvent) (s s' : State) :
  well_formed s -> handleKeyDown e s = Ok s' -> well_formed s'.
Proof.
  intros Hw H. unfold handleKeyDown in H.
  destruct ((ctrlKey e || metaKey e) && (key e =? "c")%string).
  { injection H as <-. now apply handleCopySelection_well_formed. }
  destruct ((ctrlKey e || metaKey e) && (key e =? "v")%string).
  { now apply (handlePaste_well_formed s). }
  destruct ((key e =? "Delete")%string || (key e =? "Backspace")%string).
  { injection H as <-. now apply handleResetSelection_well_formed. }
  destruct (is_arrow (key e)); [|now injection H as <-].
  destruct (negb _); injection H as <-; [|assumption].
  apply handleSelect_well_formed; [|assumption].
  apply next_index_grid. exact (proj1 (proj2 (proj1 Hw))).
Qed.

Lemma dispatch_well_formed (ev : Event) (s s' : State) :
  event_in_grid ev -> well_formed s -> dispatch ev s = Ok s' -> well_formed s'.
Proof.
  intros Hev Hw H. pose proof Hw as (Hg & _ & _ & Hc).
  pose proof (dispatch_grid ev s s' Hev Hg H) as Hg'.
  pose proof (well_formed_table _ Hw) as Ht.
  destruct ev; simpl in *.
  - injection H as <-. now apply handleSelect_well_formed.
  - now apply (handleKeyDown_well_formed e s).
  - injection H as <-. now apply handleReorder_well_formed.
  - injection H as <-. now apply handleCopyCharacter_well_formed.
  - injection H as <-. apply well_formed_intro; [exact Hg' | | exact Hc].
    unfold handleUpdateCharacter. cbn [font characters].
    apply table_ok_set; [now apply table_ok_spread | | discriminate].
    apply in_grid_is_array_index. exact (proj1 (proj2 Hg)).
  - injection H as <-. apply well_formed_intro; [exact Hg' | |].
    + unfold handleCopyFrom.
      destruct (get (characters (font s)) fromIndex); try exact Ht.
      cbn [font characters].
      apply table_ok_set; [now apply table_ok_spread | | discriminate].
      apply in_grid_is_array_index. exact (proj1 (proj2 Hg)).
    + unfold handleCopyFrom.
      destruct (get (characters (font s)) fromIndex); exact Hc.
  - injection H as <-. apply well_formed_intro; [exact Hg' | exact Ht | exact Hc].
  - injection H as <-. apply well_formed_intro; [exact Hg' | |].
    + unfold handleNewFont. destruct confirmed; [|exact Ht].
      apply createEmptyFont_ok.
    + unfold handleNewFont. destruct confirmed; exact Hc.
  - unfold handleLoadFont in H.
    destruct (load_font data) as [f|] eqn:E; [|discriminate].
    injection H as <-. apply well_formed_intro; [exact Hg' | |exact Hc].
    now apply (load_font_ok data).
Qed.

Lemma reachable_well_formed (s : State) : reachable s -> well_formed s.
Proof.
  induction 1 as [|s ev s' Hr IH Hev Hstep].
  - apply well_formed_intro.
    + apply reachable_grid. apply reachable_init.
    + apply createEmptyFont_ok.
    + discriminate.
  - now apply (dispatch_well_formed ev s).
Qed.

(** X12. In every state that the editor reaches with indices in the grid,
    the table is a plain array (no extra properties) in which each of the
    256 slots reads as [null] or as a character, never as [undefined], and
    every clipboard entry holds a character. *)
Theorem reachable_table_has_no_holes (s : State) :
  reachable s ->
  props (characters (font s)) = []
  /\ (forall i, in_grid i ->
                get (characters (font s)) i = Null
                \/ exists c, get (characters (font s)) i = Char c)
  /\ (forall items item,
        clipboard s = Some items -> In item items ->
        exists c, char item = Char c).
Proof.
  intros Hr. destruct (reachable_well_formed _ Hr) as (_ & Hp & Hd & Hc).
  split; [exact Hp|]. split.
  - intros i Hi. specialize (Hd i Hi).
    destruct (get (characters (font s)) i) as [| |c];
      [contradiction | now left | right; now exists c].
  - intros items item Hcl Hin. specialize (Hc items item Hcl Hin).
    destruct (char item) as [| |c]; try discriminate. now exists c.
Qed.

Lemma reachable_two_glyphs : reachable two_glyphs.
Proof.
  assert (Hclick : forall s i shift ctrl,
             reachable s -> in_grid i -> reachable (handleSelect i shift ctrl s)).
  { intros s i shift ctrl Hs Hi.
    now apply (reachable_step s (Click i shift ctrl)). }
  assert (Hedit : forall s c, reachable s -> reachable (handleUpdateCharacter c s)).
  { intros s c Hs. now apply (reachable_step s (UpdateCharacter c)). }
  unfold two_glyphs.
  repeat first [ apply Hclick; [|unfold in_grid; lia] | apply Hedit ].
  apply reachable_init.
Qed.

Lemma reachable_table_has_no_holes_witness :
  props (characters (font two_glyphs)) = [].
Proof.
  apply (proj1 (reachable_table_has_no_holes two_glyphs reachable_two_glyphs)).
Defined.



(** ** Arrow keys on the grid *)

(** X14. An arrow key never takes the anchor out of the grid.  Up and down
    keep the column and stop on the first and last rows; left and right step
    through the cells in index order and stop only on cells 0 and 255, so
    they pass from the start of a row to the end of the row above. *)
Theorem arrow_steps (current : Z) :
  in_grid current ->
  (forall k, in_grid (next_index k current))
  /\ (next_index "ArrowUp" current mod 16 = current mod 16
      /\ (next_index "ArrowUp" current = current <-> current < 16))
  /\ (next_index "ArrowDown" current mod 16 = current mod 16
      /\ (next_index "ArrowDown" current = current <-> 240 <= current))
  /\ (next_index "ArrowLeft" current = Z.max 0 (current - 1))
  /\ (next_index "ArrowRight" current = Z.min 255 (current + 1)).
Proof.
  intros H. split; [intros k; now apply next_index_grid|].
  unfold next_index, in_grid in *. simpl.
  repeat split;
    repeat match goal with
           | |- context [if ?b then _ else _] => destruct b eqn:?
           end;
    try lia.
  - replace (current - 16) with (current + (-1) * 16) by lia.
    apply Z.mod_add. lia.
  - replace (current + 16) with (current + 1 * 16) by lia.
    apply Z.mod_add. lia.
Qed.

Lemma arrow_steps_witness :
  next_index "ArrowLeft" 16 = Z.max 0 (16 - 1).
Proof.
  apply (arrow_steps 16). unfold in_grid. lia.
Defined.

(** X15. Shift with an arrow does not grow the selection step by step: the
    step is taken from the anchor, which a shift selection leaves in place,
    so the selection is the range from the anchor to its neighbour, and
    pressing the same arrow again gives the same selection. *)
Theorem shift_arrow_repeats (e : KeyEvent) (s : State) :
  is_arrow (key e) = true ->
  shiftKey e = true ->
  exists s1 s2,
    handleKeyDown e s = Ok s1
    /\ handleKeyDown e s1 = Ok s2
    /\ selection s2 = selection s1
    /\ anchor (selection s1) = anchor (selection s)
    /\ (s1 = s
        \/ selected (selection s1)
           = createSelectionRange (anchor (selection s))
               (next_index (key e) (anchor (selection s)))).
Proof.
  intros Harrow Hshift.
  set (a := anchor (selection s)).
  set (next := next_index (key e) a).
  assert (H1 : handleKeyDown e s
               = Ok (if next =? a then s else handleSelect next true false s)).
  { rewrite handleKeyDown_arrow by assumption. fold a next. rewrite Hshift.
    now destruct (next =? a). }
  destruct (Z.eqb_spec next a) as [E|Hne].
  - exists s, s. rewrite H1. repeat split; auto.
  - exists (handleSelect next true false s), (handleSelect next true false
             (handleSelect next true false s)).
    split; [exact H1|].
    assert (Ha1 : anchor (selection (handleSelect next true false s)) = a)
      by reflexivity.
    split.
    + rewrite handleKeyDown_arrow by assumption. rewrite Ha1. fold next.
      rewrite Hshift. destruct (Z.eqb_spec next a); [contradiction | reflexivity].
    + split; [reflexivity|]. split; [reflexivity|]. right. reflexivity.
Qed.

Lemma shift_arrow_repeats_witness :
  exists s1 s2,
    handleKeyDown (mkKey false false true "ArrowRight") two_glyphs = Ok s1
    /\ handleKeyDown (mkKey false false true "ArrowRight") s1 = Ok s2
    /\ selection s2 = selection s1
    /\ anchor (selection s1) = anchor (selection two_glyphs)
    /\ (s1 = two_glyphs
        \/ selected (selection s1)
           = createSelectionRange (anchor (selection two_glyphs))
               (next_index "ArrowRight" (anchor (selection two_glyphs)))).
Proof.
  apply (shift_arrow_repeats (mkKey false false true "ArrowRight") two_glyphs);
    reflexivity.
Defined.

(** ** Drags on the grid *)

(** A move with a destination outside the grid returns its state. *)
Lemma rejected_move (fromIndex toIndex : Z) (s : State) :
  (exists d, In d (destinations (MoveDrag fromIndex toIndex) s) /\ ~ in_grid d) ->
  handleReorder fromIndex toIndex s = s.
Proof.
  intros (d & Hd & Hout). apply out_of_bounds_true in Hout.
  unfold handleReorder.
  destruct (fromIndex =? toIndex); [reflexivity|].
  destruct (out_of_bounds toIndex); [reflexivity|].
  assert (E : existsb (fun m => out_of_bounds (dst m))
                (plan (sort_num (selected (selection s))) (toIndex - fromIndex))
              = true).
  { simpl in Hd. apply in_map_iff in Hd as (m & <- & Hm).
    apply existsb_exists. now exists m. }
  now rewrite E.
Qed.

Lemma has_singleton (x i : Z) : has [x] i = (i =? x).
Proof. unfold has. simpl. apply orb_false_r. Qed.

(** A started drag has put the dragged cell in the selection. *)
Lemma drag_start_selects (copyKey : bool) (index : Z) (g g1 : FontGrid.Grid)
    (s s1 : State) :
  FontGrid.handleDragStart copyKey index (g, s) = (true, (g1, s1)) ->
  In index (selected (selection s1))
  /\ FontGrid.dragIndex g1 = Some index
  /\ FontGrid.isCopying g1 = copyKey
  /\ s1 = (if has (selected (selection s)) index
           then s else handleSelect index false false s).
Proof.
  unfold FontGrid.handleDragStart. cbn [fst snd].
  destruct (slot_is_null (get (characters (font s)) index)); [discriminate|].
  intros H. injection H as <- <-. cbn [FontGrid.dragIndex FontGrid.isCopying].
  destruct (has (selected (selection s)) index) eqn:Hhas; cbn [negb].
  - repeat split. now apply has_In.
  - repeat split. now left.
Qed.

(** X16. Dragging a cell that holds a character and is not selected onto
    another cell always succeeds, as the move of that one character: the
    drag start selects the cell alone, and after the drop the character is
    in the drop cell, the cell it came from is absent, the drop cell alone
    is selected with the anchor on it, and every other slot is as the click
    of the drag start left it. *)
Theorem drag_unselected_cell (fromIndex toIndex : Z) (c : Character)
    (g : FontGrid.Grid) (s : State) :
  in_grid fromIndex -> in_grid toIndex -> fromIndex <> toIndex ->
  get (characters (font s)) fromIndex = Char c ->
  ~ In fromIndex (selected (selection s)) ->
  let started := FontGrid.handleDragStart false fromIndex (g, s) in
  let dropped := FontGrid.handleDrop false toIndex (snd started) in
  let t' := characters (font (snd dropped)) in
  fst started = true
  /\ fst dropped = FontGrid.initial
  /\ selection (snd dropped) = mkSelection toIndex [toIndex]
  /\ get t' toIndex = Char c
  /\ get t' fromIndex = Null
  /\ (forall i, is_array_index i = true -> i <> fromIndex -> i <> toIndex ->
                get t' i
                = coupled_slot fromIndex false (selected (selection s))
                    (characters (font s)) i).
Proof.
  intros Hfrom Hto Hne Hc Hnot started dropped t'.
  set (s1 := handleSelect fromIndex false false s).
  assert (Hstarted : started
                     = (true, (FontGrid.mkGrid (Some fromIndex)
                                 (FontGrid.dropIndex g) false, s1))).
  { unfold started, FontGrid.handleDragStart. cbn [fst snd].
    rewrite Hc. cbn [slot_is_null].
    apply has_false in Hnot. now rewrite Hnot. }
  assert (Hsel1 : selection s1 = mkSelection fromIndex [fromIndex]) by reflexivity.
  assert (Hd : forall d, In d (destinations (MoveDrag fromIndex toIndex) s1) ->
                         in_grid d).
  { intros d Hin. unfold destinations in Hin. rewrite Hsel1 in Hin.
    simpl in Hin. destruct Hin as [<-|[]].
    now replace (fromIndex + (toIndex - fromIndex)) with toIndex by lia. }
  assert (Hdropped : dropped
                     = (FontGrid.initial, handleReorder fromIndex toIndex s1)).
  { unfold dropped. rewrite Hstarted. unfold FontGrid.handleDrop.
    cbn [fst snd FontGrid.dragIndex FontGrid.isCopying orb].
    destruct (Z.eqb_spec fromIndex toIndex); [contradiction | reflexivity]. }
  assert (Hidx : is_array_index fromIndex = true)
    by now apply in_grid_is_array_index.
  assert (Ht1 : forall i, is_array_index i = true ->
                 get (characters (font s1)) i
                 = coupled_slot fromIndex false (selected (selection s))
                     (characters (font s)) i).
  { intros i Hi. unfold s1, handleSelect. cbn [font].
    now apply select_font_get. }
  assert (Ht' : forall i,
             get t' i
             = if has [fromIndex] (i - (toIndex - fromIndex))
               then get (characters (font s1)) (i - (toIndex - fromIndex))
               else if has [fromIndex] i then Null
               else get (spread (characters (font s1))) i).
  { intros i. unfold t'. rewrite Hdropped. cbn [snd].
    rewrite handleReorder_get by assumption. now rewrite Hsel1. }
  split; [now rewrite Hstarted|]. split; [now rewrite Hdropped|].
  split; [|split; [|split]].
  - rewrite Hdropped. cbn [snd].
    rewrite handleReorder_performed by assumption. cbv zeta. cbn [selection].
    rewrite Hsel1. cbn [anchor selected]. simpl.
    replace (fromIndex + (toIndex - fromIndex)) with toIndex by lia.
    now rewrite (clamp_in_grid _ Hto).
  - rewrite Ht'.
    replace (toIndex - (toIndex - fromIndex)) with fromIndex by lia.
    rewrite has_singleton, Z.eqb_refl.
    rewrite (Ht1 _ Hidx). unfold coupled_slot.
    rewrite Hc, Z.eqb_refl. reflexivity.
  - rewrite Ht', !has_singleton, Z.eqb_refl.
    destruct (Z.eqb_spec (fromIndex - (toIndex - fromIndex)) fromIndex) as [E|_];
      [lia | reflexivity].
  - intros i Hi Hif Hit. rewrite Ht', !has_singleton.
    destruct (Z.eqb_spec (i - (toIndex - fromIndex)) fromIndex) as [E|_]; [lia|].
    destruct (Z.eqb_spec i fromIndex) as [E|_]; [contradiction|].
    rewrite get_spread, Hi. now apply Ht1.
Qed.

Lemma drag_unselected_cell_witness :
  get (characters
         (font (snd (FontGrid.handleDrop false 40
                       (snd (FontGrid.handleDragStart false 6
                               (FontGrid.initial, glyphs_4_6_deselected))))))) 40
  = Char glyph_B.
Proof.
  refine (proj1 (proj2 (proj2 (proj2
            (drag_unselected_cell 6 40 glyph_B FontGrid.initial
               glyphs_4_6_deselected _ _ _ _ _))))).
  - unfold in_grid. lia.
  - unfold in_grid. lia.
  - lia.
  - reflexivity.
  - vm_compute. intros [H|[]]. discriminate H.
Defined.

(** X17. When a drop is handled the dragged cell is one of the selected
    cells.  So a drop without the copy key on another cell of the grid
    either carries out the move, when every selected cell stays in the grid,
    and then the slot content that was dragged is in the drop cell and the
    drop cell is selected, or changes nothing in the state of [App]. *)
Theorem drop_moves_dragged_cell (fromIndex toIndex : Z)
    (g g1 : FontGrid.Grid) (s s1 : State) :
  FontGrid.handleDragStart false fromIndex (g, s) = (true, (g1, s1)) ->
  in_grid toIndex -> fromIndex <> toIndex ->
  let s2 := snd (FontGrid.handleDrop false toIndex (g1, s1)) in
  In fromIndex (selected (selection s1))
  /\ ((forall x, In x (selected (selection s1)) ->
                 in_grid (x + (toIndex - fromIndex))) ->
      get (characters (font s2)) toIndex = get (characters (font s1)) fromIndex
      /\ In toIndex (selected (selection s2)))
  /\ ((exists x, In x (selected (selection s1))
                 /\ ~ in_grid (x + (toIndex - fromIndex))) ->
      s2 = s1).
Proof.
  intros Hstart Hto Hne s2.
  destruct (drag_start_selects _ _ _ _ _ _ Hstart) as (Hin & Hdrag & Hcopy & _).
  assert (Hs2 : s2 = handleReorder fromIndex toIndex s1).
  { unfold s2, FontGrid.handleDrop. cbn [fst snd]. rewrite Hdrag, Hcopy.
    destruct (Z.eqb_spec fromIndex toIndex); [contradiction | reflexivity]. }
  split; [exact Hin|]. split.
  - intros Hgrid.
    assert (Hd : forall d, In d (destinations (MoveDrag fromIndex toIndex) s1) ->
                           in_grid d).
    { intros d Hd. unfold destinations in Hd.
      rewrite In_plan_dst, In_sort_num in Hd. specialize (Hgrid _ Hd).
      now replace (d - (toIndex - fromIndex) + (toIndex - fromIndex)) with d
        in Hgrid by lia. }
    rewrite Hs2. split.
    + rewrite handleReorder_get by assumption.
      replace (toIndex - (toIndex - fromIndex)) with fromIndex by lia.
      apply has_In in Hin. now rewrite Hin.
    + apply has_In. rewrite has_selected_after_move by assumption.
      replace (toIndex - (toIndex - fromIndex)) with fromIndex by lia.
      now apply has_In.
  - intros (x & Hx & Hout). rewrite Hs2.
    pose proof (rejected_move fromIndex toIndex s1) as Hrej.
    apply Hrej. exists (x + (toIndex - fromIndex)). split; [|exact Hout].
    unfold destinations. rewrite In_plan_dst, In_sort_num.
    now replace (x + (toIndex - fromIndex) - (toIndex - fromIndex)) with x by lia.
Qed.

Lemma drop_moves_dragged_cell_witness :
  In 3 (selected (selection two_glyphs)).
Proof.
  refine (proj1 (drop_moves_dragged_cell 3 11 FontGrid.initial
                   (FontGrid.mkGrid (Some 3) None false) two_glyphs two_glyphs
                   eq_refl _ _)).
  - unfold in_grid. lia.
  - lia.
Defined.

(** ** Segments: what a click on a segment does *)

Lemma land_pow2_testbit (a k : Z) :
  0 <= k -> negb (Z.land a (2 ^ k) =? 0) = Z.testbit a k.
Proof.
  intros Hk. destruct (Z.testbit a k) eqn:E.
  - destruct (Z.eqb_spec (Z.land a (2 ^ k)) 0) as [H0|_]; [|reflexivity].
    exfalso. apply (f_equal (fun x => Z.testbit x k)) in H0.
    rewrite Z.land_spec, E, Z.pow2_bits_true, Z.bits_0 in H0 by assumption.
    discriminate H0.
  - replace (Z.land a (2 ^ k)) with 0; [reflexivity|].
    symmetry. apply Z.bits_inj'. intros m Hm.
    rewrite Z.land_spec, Z.bits_0, Z.pow2_bits_eqb by assumption.
    destruct (Z.eqb_spec k m) as [->|_]; [now rewrite E | apply andb_false_r].
Qed.

Lemma wrap_int32_testbit (x m : Z) :
  0 <= m < 32 -> Z.testbit (wrap_int32 x) m = Z.testbit x m.
Proof.
  intros Hm.
  rewrite <- (Z.mod_pow2_bits_low (wrap_int32 x) 32 m) by lia.
  rewrite <- (Z.mod_pow2_bits_low x 32 m) by lia.
  f_equal. unfold wrap_int32. change (2 ^ 32) with 4294967296.
  rewrite Zminus_mod_idemp_l. f_equal. lia.
Qed.

Lemma wrap_int32_small (x : Z) :
  -2147483648 <= x < 2147483648 -> wrap_int32 x = x.
Proof.
  intros H. unfold wrap_int32. rewrite Z.mod_small; lia.
Qed.

(** The fifteen segments are the bits 0 to 14, one each. *)
Lemma segment_bits (f : string -> Z) (segment : string) :
  In segment SegmentDisplay.SEGMENT_NAMES ->
  exists k, 0 <= k < 15
            /\ to_int32 f (SegmentDisplay.segment_bit segment) = 2 ^ k
            /\ forall segment', In segment' SegmentDisplay.SEGMENT_NAMES ->
                 to_int32 f (SegmentDisplay.segment_bit segment') = 2 ^ k ->
                 segment' = segment.
Proof.
  intros H. simpl in H.
  repeat (destruct H as [<-|H];
          [ match goal with
            | |- context [SegmentDisplay.segment_bit ?s] =>
                let v := eval vm_compute in
                  (to_int32 f (SegmentDisplay.segment_bit s)) in
                exists (Z.log2 v)
            end;
            split; [vm_compute; split; [discriminate | reflexivity] |];
            split; [reflexivity |];
            intros segment' H' E; simpl in H';
            repeat (destruct H' as [<-|H'];
                    [first [reflexivity | vm_compute in E; discriminate E] |]);
            contradiction
          | ]).
  contradiction.
Qed.

Lemma segment_bit_covers (f : string -> Z) (k : Z) :
  0 <= k < 15 ->
  exists segment, In segment SegmentDisplay.SEGMENT_NAMES
                  /\ to_int32 f (SegmentDisplay.segment_bit segment) = 2 ^ k.
Proof.
  intros Hk.
  assert (Hcases : k = 0 \/ k = 1 \/ k = 2 \/ k = 3 \/ k = 4 \/ k = 5 \/ k = 6
                   \/ k = 7 \/ k = 8 \/ k = 9 \/ k = 10 \/ k = 11 \/ k = 12
                   \/ k = 13 \/ k = 14) by lia.
  repeat (destruct Hcases as [->|Hcases];
          [ eexists; split;
            [ | match goal with
                | |- _ = 2 ^ ?n =>
                    let i := eval vm_compute in (Z.to_nat n) in
                    instantiate (1 := nth i SegmentDisplay.SEGMENT_NAMES ""%string);
                    reflexivity
                end ];
            vm_compute; tauto
          | ]).
  subst k. eexists. split;
    [ | instantiate (1 := "dp"%string); reflexivity ].
  vm_compute. tauto.
Qed.

Lemma isLit_testbit (f : string -> Z) (v : value) (segment : string) (k : Z) :
  0 <= k ->
  to_int32 f (SegmentDisplay.segment_bit segment) = 2 ^ k ->
  SegmentDisplay.isLit f v segment = Z.testbit (to_int32 f v) k.
Proof.
  intros Hk E. unfold SegmentDisplay.isLit. rewrite E.
  now apply land_pow2_testbit.
Qed.

(** X18. A click on a segment of the editor flips whether that segment is
    lit in the character at the anchor and leaves the other fourteen as they
    were; the name of the character and the other slots of the table are
    unchanged.  When the anchor slot holds no character the click does
    nothing. *)
Theorem segment_click_flips_one_segment (f : string -> Z) (segment : string)
    (s : State) :
  In segment SegmentDisplay.SEGMENT_NAMES ->
  let a := anchor (selection s) in
  let t := characters (font s) in
  let s' := CharacterEditor.handleSegmentClick f segment s in
  (forall c, get t a = Char c ->
     exists c',
       get (characters (font s')) a = Char c'
       /\ name c' = name c
       /\ (forall segment', In segment' SegmentDisplay.SEGMENT_NAMES ->
             SegmentDisplay.isLit f (segments c') segment'
             = xorb (SegmentDisplay.isLit f (segments c) segment')
                    (segment' =? segment)%string)
       /\ (forall i, is_array_index i = true -> i <> a ->
                     get (characters (font s')) i = get t i))
  /\ (slot_truthy (get t a) = false -> s' = s).
Proof.
  intros Hseg a t s'. split.
  - intros c Hc.
    destruct (segment_bits f segment Hseg) as (k & Hk & Ebit & Hinj).
    set (A := to_int32 f (segments c)).
    assert (Hs' : s' = handleUpdateCharacter
                         (mkChar (VNum (Z.lxor A (2 ^ k))) (name c)) s).
    { unfold s', CharacterEditor.handleSegmentClick. fold a t.
      now rewrite Hc, Ebit. }
    exists (mkChar (VNum (Z.lxor A (2 ^ k))) (name c)).
    rewrite Hs'. unfold handleUpdateCharacter. cbn [font characters].
    fold a t. split; [apply get_set_same|]. split; [reflexivity|]. split.
    + intros segment' Hseg'.
      destruct (segment_bits f segment' Hseg') as (k' & Hk' & Ebit' & _).
      rewrite (isLit_testbit f _ segment' k') by (lia || assumption).
      rewrite (isLit_testbit f (segments c) segment' k') by (lia || assumption).
      cbn [segments to_int32]. fold A.
      rewrite wrap_int32_testbit by lia.
      rewrite Z.lxor_spec, Z.pow2_bits_eqb by lia. f_equal.
      destruct (String.eqb_spec segment' segment) as [->|Hne].
      * rewrite Ebit in Ebit'.
        apply Z.pow_inj_r in Ebit'; [|lia|lia|lia]. subst k'. apply Z.eqb_refl.
      * destruct (Z.eqb_spec k k') as [<-|_]; [|reflexivity].
        exfalso. apply Hne. now apply Hinj.
    + intros i Hi Hne. rewrite get_set_other by congruence.
      now rewrite get_spread, Hi.
  - intros Habs. unfold s', CharacterEditor.handleSegmentClick. fold a t.
    now destruct (get t a).
Qed.

Lemma segment_click_flips_one_segment_witness :
  exists c',
    get (characters (font (CharacterEditor.handleSegmentClick (fun _ => 0) "g1"
                             initial_state))) 0 = Char c'
    /\ name c' = name blank
    /\ (forall segment', In segment' SegmentDisplay.SEGMENT_NAMES ->
          SegmentDisplay.isLit (fun _ => 0) (segments c') segment'
          = xorb (SegmentDisplay.isLit (fun _ => 0) (segments blank) segment')
                 (segment' =? "g1")%string)
    /\ (forall i, is_array_index i = true -> i <> 0 ->
          get (characters (font (CharacterEditor.handleSegmentClick (fun _ => 0)
                                   "g1" initial_state))) i
          = get (characters (font initial_state)) i).
Proof.
  refine (proj1 (segment_click_flips_one_segment (fun _ => 0) "g1" initial_state _)
                blank eq_refl).
  vm_compute. tauto.
Defined.

Lemma lxor_pow2_bounds (n k : Z) :
  0 <= n < 2147483648 -> 0 <= k < 15 -> 0 <= Z.lxor n (2 ^ k) < 2147483648.
Proof.
  intros Hn Hk.
  assert (Hb : 0 <= 2 ^ k) by (apply Z.pow_nonneg; lia).
  assert (H0 : 0 <= Z.lxor n (2 ^ k)) by (apply Z.lxor_nonneg; lia).
  split; [exact H0|].
  destruct (Z.eq_dec (Z.lxor n (2 ^ k)) 0) as [->|Hnz]; [lia|].
  change 2147483648 with (2 ^ 31).
  apply Z.log2_lt_pow2; [lia|].
  pose proof (Z.log2_lxor n (2 ^ k) ltac:(lia) Hb) as Hl.
  rewrite Z.log2_pow2 in Hl by lia.
  assert (Z.log2 n < 31).
  { destruct (Z.eq_dec n 0) as [->|Hn0]; [simpl; lia|].
    apply Z.log2_lt_pow2; [lia|]. change (2 ^ 31) with 2147483648. lia. }
  lia.
Qed.

(** X19. Two clicks on the same segment restore the character at the
    anchor exactly, when its segments are a non-negative 32-bit integer (as
    every bitmask of the editor is), and leave every slot of the table as it
    was. *)
Theorem segment_click_twice (f : string -> Z) (segment : string) (s : State)
    (c : Character) (n : Z) :
  In segment SegmentDisplay.SEGMENT_NAMES ->
  get (characters (font s)) (anchor (selection s)) = Char c ->
  segments c = VNum n ->
  0 <= n < 2147483648 ->
  let s'' := CharacterEditor.handleSegmentClick f segment
               (CharacterEditor.handleSegmentClick f segment s) in
  get (characters (font s'')) (anchor (selection s'')) = Char c
  /\ selection s'' = selection s
  /\ clipboard s'' = clipboard s
  /\ (forall i, is_array_index i = true ->
                get (characters (font s'')) i = get (characters (font s)) i).
Proof.
  intros Hseg Hc Hn Hrange s''.
  destruct (segment_bits f segment Hseg) as (k & Hk & Ebit & _).
  set (a := anchor (selection s)) in *.
  set (c1 := mkChar (VNum (Z.lxor n (2 ^ k))) (name c)).
  assert (H1 : CharacterEditor.handleSegmentClick f segment s
               = handleUpdateCharacter c1 s).
  { unfold CharacterEditor.handleSegmentClick. fold a. rewrite Hc, Ebit, Hn.
    cbn [to_int32]. rewrite wrap_int32_small by lia. reflexivity. }
  assert (H2 : s'' = handleUpdateCharacter c (handleUpdateCharacter c1 s)).
  { unfold s''. rewrite H1. unfold CharacterEditor.handleSegmentClick.
    cbn [handleUpdateCharacter selection font characters]. fold a.
    rewrite get_set_same, Ebit. cbn [c1 segments name to_int32].
    rewrite wrap_int32_small
      by (pose proof (lxor_pow2_bounds n k Hrange Hk); lia).
    rewrite Z.lxor_assoc, Z.lxor_nilpotent, Z.lxor_0_r.
    destruct c as [sg nm]. simpl in Hn. subst sg. reflexivity. }
  rewrite H2. cbn [handleUpdateCharacter selection font characters clipboard].
  fold a. split; [apply get_set_same|]. split; [reflexivity|].
  split; [reflexivity|].
  intros i Hi. rewrite get_set, get_spread, Hi, get_set, get_spread, Hi.
  destruct (Z.eqb_spec a i) as [<-|_]; [now rewrite Hc | reflexivity].
Qed.

Lemma segment_click_twice_witness :
  get (characters
         (font (CharacterEditor.handleSegmentClick (fun _ => 0) "dp"
                  (CharacterEditor.handleSegmentClick (fun _ => 0) "dp"
                     two_glyphs))))
      (anchor (selection two_glyphs))
  = Char glyph_A.
Proof.
  refine (proj1 (segment_click_twice (fun _ => 0) "dp" two_glyphs glyph_A 5
                   _ eq_refl eq_refl _)).
  - vm_compute. tauto.
  - lia.
Defined.

(** X20. The fifteen segments cover the fifteen bits of a control word: two
    words below 2^15 that light the same segments are equal. *)
Theorem lit_segments_determine_word (f : string -> Z) (v w : Z) :
  0 <= v < 32768 -> 0 <= w < 32768 ->
  (forall segment, In segment SegmentDisplay.SEGMENT_NAMES ->
     SegmentDisplay.isLit f (VNum v) segment
     = SegmentDisplay.isLit f (VNum w) segment) ->
  v = w.
Proof.
  intros Hv Hw H. apply Z.bits_inj'. intros m Hm.
  destruct (Z.lt_ge_cases m 15) as [Hlt|Hge].
  - destruct (segment_bit_covers f m ltac:(lia)) as (segment & Hin & Ebit).
    specialize (H segment Hin).
    rewrite !(isLit_testbit f _ segment m) in H by (lia || assumption).
    cbn [to_int32] in H. now rewrite !wrap_int32_testbit in H by lia.
  - rewrite <- (Z.mod_small v (2 ^ 15)), <- (Z.mod_small w (2 ^ 15))
      by (change (2 ^ 15) with 32768; lia).
    now rewrite !Z.mod_pow2_bits_high by lia.
Qed.

Lemma lit_segments_determine_word_witness : 5 = 5.
Proof.
  apply (lit_segments_determine_word (fun _ => 0) 5 5); try lia.
  reflexivity.
Defined.

(** ** Numerals: what the text helpers print *)

Lemma length_append_string (s1 s2 : string) :
  String.length (s1 ++ s2) = (String.length s1 + String.length s2)%nat.
Proof. induction s1 as [|c s1 IH]; simpl; [reflexivity | now rewrite IH]. Qed.

Lemma append_assoc_string (s1 s2 s3 : string) :
  ((s1 ++ s2) ++ s3 = s1 ++ (s2 ++ s3))%string.
Proof. induction s1 as [|c s1 IH]; simpl; [reflexivity | now rewrite IH]. Qed.

Lemma map_string_append (g : ascii -> ascii) (s1 s2 : string) :
  map_string g (s1 ++ s2) = (map_string g s1 ++ map_string g s2)%string.
Proof. induction s1 as [|c s1 IH]; simpl; [reflexivity | now rewrite IH]. Qed.

Lemma length_map_string (g : ascii -> ascii) (s : string) :
  String.length (map_string g s) = String.length s.
Proof. induction s as [|c s IH]; simpl; [reflexivity | now rewrite IH]. Qed.

Lemma forallb_string_append (p : ascii -> bool) (s1 s2 : string) :
  forallb_string p (s1 ++ s2) = forallb_string p s1 && forallb_string p s2.
Proof.
  induction s1 as [|c s1 IH]; simpl; [reflexivity|].
  now rewrite IH, andb_assoc.
Qed.

Lemma length_repeat_char (c : ascii) (n : nat) :
  String.length (repeat_char c n) = n.
Proof. induction n as [|n IH]; simpl; [reflexivity | now rewrite IH]. Qed.

Lemma value_from_append (radix a : Z) (s1 s2 : string) :
  value_from radix a (s1 ++ s2)
  = match value_from radix a s1 with
    | Some v => value_from radix v s2
    | None => None
    end.
Proof.
  revert a. induction s1 as [|c s1 IH]; intros a; simpl; [reflexivity|].
  destruct (digit_value c) as [d|]; [|reflexivity].
  destruct (d <? radix); [apply IH | reflexivity].
Qed.

Lemma digits_of_append (radix : Z) (fuel : nat) (n : Z) (acc : string) :
  digits_of radix fuel n acc
  = (digits_of radix fuel n EmptyString ++ acc)%string.
Proof.
  revert n acc. induction fuel as [|fuel IH]; intros n acc; simpl; [reflexivity|].
  destruct (n <? radix); [reflexivity|].
  rewrite IH, (IH _ (String _ EmptyString)).
  symmetry. apply append_assoc_string.
Qed.

Section Numerals.

Variable radix : Z.
Variable g : ascii -> ascii.
Variable p : ascii -> bool.
Hypothesis radix_ge_2 : 2 <= radix.
Hypothesis g_digit :
  forall d, 0 <= d < radix -> digit_value (g (digit_char d)) = Some d.
Hypothesis g_shape : forall d, 0 <= d < radix -> p (g (digit_char d)) = true.

(** The digits that [digits_of] writes are as many as [n] needs, spell
    [n], and have the shape [p] once passed through [g]. *)
Lemma digits_of_spec (fuel : nat) (n : Z) :
  (1 <= fuel)%nat ->
  0 <= n < radix ^ Z.of_nat fuel ->
  exists k : nat,
    (1 <= k <= fuel)%nat
    /\ String.length (digits_of radix fuel n EmptyString) = k
    /\ (k = 1%nat \/ radix ^ Z.of_nat (k - 1) <= n)
    /\ forallb_string p (map_string g (digits_of radix fuel n EmptyString))
       = true
    /\ forall a,
         value_from radix a (map_string g (digits_of radix fuel n EmptyString))
         = Some (a * radix ^ Z.of_nat k + n).
Proof.
  revert n. induction fuel as [|fuel IH]; intros n Hpos Hn; [lia|].
  simpl digits_of. destruct (Z.ltb_spec n radix) as [Hlt|Hge].
  - exists 1%nat. rewrite Z.mod_small by lia.
    split; [lia|]. split; [reflexivity|]. split; [now left|].
    split; [simpl; now rewrite g_shape by lia|].
    intros a. simpl. rewrite g_digit by lia.
    replace (n <? radix) with true by (symmetry; lia).
    f_equal. lia.
  - assert (Hfuel : (1 <= fuel)%nat).
    { destruct fuel; [|lia]. simpl in Hn. lia. }
    assert (Hdiv : 0 <= n / radix < radix ^ Z.of_nat fuel).
    { split; [apply Z.div_pos; lia|].
      apply Z.div_lt_upper_bound; [lia|].
      rewrite Nat2Z.inj_succ, Z.pow_succ_r in Hn by lia. lia. }
    destruct (IH _ Hfuel Hdiv) as (k & Hk & Hlen & Hmin & Hshape & Hval).
    pose proof (Z.div_mod n radix ltac:(lia)) as Hdm.
    pose proof (Z.mod_pos_bound n radix ltac:(lia)) as Hmod.
    exists (S k). rewrite digits_of_append.
    split; [lia|]. split; [|split; [|split]].
    + rewrite length_append_string, Hlen. simpl. lia.
    + right. replace (S k - 1)%nat with k by lia.
      assert (Hpow : radix ^ Z.of_nat k <= radix * (n / radix)).
      { assert (H1 : 1 <= n / radix) by (apply Z.div_le_lower_bound; lia).
        destruct Hmin as [->|Hmin].
        - change (Z.of_nat 1) with 1. rewrite Z.pow_1_r. nia.
        - replace (Z.of_nat k) with (Z.succ (Z.of_nat (k - 1))) by lia.
          rewrite Z.pow_succ_r by lia. nia. }
      lia.
    + rewrite map_string_append, forallb_string_append, Hshape. simpl.
      now rewrite g_shape by lia.
    + intros a. rewrite map_string_append, value_from_append, Hval.
      cbn [map_string value_from].
      rewrite g_digit by lia.
      replace (n mod radix <? radix) with true by (symmetry; lia).
      f_equal. rewrite Nat2Z.inj_succ, Z.pow_succ_r by lia. nia.
Qed.

Lemma enough_fuel (n : Z) :
  0 <= n -> n < radix ^ Z.of_nat (S (Z.to_nat (Z.log2 n))).
Proof.
  intros Hn. rewrite Nat2Z.inj_succ, Z2Nat.id by apply Z.log2_nonneg.
  destruct (Z.eq_dec n 0) as [->|Hnz].
  - simpl. lia.
  - pose proof (Z.log2_spec n ltac:(lia)) as [_ Hlt].
    pose proof (Z.log2_nonneg n).
    assert (2 ^ Z.succ (Z.log2 n) <= radix ^ Z.succ (Z.log2 n))
      by (apply Z.pow_le_mono_l; lia).
    lia.
Qed.

(** A non-negative integer printed in base [radix], passed through [g]
    and padded with zeros to [width] characters: the text reads back as
    the number, has the shape [p], and is exactly [width] characters long
    when the number is below [radix ^ width]. *)
Lemma padded_numeral (width : nat) (n : Z) :
  0 <= n ->
  p "0"%char = true ->
  let text := padStart width "0" (map_string g (toStringRadix radix n)) in
  parse_radix radix text = Some n
  /\ forallb_string p text = true
  /\ (width <= String.length text)%nat
  /\ (n < radix ^ Z.of_nat width -> (0 < width)%nat ->
      String.length text = width).
Proof.
  intros Hn Hp0 text.
  assert (Hds : toStringRadix radix n
                = digits_of radix (S (Z.to_nat (Z.log2 n))) n EmptyString).
  { unfold toStringRadix. rewrite Z.abs_eq by lia.
    now replace (n <? 0) with false by (symmetry; lia). }
  destruct (digits_of_spec (S (Z.to_nat (Z.log2 n))) n)
    as (k & Hk & Hlen & Hmin & Hshape & Hval).
  { lia. }
  { split; [lia | now apply enough_fuel]. }
  unfold text, padStart. rewrite Hds, length_map_string, Hlen.
  assert (Hzeros : forall m a,
             value_from radix a (repeat_char "0" m ++ map_string g
                (digits_of radix (S (Z.to_nat (Z.log2 n))) n EmptyString))
             = Some (radix ^ Z.of_nat m * a * radix ^ Z.of_nat k + n)).
  { induction m as [|m IHm]; intros a.
    - simpl repeat_char. simpl append. rewrite Hval. f_equal.
      change (Z.of_nat 0) with 0. rewrite Z.pow_0_r. ring.
    - simpl repeat_char. simpl append. simpl value_from.
      replace (0 <? radix) with true by (symmetry; lia).
      rewrite IHm. f_equal. rewrite Nat2Z.inj_succ, Z.pow_succ_r by lia. ring. }
  split; [|split; [|split]].
  - unfold parse_radix. rewrite Hzeros. f_equal. ring.
  - rewrite forallb_string_append, Hshape, andb_true_r.
    induction (width - k)%nat as [|m IHm]; simpl; [reflexivity|].
    now rewrite Hp0.
  - rewrite length_append_string, length_repeat_char, length_map_string, Hlen.
    lia.
  - intros Hlt Hw.
    rewrite length_append_string, length_repeat_char, length_map_string, Hlen.
    assert (k <= width)%nat; [|lia].
    destruct Hmin as [->|Hmin]; [lia|].
    destruct (Nat.le_gt_cases k width) as [Hle|Hgt]; [exact Hle|].
    exfalso.
    assert (radix ^ Z.of_nat width <= radix ^ Z.of_nat (k - 1))
      by (apply Z.pow_le_mono_r; lia).
    lia.
Qed.

End Numerals.

Lemma small_cases_16 (d : Z) :
  0 <= d < 16 ->
  d = 0 \/ d = 1 \/ d = 2 \/ d = 3 \/ d = 4 \/ d = 5 \/ d = 6 \/ d = 7 \/ d = 8
  \/ d = 9 \/ d = 10 \/ d = 11 \/ d = 12 \/ d = 13 \/ d = 14 \/ d = 15.
Proof. lia. Qed.

Lemma upper_hex_digit (d : Z) :
  0 <= d < 16 ->
  digit_value (upper_char (digit_char d)) = Some d
  /\ is_upper_hex (upper_char (digit_char d)) = true.
Proof.
  intros H. apply small_cases_16 in H.
  repeat (destruct H as [->|H]; [split; reflexivity|]).
  subst d. split; reflexivity.
Qed.

Lemma binary_digit (d : Z) :
  0 <= d < 2 ->
  digit_value (digit_char d) = Some d /\ is_digit (digit_char d) = true.
Proof.
  intros H. assert (Hc : d = 0 \/ d = 1) by lia.
  destruct Hc as [->| ->]; split; reflexivity.
Qed.

Lemma map_string_id (s : string) : map_string (fun c => c) s = s.
Proof. induction s as [|c s IH]; simpl; [reflexivity | now rewrite IH]. Qed.

(** X21. The [hex] helper prints a non-negative number as upper-case
    hexadecimal digits, at least four of them and exactly four for a 16-bit
    word; the text reads back as the number, so two different numbers never
    print alike.  A missing value prints as [0000], and [formatHex] of the
    editor is the same text after [0x]. *)
Theorem hex_prints_word (n : Z) :
  0 <= n ->
  parse_radix 16 (ExportDialog.hex (Some n)) = Some n
  /\ forallb_string is_upper_hex (ExportDialog.hex (Some n)) = true
  /\ (4 <= String.length (ExportDialog.hex (Some n)))%nat
  /\ (n < 65536 -> String.length (ExportDialog.hex (Some n)) = 4%nat)
  /\ (forall m, 0 <= m ->
        ExportDialog.hex (Some m) = ExportDialog.hex (Some n) -> m = n)
  /\ ExportDialog.hex None = "0000"%string
  /\ CharacterEditorText.formatHex n
     = ("0x" ++ ExportDialog.hex (Some n))%string.
Proof.
  intros Hn.
  assert (H : forall k, 0 <= k ->
             parse_radix 16 (ExportDialog.hex (Some k)) = Some k
             /\ forallb_string is_upper_hex (ExportDialog.hex (Some k)) = true
             /\ (4 <= String.length (ExportDialog.hex (Some k)))%nat
             /\ (k < 16 ^ Z.of_nat 4 -> (0 < 4)%nat ->
                 String.length (ExportDialog.hex (Some k)) = 4%nat)).
  { intros k Hk.
    apply (padded_numeral 16 upper_char is_upper_hex ltac:(lia)
             (fun d Hd => proj1 (upper_hex_digit d Hd))
             (fun d Hd => proj2 (upper_hex_digit d Hd)) 4 k Hk eq_refl). }
  destruct (H n Hn) as (Hparse & Hshape & Hmin & Hlen).
  split; [exact Hparse|]. split; [exact Hshape|]. split; [exact Hmin|].
  split; [intros Hlt; apply Hlen; [exact Hlt | lia]|].
  split; [|split; reflexivity].
  intros m Hm E. destruct (H m Hm) as (Hparse' & _).
  rewrite E, Hparse in Hparse'. now injection Hparse'.
Qed.

Lemma hex_prints_word_witness :
  String.length (ExportDialog.hex (Some 43981)) = 4%nat.
Proof.
  refine (proj1 (proj2 (proj2 (proj2 (hex_prints_word 43981 _)))) _); lia.
Defined.

(** X22. The [bin] helper prints a non-negative number in binary digits,
    at least fifteen of them and exactly fifteen for a 15-bit segment mask;
    the text reads back as the number.  A missing value prints as fifteen
    zeros, and [formatBinary] of the editor prints the same text. *)
Theorem bin_prints_mask (n : Z) :
  0 <= n ->
  parse_radix 2 (ExportDialog.bin (Some n)) = Some n
  /\ forallb_string is_digit (ExportDialog.bin (Some n)) = true
  /\ (15 <= String.length (ExportDialog.bin (Some n)))%nat
  /\ (n < 32768 -> String.length (ExportDialog.bin (Some n)) = 15%nat)
  /\ (forall m, 0 <= m ->
        ExportDialog.bin (Some m) = ExportDialog.bin (Some n) -> m = n)
  /\ ExportDialog.bin None = "000000000000000"%string
  /\ CharacterEditorText.formatBinary n = ExportDialog.bin (Some n).
Proof.
  intros Hn.
  assert (H : forall k, 0 <= k ->
             parse_radix 2 (ExportDialog.bin (Some k)) = Some k
             /\ forallb_string is_digit (ExportDialog.bin (Some k)) = true
             /\ (15 <= String.length (ExportDialog.bin (Some k)))%nat
             /\ (k < 2 ^ Z.of_nat 15 -> (0 < 15)%nat ->
                 String.length (ExportDialog.bin (Some k)) = 15%nat)).
  { intros k Hk.
    pose proof (padded_numeral 2 (fun c => c) is_digit ltac:(lia)
                  (fun d Hd => proj1 (binary_digit d Hd))
                  (fun d Hd => proj2 (binary_digit d Hd)) 15 k Hk eq_refl) as P.
    cbv zeta in P. rewrite map_string_id in P. exact P. }
  destruct (H n Hn) as (Hparse & Hshape & Hmin & Hlen).
  split; [exact Hparse|]. split; [exact Hshape|]. split; [exact Hmin|].
  split; [intros Hlt; apply Hlen; [exact Hlt | lia]|].
  split; [|split; reflexivity].
  intros m Hm E. destruct (H m Hm) as (Hparse' & _).
  rewrite E, Hparse in Hparse'. now injection Hparse'.
Qed.

Lemma bin_prints_mask_witness :
  String.length (ExportDialog.bin (Some 21845)) = 15%nat.
Proof.
  refine (proj1 (proj2 (proj2 (proj2 (bin_prints_mask 21845 _)))) _); lia.
Defined.

(** X23. Every entry of the export context has a name: the character's own
    when it has one, otherwise [CHAR_] followed by the index in upper-case
    hexadecimal, two digits for an index of the grid.  These default names
    differ for different indices.  The entry is [defined] unless the slot
    is [null], and its segments are the character's, whatever they are, or
    0 when the slot is absent or the segments of the character are
    [undefined] or [null]. *)
Theorem export_entry_names (char : slot) (index : Z) :
  0 <= index ->
  let e := ExportDialog.entry char index in
  ExportDialog.entry_index e = index
  /\ ExportDialog.defined e = negb (slot_is_null char)
  /\ truthy (ExportDialog.entry_name e) = true
  /\ (forall c, char = Char c -> truthy (name c) = true ->
                ExportDialog.entry_name e = name c)
  /\ ((forall c, char = Char c -> truthy (name c) = false) ->
      ExportDialog.entry_name e = VStr (ExportDialog.default_name index))
  /\ (slot_truthy char = false -> ExportDialog.entry_segments e = VNum 0)
  /\ (forall c, char = Char c ->
                segments c = VUndefined \/ segments c = VNull ->
                ExportDialog.entry_segments e = VNum 0)
  /\ (forall c, char = Char c ->
                segments c <> VUndefined -> segments c <> VNull ->
                ExportDialog.entry_segments e = segments c)
  /\ (index < 256 -> String.length (ExportDialog.default_name index) = 7%nat)
  /\ (forall j, 0 <= j ->
        ExportDialog.default_name j = ExportDialog.default_name index ->
        j = index).
Proof.
  intros Hi e.
  assert (H : forall k, 0 <= k ->
             exists t, ExportDialog.default_name k = ("CHAR_" ++ t)%string
                       /\ parse_radix 16 t = Some k
                       /\ (k < 16 ^ Z.of_nat 2 -> (0 < 2)%nat ->
                           String.length t = 2%nat)).
  { intros k Hk. eexists. split; [reflexivity|].
    pose proof (padded_numeral 16 upper_char is_upper_hex ltac:(lia)
                  (fun d Hd => proj1 (upper_hex_digit d Hd))
                  (fun d Hd => proj2 (upper_hex_digit d Hd)) 2 k Hk eq_refl) as P.
    cbv zeta in P. split; [apply P | apply P]. }
  split; [reflexivity|]. split; [reflexivity|].
  split; [|split; [|split; [|split; [|split; [|split; [|split]]]]]].
  - unfold e, ExportDialog.entry. cbn [ExportDialog.entry_name]. unfold or_else.
    destruct char as [| |c]; try reflexivity.
    destruct (truthy (name c)) eqn:E; [exact E | reflexivity].
  - intros c -> Ht. unfold e, ExportDialog.entry. cbn [ExportDialog.entry_name].
    unfold or_else. now rewrite Ht.
  - intros Hno. unfold e, ExportDialog.entry. cbn [ExportDialog.entry_name].
    unfold or_else. destruct char as [| |c]; try reflexivity.
    now rewrite (Hno c eq_refl).
  - intros Habs. destruct char; try discriminate; reflexivity.
  - intros c -> Hseg. unfold e, ExportDialog.entry.
    cbn [ExportDialog.entry_segments]. now destruct Hseg as [-> | ->].
  - intros c -> Hu Hn. unfold e, ExportDialog.entry.
    cbn [ExportDialog.entry_segments].
    destruct (segments c); try reflexivity; contradiction.
  - intros Hlt. destruct (H index Hi) as (t & -> & _ & Hlen).
    simpl. rewrite Hlen; [reflexivity | exact Hlt | lia].
  - intros j Hj E.
    destruct (H index Hi) as (t & Et & Hp & _).
    destruct (H j Hj) as (t' & Et' & Hp' & _).
    rewrite Et, Et' in E. simpl in E. injection E as ->.
    rewrite Hp in Hp'. now injection Hp'.
Qed.

Lemma export_entry_names_witness :
  ExportDialog.entry_name (ExportDialog.entry Null 10) = VStr "CHAR_0A".
Proof.
  refine (proj1 (proj2 (proj2 (proj2 (proj2
            (export_entry_names Null 10 _))))) _).
  - lia.
  - discriminate.
Defined.

(** ** File names *)

Lemma sanitize_char (c : ascii) :
  let c' := if is_lower c || is_upper c || is_digit c then c else "_"%char in
  is_name_char c' = true
  /\ (if is_lower c' || is_upper c' || is_digit c' then c' else "_"%char) = c'.
Proof.
  unfold is_name_char.
  destruct (is_lower c || is_upper c || is_digit c) eqn:E; cbv zeta.
  - rewrite E. split; reflexivity.
  - split; reflexivity.
Qed.

(** X24. The name that the saved and the exported files are given is as
    long as the font name and is made of ASCII letters, digits and
    underscores only; a font name that is already of this kind is used as it
    is, and sanitizing twice is sanitizing once.  The saved file is that
    name followed by [.json].  A font name that is not a string, which a
    loaded file can bring, makes the handler throw. *)
Theorem safe_name_is_safe (name : value) :
  (forall s, name = VStr s ->
     exists r,
       safe_name name = Some r
       /\ String.length r = String.length s
       /\ forallb_string is_name_char r = true
       /\ safe_name (VStr r) = Some r
       /\ (forallb_string is_name_char s = true -> r = s)
       /\ saved_file_name (mkFont name (array_fill 256 Null))
          = Some (r ++ ".json")%string)
  /\ ((forall s, name <> VStr s) ->
      safe_name name = None
      /\ saved_file_name (mkFont name (array_fill 256 Null)) = None).
Proof.
  split.
  - intros s ->. eexists. split; [reflexivity|].
    split; [apply length_map_string|].
    split; [|split; [|split; [|reflexivity]]].
    + induction s as [|c s IH]; [reflexivity|].
      cbn [map_string forallb_string]. rewrite IH.
      now rewrite (proj1 (sanitize_char c)).
    + cbn [safe_name]. f_equal.
      induction s as [|c s IH]; [reflexivity|].
      cbn [map_string]. rewrite IH.
      now rewrite (proj2 (sanitize_char c)).
    + induction s as [|c s IH]; [reflexivity|].
      cbn [map_string forallb_string]. intros H.
      apply andb_true_iff in H as [Hc Hs]. rewrite (IH Hs). f_equal.
      unfold is_name_char in Hc.
      destruct (is_lower c || is_upper c || is_digit c) eqn:E; [reflexivity|].
      simpl in Hc. apply Ascii.eqb_eq in Hc. now subst c.
  - intros Hno. unfold saved_file_name. cbn [font_name].
    destruct name; try (split; reflexivity).
    now contradiction (Hno s).
Qed.

Lemma safe_name_is_safe_witness :
  exists r,
    safe_name (VStr "My Font") = Some r
    /\ String.length r = String.length "My Font"
    /\ forallb_string is_name_char r = true
    /\ safe_name (VStr r) = Some r
    /\ (forallb_string is_name_char "My Font" = true -> r = "My Font"%string)
    /\ saved_file_name (mkFont (VStr "My Font") (array_fill 256 Null))
       = Some (r ++ ".json")%string.
Proof.
  apply (proj1 (safe_name_is_safe (VStr "My Font")) "My Font"%string eq_refl).
Defined.

(** ** Saving and loading again *)

Lemma truthy_json_copy (v : value) : truthy (json_copy v) = truthy v.
Proof. destruct v; reflexivity. Qed.

Lemma saved_slot_fields (c : Character) :
  get_field "segments" (saved_slot (Char c)) = Some (json_copy (segments c))
  /\ get_field "name" (saved_slot (Char c)) = Some (json_copy (name c)).
Proof.
  unfold saved_slot, slot_value. cbn [json_copy].
  destruct (segments c) eqn:Es, (name c) eqn:En; split; reflexivity.
Qed.

Lemma saved_slot_not_undefined (x : slot) : saved_slot x <> VUndefined.
Proof. destruct x; discriminate. Qed.

Lemma saved_data_fields (f : Font) :
  get_field "characters" (saved_data f)
  = Some (VArr (map saved_slot (elems (characters f))))
  /\ get_field "name" (saved_data f) = Some (json_copy (font_name f)).
Proof.
  assert (H : map (fun x => match x with
                             | VUndefined => VNull
                             | _ => json_copy x
                             end) (map slot_value (elems (characters f)))
              = map saved_slot (elems (characters f))).
  { rewrite map_map. apply map_ext. now intros [| |c]. }
  unfold saved_data, font_value. cbn [json_copy]. rewrite H.
  destruct (font_name f) eqn:En; split; reflexivity.
Qed.

(** X25. Loading the file that [handleSaveFont] writes always succeeds.
    Every character of the grid comes back with its fields after the
    defaults of the load ([segments || 0], [name || null]); an absent slot
    comes back [null], except slot 0, which comes back blank; the font name
    comes back unless it is falsy.  So a font of ordinary characters (number
    segments, name [null] or a non-empty string) with a character in slot 0
    comes back slot for slot as it was saved, holes apart. *)
Theorem save_then_load (f : Font) :
  exists f',
    load_font (saved_data f) = Some f'
    /\ font_name f' = or_else (json_copy (font_name f)) (VStr "Loaded Font")
    /\ (forall i, in_grid i ->
          get (characters f') i = reloaded_slot i (get (characters f) i))
    /\ ((forall i c, in_grid i -> get (characters f) i = Char c -> ordinary c) ->
        slot_truthy (get (characters f) 0) = true ->
        forall i, in_grid i ->
          get (characters f) i <> Undefined ->
          get (characters f') i = get (characters f) i).
Proof.
  destruct (saved_data_fields f) as [Hcs Hname].
  set (items := map saved_slot (elems (characters f))) in *.
  assert (Hnth : forall i, in_grid i ->
             nth_error items (Z.to_nat i) = Some (saved_slot (get (characters f) i))
             \/ (nth_error items (Z.to_nat i) = None
                 /\ get (characters f) i = Undefined)).
  { intros i Hi. unfold items, get.
    rewrite (in_grid_is_array_index _ Hi).
    rewrite nth_error_map.
    destruct (nth_error (elems (characters f)) (Z.to_nat i)) as [x|] eqn:E.
    - left. simpl. now rewrite (nth_error_nth _ _ _ E).
    - right. split; [reflexivity|].
      apply nth_overflow. now apply nth_error_None. }
  destruct (forEach_load items 0 (array_fill 256 Null)) as [a|] eqn:Hfe.
  2:{ exfalso. apply forEach_load_throws in Hfe as (k & Hk & Hu).
      unfold items in Hu. rewrite nth_error_map in Hu.
      destruct (nth_error (elems (characters f)) k) as [x|]; [|discriminate].
      simpl in Hu. injection Hu as Hu. now apply (saved_slot_not_undefined x). }
  assert (Hload : load_font (saved_data f)
                  = Some (mkFont (or_else (json_copy (font_name f)) (VStr "Loaded Font"))
                            (if slot_is_null (get a 0)
                             then set a 0 (Char blank) else a))).
  { unfold load_font. rewrite Hcs, Hname. cbn [truthy]. now rewrite Hfe. }
  assert (Hfill : forall i, in_grid i -> get (array_fill 256 Null) i = Null).
  { intros i Hi. apply get_array_fill; [exact Hi | now apply in_grid_is_array_index]. }
  assert (Ha : forall i, in_grid i ->
             get a i = match get (characters f) i with
                       | Char c =>
                           Char (mkChar (or_else (json_copy (segments c)) (VNum 0))
                                        (or_else (json_copy (name c)) VNull))
                       | Null | Undefined => Null
                       end).
  { intros i Hi.
    assert (Habs : (forall entry, nth_error items (Z.to_nat i) = Some entry ->
                                  entry = VNull) -> get a i = Null).
    { intros Hn. rewrite (forEach_load_absent _ _ _ _ i Hfe); [now apply Hfill|].
      intros k entry Hk Hki. simpl in Hki.
      replace k with (Z.to_nat i) in Hk by lia. now apply Hn. }
    destruct (Hnth i Hi) as [Hsome|[Hnone Hu]].
    - destruct (get (characters f) i) as [| |c] eqn:E.
      + apply Habs. intros entry He. simpl in Hsome. congruence.
      + apply Habs. intros entry He. simpl in Hsome. congruence.
      + destruct (forEach_load_kept _ _ _ _ (Z.to_nat i) _ Hfe Hsome)
          as (sg & nm & Hs & Hn & Hg).
        * unfold in_grid in Hi. lia.
        * unfold saved_slot, slot_value. cbn [json_copy].
          destruct (segments c), (name c); discriminate.
        * destruct (saved_slot_fields c) as [Hs' Hn'].
          rewrite Hs' in Hs. rewrite Hn' in Hn.
          injection Hs as <-. injection Hn as <-.
          simpl in Hg. rewrite Z2Nat.id in Hg by (unfold in_grid in Hi; lia).
          exact Hg.
    - rewrite Hu. apply Habs. intros entry He. congruence. }
  assert (Hget : forall i, in_grid i ->
             get (if slot_is_null (get a 0) then set a 0 (Char blank) else a) i
             = reloaded_slot i (get (characters f) i)).
  { intros i Hi. unfold reloaded_slot.
    pose proof (Ha 0 ltac:(unfold in_grid; lia)) as Ha0.
    destruct (Z.eqb_spec i 0) as [->|Hne].
    - rewrite Ha0. destruct (get (characters f) 0); simpl;
        try apply get_set_same.
      now rewrite Ha0.
    - pose proof (Ha i Hi) as Hi'.
      destruct (slot_is_null (get a 0)).
      + rewrite get_set_other by congruence. rewrite Hi'.
        now destruct (get (characters f) i).
      + rewrite Hi'. now destruct (get (characters f) i). }
  eexists. split; [exact Hload|]. cbn [font_name characters].
  split; [reflexivity|]. split; [exact Hget|].
  intros Hord H0 i Hi Hdef. rewrite (Hget i Hi).
  destruct (get (characters f) i) as [| |c] eqn:E.
  - contradiction.
  - unfold reloaded_slot.
    destruct (Z.eqb_spec i 0) as [->|Hne]; [|reflexivity].
    rewrite E in H0. discriminate H0.
  - destruct (Hord i c Hi E) as [(n & Hn) Hnm]. simpl.
    destruct c as [sg nm]. simpl in *. subst sg. f_equal. f_equal.
    + unfold or_else. simpl. destruct (Z.eqb_spec n 0) as [->|_]; reflexivity.
    + destruct Hnm as [->|(s & -> & Hs)]; [reflexivity|].
      unfold or_else. simpl.
      destruct (String.eqb_spec s ""); [contradiction | reflexivity].
Qed.

Lemma forall_slots (a : jsarray) (P : slot -> Prop) :
  array_length a = 256 -> Forall P (elems a) ->
  forall i, in_grid i -> P (get a i).
Proof.
  intros Hlen HP i Hi. unfold get. rewrite (in_grid_is_array_index _ Hi).
  rewrite Forall_forall in HP. apply HP, nth_In.
  unfold array_length in Hlen. unfold in_grid in Hi. lia.
Qed.

Lemma three_glyphs_ordinary :
  Forall (fun x => x <> Undefined /\ forall c, x = Char c -> ordinary c)
         (elems (characters (font three_glyphs))).
Proof.
  vm_compute elems.
  repeat (apply Forall_cons;
          [split;
           [discriminate
           |intros c Hc;
            first [discriminate Hc
                  |injection Hc as <-;
                   split; [eexists; reflexivity|]; cbn [name];
                   first [left; reflexivity
                         |right; eexists; split; [reflexivity | discriminate]]]]|]).
  apply Forall_nil.
Qed.

Lemma three_glyphs_slots (i : Z) :
  in_grid i ->
  get (characters (font three_glyphs)) i <> Undefined
  /\ forall c, get (characters (font three_glyphs)) i = Char c -> ordinary c.
Proof.
  revert i.
  apply (forall_slots (characters (font three_glyphs))
           (fun x => x <> Undefined /\ forall c, x = Char c -> ordinary c)).
  - reflexivity.
  - exact three_glyphs_ordinary.
Qed.

Lemma save_then_load_witness :
  exists f',
    load_font (saved_data (font three_glyphs)) = Some f'
    /\ forall i, in_grid i ->
         get (characters f') i = get (characters (font three_glyphs)) i.
Proof.
  destruct (save_then_load (font three_glyphs)) as (f' & Hload & _ & _ & Hsame).
  exists f'. split; [exact Hload|].
  intros i Hi. apply Hsame.
  - intros j c Hj Hc.
    exact (proj2 (three_glyphs_slots j Hj) c Hc).
  - reflexivity.
  - exact Hi.
  - exact (proj1 (three_glyphs_slots i Hi)).
Defined.

(** ** Naming a character *)

(** X26. Editing the name of the current character stores the text, or
    [null] for the empty text, and changes neither the segments, nor another
    slot, nor the selection.  A character with a name outlives every later
    click; an unlit character whose name is emptied is removed from the
    table by the next click on another cell, when it is in the selection. *)
Theorem name_decides_survival (text : string) (j : Z) (shift ctrl : bool)
    (s : State) (c : Character) :
  let a := anchor (selection s) in
  let s1 := CharacterEditor.handleNameChange text s in
  is_array_index a = true ->
  get (characters (font s)) a = Char c ->
  get (characters (font s1)) a
  = Char (mkChar (segments c) (if (text =? "")%string then VNull else VStr text))
  /\ (forall i, is_array_index i = true -> i <> a ->
        get (characters (font s1)) i = get (characters (font s)) i)
  /\ selection s1 = selection s
  /\ (text <> ""%string ->
      get (characters (font (handleSelect j shift ctrl s1))) a
      = Char (mkChar (segments c) (VStr text)))
  /\ (text = ""%string -> segments c = VNum 0 ->
      In a (selected (selection s)) -> j <> a ->
      get (characters (font (handleSelect j shift ctrl s1))) a = Null).
Proof.
  intros a s1 Ha Hc.
  assert (Hs1 : s1 = handleUpdateCharacter
                       (mkChar (segments c) (or_else (VStr text) VNull)) s).
  { unfold s1, CharacterEditor.handleNameChange. fold a. now rewrite Hc. }
  assert (Hname : or_else (VStr text) VNull
                  = if (text =? "")%string then VNull else VStr text).
  { unfold or_else. simpl. now destruct (text =? "")%string. }
  assert (Hget : get (characters (font s1)) a
                 = Char (mkChar (segments c)
                           (if (text =? "")%string then VNull else VStr text))).
  { rewrite Hs1, Hname. unfold handleUpdateCharacter. cbn [font characters].
    fold a. apply get_set_same. }
  assert (Hsel : selection s1 = selection s) by now rewrite Hs1.
  split; [exact Hget|]. split; [|split; [exact Hsel|split]].
  - intros i Hi Hne. rewrite Hs1. unfold handleUpdateCharacter.
    cbn [font characters]. fold a.
    rewrite get_set_other by congruence. now rewrite get_spread, Hi.
  - intros Htext. unfold handleSelect. cbn [font].
    rewrite select_font_get by exact Ha. unfold coupled_slot.
    rewrite Hget. destruct (String.eqb_spec text ""); [contradiction|].
    unfold is_empty_content. cbn [name truthy].
    destruct (String.eqb_spec text ""); [contradiction|].
    cbn [negb]. rewrite ?andb_false_r. cbn [slot_is_null].
    now rewrite ?andb_false_r.
  - intros -> Hseg Hin Hj. unfold handleSelect. cbn [font].
    rewrite select_font_get by exact Ha. unfold coupled_slot.
    rewrite Hget, Hsel. cbn [String.eqb].
    unfold is_empty_content. cbn [segments name truthy negb]. rewrite Hseg.
    cbn [is_zero]. fold a.
    replace (has (selected (selection s)) a) with true
      by (symmetry; now apply has_In).
    destruct (Z.eqb_spec a j) as [E|_]; [now contradiction Hj|].
    reflexivity.
Qed.

Lemma name_decides_survival_witness :
  get (characters (font (handleSelect 7 false false
                           (CharacterEditor.handleNameChange "Z" two_glyphs)))) 2
  = Char (mkChar (VNum 5) (VStr "Z")).
Proof.
  refine (proj1 (proj2 (proj2 (proj2
            (name_decides_survival "Z" 7 false false two_glyphs glyph_A
               eq_refl eq_refl)))) _).
  discriminate.
Defined.
